(** * claude-gateway: routing engine, transcoders and orchestrator

    A shallow embedding of the hot request path of the gateway
    (package [router], package [convert], package [streamconv] and the
    Anthropic facade handler) together with the properties the
    specification states about it.

    Conventions.
    - Go [uint64] values (ids, the pool counter) are [N], with the
      wrap-around at 2^64 written out where the code does arithmetic.
    - Go [int], [int64] and [time.Duration] values are [Z].
    - A [time.Time] is the number of nanoseconds since the zero instant,
      so that [IsZero] is a comparison with 0.
    - A Go [string] is a Rocq [string] (a sequence of bytes).
    - A [float64] is a value of [F64.f64]: IEEE-754 binary64 with every
      operation the exact rational result rounded to nearest, ties to
      even.
    - Go maps are stdpp [gmap]s. *)

From Stdlib Require Import ZArith QArith Qround Qpower Lia List Bool Ascii String.
From stdpp Require Import base option list gmap strings pretty fin_maps.

Import ListNotations.
Local Open Scope Z_scope.

(** ** binary64 arithmetic *)

Module F64.

Local Open Scope Q_scope.

(** [pow2 e] is 2^e for an integer exponent. *)
Definition pow2 (e : Z) : Q :=
  match e with
  | Z0 => 1
  | Zpos p => Z.pow_pos 2 p # 1
  | Zneg p => 1 # Pos.pow 2 p
  end.

(** Floor of the base-2 logarithm of a positive rational. *)
Definition ilog2 (q : Q) : Z :=
  let n := Qnum q in
  let d := Zpos (Qden q) in
  let k := (Z.log2 n - Z.log2 d)%Z in
  if Qle_bool (pow2 k) q then k else (k - 1)%Z.

(** Round a rational to the nearest integer, ties to even. *)
Definition rne (q : Q) : Z :=
  let f := Qfloor q in
  match Qcompare (q - inject_Z f) (1 # 2) with
  | Lt => f
  | Gt => (f + 1)%Z
  | Eq => if Z.even f then f else (f + 1)%Z
  end.

Inductive f64 : Type :=
| Fin (q : Q)
| PInf
| NInf
| NaN.

Definition prec : Z := 53.
Definition emin : Z := -1074.
Definition emax : Z := 1024.

(** Rounding of a positive rational: 53 significant bits, gradual
    underflow below 2^-1022, overflow to infinity from 2^1024. *)
Definition round_pos (q : Q) : f64 :=
  let e := Z.max (ilog2 q - (prec - 1)) emin in
  let m := rne (q * pow2 (- e)) in
  let r := Qred (inject_Z m * pow2 e) in
  if Qle_bool (pow2 emax) r then PInf else Fin r.

Definition fneg (x : f64) : f64 :=
  match x with
  | Fin q => Fin (Qred (- q))
  | PInf => NInf
  | NInf => PInf
  | NaN => NaN
  end.

Definition round (q : Q) : f64 :=
  match Qnum q with
  | Z0 => Fin 0
  | Zpos _ => round_pos q
  | Zneg _ => fneg (round_pos (- q))
  end.

Definition of_Z (z : Z) : f64 := round (inject_Z z).

Definition fadd (x y : f64) : f64 :=
  match x, y with
  | NaN, _ | _, NaN => NaN
  | PInf, NInf | NInf, PInf => NaN
  | PInf, _ | _, PInf => PInf
  | NInf, _ | _, NInf => NInf
  | Fin a, Fin b => round (a + b)
  end.

Definition fmul (x y : f64) : f64 :=
  match x, y with
  | NaN, _ | _, NaN => NaN
  | Fin a, Fin b => round (a * b)
  | Fin a, PInf | PInf, Fin a =>
      match Qnum a with Z0 => NaN | Zpos _ => PInf | Zneg _ => NInf end
  | Fin a, NInf | NInf, Fin a =>
      match Qnum a with Z0 => NaN | Zpos _ => NInf | Zneg _ => PInf end
  | PInf, PInf | NInf, NInf => PInf
  | PInf, NInf | NInf, PInf => NInf
  end.

(** Division. A zero divisor is the positive zero: the only zero
    divisors the modelled code can produce are sums [1 + x], which
    round to +0. *)
Definition fdiv (x y : f64) : f64 :=
  match x, y with
  | NaN, _ | _, NaN => NaN
  | Fin a, Fin b =>
      match Qnum b with
      | Z0 => match Qnum a with Z0 => NaN | Zpos _ => PInf | Zneg _ => NInf end
      | _ => round (a / b)
      end
  | Fin _, (PInf | NInf) => Fin 0
  | PInf, Fin b => match Qnum b with Zneg _ => NInf | _ => PInf end
  | NInf, Fin b => match Qnum b with Zneg _ => PInf | _ => NInf end
  | (PInf | NInf), (PInf | NInf) => NaN
  end.

(** Go's [<], [<=], [==] on float64: false as soon as one side is NaN. *)
Definition fltb (x y : f64) : bool :=
  match x, y with
  | NaN, _ | _, NaN => false
  | Fin a, Fin b => negb (Qle_bool b a)
  | PInf, _ | _, NInf => false
  | NInf, _ | _, PInf => true
  end.

Definition fleb (x y : f64) : bool :=
  match x, y with
  | NaN, _ | _, NaN => false
  | Fin a, Fin b => Qle_bool a b
  | NInf, _ | _, PInf => true
  | PInf, _ | _, NInf => false
  end.

Definition feqb (x y : f64) : bool :=
  match x, y with
  | Fin a, Fin b => Qeq_bool a b
  | PInf, PInf | NInf, NInf => true
  | _, _ => false
  end.

Definition zero : f64 := Fin 0.
Definition one : f64 := Fin 1.

End F64.

(** ** Go's [strings] package

    The functions of package [strings] the gateway calls, on byte
    strings.  [TrimSpace] removes the white space Go's [unicode.IsSpace]
    recognises, in its UTF-8 encoding; [ToLower] and [EqualFold] are the
    case mapping of the ASCII letters (bytes above 127 are left as they
    are): they are Go's on the strings whose cased letters are all
    ASCII, which is what model ids, facades and aliases are made of. *)

Module GoStrings.

Local Open Scope N_scope.

Definition code (c : ascii) : N := N_of_ascii c.

(** '\t', '\n', '\v', '\f', '\r' and ' '. *)
Definition ascii_space (c : ascii) : bool :=
  let n := code c in
  ((9 <=? n) && (n <=? 13)) || (n =? 32).

(** The two-byte encodings of white space, U+0085 and U+00A0, and the
    three-byte ones: U+1680, U+2000..U+200A, U+2028, U+2029, U+202F,
    U+205F and U+3000. *)
Definition space2 (c d : ascii) : bool :=
  (code c =? 194) && ((code d =? 133) || (code d =? 160)).

Definition space3 (c d e : ascii) : bool :=
  ((code c =? 225) && (code d =? 154) && (code e =? 128))
  || ((code c =? 226) && (code d =? 128)
      && (((128 <=? code e) && (code e <=? 138))
          || (code e =? 168) || (code e =? 169) || (code e =? 175)))
  || ((code c =? 226) && (code d =? 129) && (code e =? 159))
  || ((code c =? 227) && (code d =? 128) && (code e =? 128)).

(** Number of bytes of the white-space rune a byte sequence starts
    with; 0 when it does not start with one. *)
Definition space_width (l : list ascii) : nat :=
  match l with
  | [] => 0%nat
  | c :: r =>
      if ascii_space c then 1%nat
      else match r with
      | [] => 0%nat
      | d :: r' =>
          if space2 c d then 2%nat
          else match r' with
          | [] => 0%nat
          | e :: _ => if space3 c d e then 3%nat else 0%nat
          end
      end
  end.

(** The same for the rune a byte sequence ends with, on the reversed
    sequence: [c] is the last byte, [d] the one before it, [e] the one
    before that.  The rune is the last one or two or three bytes, never
    a byte further in. *)
Definition space_width_rev (l : list ascii) : nat :=
  match l with
  | [] => 0%nat
  | c :: r =>
      if ascii_space c then 1%nat
      else match r with
      | [] => 0%nat
      | d :: r' =>
          if space2 d c then 2%nat
          else match r' with
          | [] => 0%nat
          | e :: _ => if space3 e d c then 3%nat else 0%nat
          end
      end
  end.

Fixpoint trim_with (width : list ascii -> nat) (fuel : nat) (l : list ascii)
  : list ascii :=
  match fuel with
  | O => l
  | S fuel' =>
      match width l with
      | O => l
      | w => trim_with width fuel' (drop w l)
      end
  end.

Definition trim_left (l : list ascii) : list ascii :=
  trim_with space_width (length l) l.

Definition trim_right (l : list ascii) : list ascii :=
  rev (trim_with space_width_rev (length l) (rev l)).

Definition TrimSpace (s : string) : string :=
  string_of_list_ascii (trim_right (trim_left (list_ascii_of_string s))).

Definition lower_ascii (c : ascii) : ascii :=
  let n := code c in
  if (65 <=? n) && (n <=? 90) then ascii_of_N (n + 32) else c.

Fixpoint ToLower (s : string) : string :=
  match s with
  | EmptyString => EmptyString
  | String c r => String (lower_ascii c) (ToLower r)
  end.

Definition EqualFold (s t : string) : bool :=
  String.eqb (ToLower s) (ToLower t).

Definition HasPrefix (s p : string) : bool := String.prefix p s.

Definition TrimPrefix (s p : string) : string :=
  if HasPrefix s p
  then String.substring (String.length p) (String.length s - String.length p) s
  else s.

Definition HasSuffix (s p : string) : bool :=
  (String.length p <=? String.length s)%nat &&
  String.eqb (String.substring (String.length s - String.length p)
                (String.length p) s) p.

Definition TrimSuffix (s p : string) : string :=
  if HasSuffix s p
  then String.substring 0 (String.length s - String.length p) s
  else s.

Fixpoint Contains (s sub : string) : bool :=
  if String.prefix sub s then true
  else match s with
       | EmptyString => false
       | String _ r => Contains r sub
       end.

(** [Split s sep] for a one-byte separator: always at least one part. *)
Fixpoint split_byte (sep : ascii) (s : string) : list string :=
  match s with
  | EmptyString => [EmptyString]
  | String c r =>
      if Ascii.eqb c sep then EmptyString :: split_byte sep r
      else match split_byte sep r with
           | [] => [String c EmptyString]
           | p :: ps => String c p :: ps
           end
  end.

(** [SplitN s sep 2] for a one-byte separator: cut at the first one. *)
Fixpoint split2_byte (sep : ascii) (s : string) : list string :=
  match s with
  | EmptyString => [EmptyString]
  | String c r =>
      if Ascii.eqb c sep then [EmptyString; r]
      else match split2_byte sep r with
           | p :: ps => String c p :: ps
           | [] => [String c EmptyString]
           end
  end.

Definition Join (parts : list string) (sep : string) : string :=
  String.concat sep parts.

Fixpoint drop_leading (c : ascii) (l : list ascii) : list ascii :=
  match l with
  | x :: r => if Ascii.eqb x c then drop_leading c r else l
  | [] => []
  end.

(** [TrimRight s cutset] for a one-byte cutset. *)
Definition trim_right_byte (c : ascii) (s : string) : string :=
  string_of_list_ascii (rev (drop_leading c (rev (list_ascii_of_string s)))).

End GoStrings.

(** ** Machine integers, time and results *)

(** Two's-complement wrap-around of Go's [int], [int64] (64 bits). *)
Definition wrap64 (z : Z) : Z := (z + 2 ^ 63) mod 2 ^ 64 - 2 ^ 63.

(** Wrap-around of [uint64]. *)
Definition wrapU64 (n : N) : N := (n mod 2 ^ 64)%N.

Definition minInt (a b : Z) : Z := if a <? b then a else b.

Definition Millisecond : Z := 1000000.
Definition Second : Z := 1000 * Millisecond.
Definition Minute : Z := 60 * Second.

(** [d.Milliseconds()]: integer division truncated towards zero. *)
Definition Milliseconds (d : Z) : Z := Z.quot d Millisecond.

Definition StatusUnauthorized : Z := 401.
Definition StatusForbidden : Z := 403.
Definition StatusTooManyRequests : Z := 429.

(** ** Dynamically typed values

    A Go value of type [any] as the gateway meets it: what
    [encoding/json] decodes into an [any], and the slices of maps the
    converters build themselves.  [Arr] is a [[]any], [ObjArr] a
    [[]map[string]any]: the converters' type switches tell them apart.
    A [map[string]any] is an association list read by [lookup]: the
    first binding of a key is the map's value at it. *)

#[local] Set Warnings "-register-all".

Inductive any : Type :=
| Nil
| Str (s : string)
| Bool (b : bool)
| Num (q : Q)
| Arr (l : list any)
| Obj (m : list (string * any))
| ObjArr (l : list (list (string * any))).

Abbreviation object := (list (string * any)).

Fixpoint lookup (k : string) (m : object) : any :=
  match m with
  | [] => Nil
  | (k', v) :: r => if String.eqb k k' then v else lookup k r
  end.

Fixpoint has_key (k : string) (m : object) : bool :=
  match m with
  | [] => false
  | (k', _) :: r => String.eqb k k' || has_key k r
  end.

(** [v.(string)] with the zero value on failure: [s, _ := v.(string)]. *)
Definition as_string (v : any) : string :=
  match v with Str s => s | _ => EmptyString end.

(** [s, ok := v.(string)]. *)
Definition string_ok (v : any) : option string :=
  match v with Str s => Some s | _ => None end.

(** [m, _ := v.(map[string]any)]: the nil map reads as the empty one. *)
Definition as_object (v : any) : object :=
  match v with Obj m => m | _ => [] end.

(** [m, ok := v.(map[string]any)]. *)
Definition object_ok (v : any) : option object :=
  match v with Obj m => Some m | _ => None end.

(** [v == "lit"] for an interface value and a string constant. *)
Definition is_str (v : any) (lit : string) : bool :=
  match v with Str s => String.eqb s lit | _ => false end.

(** The JSON wire form of a value: what it becomes when it is marshalled
    and decoded again into an [any].  A [[]map[string]any] comes back as
    a [[]any] whose elements are [map[string]any]. *)
Fixpoint wire (v : any) : any :=
  match v with
  | Arr l => Arr (map wire l)
  | Obj m => Obj (map (fun kv => (fst kv, wire (snd kv))) m)
  | ObjArr l =>
      Arr (map (fun m => Obj (map (fun kv => (fst kv, wire (snd kv))) m)) l)
  | _ => v
  end.

Definition wire_obj (m : object) : object :=
  map (fun kv => (fst kv, wire (snd kv))) m.

(** ** package router: state and configuration *)

Module Router.

(** Per-credential health ([credentialState]). *)
Record credentialState : Type := {
  inflight : Z;
  failures : Z;
  successes : Z;
  total : Z;
  ewmaLatency : F64.f64;
  openUntil : Z;
  lastSeen : Z;
  lastErrorAt : Z;
  lastLatency : Z;
  lastStatus : Z
}.

(** The zero value [&credentialState{}]. *)
Definition credentialState0 : credentialState := {|
  inflight := 0; failures := 0; successes := 0; total := 0;
  ewmaLatency := F64.zero; openUntil := 0; lastSeen := 0;
  lastErrorAt := 0; lastLatency := 0; lastStatus := 0 |}.

Record routeCacheEntry : Type := {
  credentialID : N;
  expiresAt : Z
}.

Record providerRow : Type := {
  prov_ID : N;
  prov_Type : string;
  prov_BaseURL : string;
  prov_DefaultHeaders : gmap string string;
  prov_ModelMap : gmap string string;
  prov_Models : gmap string bool
}.

Record credentialRow : Type := {
  cred_ID : N;
  cred_ProviderID : N;
  cred_APIKeyCiphertext : string;
  cred_Weight : Z;
  cred_ConcurrencyLimit : Z;
  cred_Enabled : bool
}.

Record TierItem : Type := {
  item_ProviderID : N;
  item_Weight : Z
}.

Record Tier : Type := {
  tier_Name : string;
  tier_Strategy : string;
  tier_Models : list string;
  tier_Items : list TierItem
}.

Record poolRow : Type := {
  pool_ID : N;
  pool_Name : string;
  pool_ClientKey : string;
  pool_Strategy : string;
  pool_Tiers : list Tier;
  pool_CredentialIDs : list N;
  pool_ExpandedCredentialIDs : list N;
  pool_ModelMap : gmap string string;
  pool_Enabled : bool
}.

Record loadedConfig : Type := {
  loadedAt : Z;
  providers : gmap N providerRow;
  credentials : gmap N credentialRow;
  providerCreds : gmap N (list N);
  pools : gmap N poolRow;
  poolByClientKey : gmap string poolRow
}.

(** Zero values, read from a map at a missing key. *)
Definition providerRow0 : providerRow := {|
  prov_ID := 0; prov_Type := ""; prov_BaseURL := "";
  prov_DefaultHeaders := ∅; prov_ModelMap := ∅; prov_Models := ∅ |}.

Definition credentialRow0 : credentialRow := {|
  cred_ID := 0; cred_ProviderID := 0; cred_APIKeyCiphertext := "";
  cred_Weight := 0; cred_ConcurrencyLimit := 0; cred_Enabled := false |}.

(** The mutable part of a [Router]: pool counters ([poolStates]), the
    health registry ([credState]) and the stickiness cache
    ([routeCache]); [cipher] is the decryption of a credential blob,
    [None] standing for an error. *)
Record Router : Type := {
  cipher : string -> option string;
  poolStates : gmap N N;
  credState : gmap N credentialState;
  routeCache : gmap string routeCacheEntry;
  routeCacheTT : Z
}.

Definition New (cipher : string -> option string) : Router := {|
  cipher := cipher;
  poolStates := ∅;
  credState := ∅;
  routeCache := ∅;
  routeCacheTT := 90 * Second |}.

Record RoutedUpstream : Type := {
  PoolID : N;
  CredentialID : N;
  ProviderID : N;
  ProviderType : string;
  BaseURL : string;
  APIKey : string;
  Model : string;
  Headers : gmap string string;
  Timeout : Z
}.

Definition RoutedUpstream0 : RoutedUpstream := {|
  PoolID := 0; CredentialID := 0; ProviderID := 0; ProviderType := "";
  BaseURL := ""; APIKey := ""; Model := ""; Headers := ∅; Timeout := 0 |}.

Inductive error : Type :=
| ErrNotConfigured
| ErrUnauthorized
| ErrConfig
| ErrDecrypt.

Definition set_credState (r : Router) (m : gmap N credentialState) : Router :=
  {| cipher := cipher r; poolStates := poolStates r; credState := m;
     routeCache := routeCache r; routeCacheTT := routeCacheTT r |}.

Definition set_routeCache (r : Router) (m : gmap string routeCacheEntry) : Router :=
  {| cipher := cipher r; poolStates := poolStates r; credState := credState r;
     routeCache := m; routeCacheTT := routeCacheTT r |}.

Definition set_poolStates (r : Router) (m : gmap N N) : Router :=
  {| cipher := cipher r; poolStates := m; credState := credState r;
     routeCache := routeCache r; routeCacheTT := routeCacheTT r |}.

(** [credState.LoadOrStore(id, &credentialState{})]. *)
Definition loadOrStore (r : Router) (id : N) : credentialState :=
  default credentialState0 (credState r !! id).

Definition routeKey (poolID : N) (facade model : string) : string :=
  pretty poolID +:+ "|" +:+ GoStrings.ToLower (GoStrings.TrimSpace facade)
    +:+ "|" +:+ GoStrings.TrimSpace model.

(** ** RecordRouteResult *)

Definition RecordRouteResult (r : Router) (now : Z) (poolID : N)
    (facade model : string) (credID : N) (ok : bool) (status : Z) : Router :=
  if (poolID =? 0)%N || (credID =? 0)%N then r
  else
    let key := routeKey poolID facade model in
    if ok then
      set_routeCache r
        (<[key := {| credentialID := credID; expiresAt := now + routeCacheTT r |}]>
           (routeCache r))
    else if (status =? StatusUnauthorized) || (status =? StatusForbidden)
            || (status =? StatusTooManyRequests) || (500 <=? status)
            || (status =? 0)
    then
      match routeCache r !! key with
      | Some cur =>
          if (credentialID cur =? credID)%N
          then set_routeCache r (delete key (routeCache r))
          else r
      | None => r
      end
    else r.

(** ** Health registry *)

Definition startRequest (r : Router) (id : N) : Router :=
  let st := loadOrStore r id in
  set_credState r
    (<[id := {| inflight := wrap64 (inflight st + 1);
                failures := failures st; successes := successes st;
                total := total st; ewmaLatency := ewmaLatency st;
                openUntil := openUntil st; lastSeen := lastSeen st;
                lastErrorAt := lastErrorAt st; lastLatency := lastLatency st;
                lastStatus := lastStatus st |}]> (credState r)).

(** The 0.8 and 0.2 of the latency average, as float64 constants. *)
Definition c08 : F64.f64 := F64.round (4 # 5).
Definition c02 : F64.f64 := F64.round (1 # 5).

Definition ewma_update (prev latMs : F64.f64) : F64.f64 :=
  if F64.feqb prev F64.zero then latMs
  else if F64.fltb F64.zero latMs
       then F64.fadd (F64.fmul prev c08) (F64.fmul latMs c02)
       else prev.

(** How long the circuit opens after a failure with the given status,
    [failures] being the count after the increment; [None] leaves
    [openUntil] as it is.  A shift count is never negative in Go:
    [failures] starts at 0 and is only incremented or reset. *)
Definition open_duration (status failures : Z) : option Z :=
  if (status =? StatusUnauthorized) || (status =? StatusForbidden)
  then Some (15 * Minute)
  else if status =? StatusTooManyRequests then
    let d := 5 * Z.shiftl 1 (minInt failures 6) * Second in
    Some (if 2 * Minute <? d then 2 * Minute else d)
  else if (500 <=? status) || (status =? 0) then
    let d := 15 * Z.shiftl 1 (minInt failures 6) * Second in
    Some (if 5 * Minute <? d then 5 * Minute else d)
  else if 3 <=? failures then Some (30 * Second)
  else None.

Definition is_success (ok : bool) (status : Z) : bool :=
  ok && (200 <=? status) && (status <? 500)
  && negb (status =? StatusTooManyRequests)
  && negb (status =? StatusUnauthorized)
  && negb (status =? StatusForbidden).

Definition EndRequest (r : Router) (now : Z) (id : N) (ok : bool)
    (status latency : Z) : Router :=
  if (id =? 0)%N then r
  else
    let st := loadOrStore r id in
    let infl := wrap64 (inflight st - 1) in
    let tot := wrap64 (total st + 1) in
    let ewma := ewma_update (ewmaLatency st) (F64.of_Z (Milliseconds latency)) in
    if is_success ok status then
      set_credState r
        (<[id := {| inflight := infl; failures := 0;
                    successes := wrap64 (successes st + 1);
                    total := tot; ewmaLatency := ewma;
                    openUntil := 0; lastSeen := now;
                    lastErrorAt := lastErrorAt st; lastLatency := latency;
                    lastStatus := status |}]> (credState r))
    else
      let fails := wrap64 (failures st + 1) in
      set_credState r
        (<[id := {| inflight := infl; failures := fails;
                    successes := successes st;
                    total := tot; ewmaLatency := ewma;
                    openUntil :=
                      match open_duration status fails with
                      | Some d => now + d
                      | None => openUntil st
                      end;
                    lastSeen := now;
                    lastErrorAt := now; lastLatency := latency;
                    lastStatus := status |}]> (credState r)).

Definition getInflight (r : Router) (id : N) : Z :=
  match credState r !! id with
  | Some st => inflight st
  | None => 0
  end.

Definition isCredentialOpen (r : Router) (id : N) (now : Z) : bool :=
  match credState r !! id with
  | Some st => negb (openUntil st =? 0) && (now <? openUntil st)
  | None => false
  end.

(** ** Credential score *)

Definition c2500 : F64.f64 := F64.of_Z 2500.

Definition credentialScore (r : Router) (id : N) (baseWeight : Z) : F64.f64 :=
  let baseWeight := if baseWeight <=? 0 then 1 else baseWeight in
  let infl := F64.of_Z (getInflight r id) in
  match credState r !! id with
  | None => F64.fdiv (F64.of_Z baseWeight) (F64.fadd F64.one infl)
  | Some st =>
      let health := F64.fdiv (F64.of_Z (wrap64 (successes st + 1)))
                             (F64.of_Z (wrap64 (total st + 2))) in
      let failPenalty :=
        F64.fdiv F64.one (F64.fadd F64.one (F64.of_Z (failures st))) in
      let latPenalty :=
        if F64.fltb F64.zero (ewmaLatency st)
        then F64.fdiv F64.one
               (F64.fadd F64.one (F64.fdiv (ewmaLatency st) c2500))
        else F64.one in
      let inflightPenalty := F64.fdiv F64.one (F64.fadd F64.one infl) in
      F64.fmul (F64.fmul (F64.fmul (F64.fmul (F64.of_Z baseWeight) health)
                            failPenalty) latPenalty) inflightPenalty
  end.

(** [parseStringMapJSON], on what [json.Unmarshal] makes of the column
    ([None] for an empty or undecodable one): the string-valued members
    of the object, under their keys as they are written. *)
Definition parseStringMapJSON (decoded : option any) : gmap string string :=
  match decoded with
  | Some (Obj m) =>
      list_to_map
        (omap (fun kv => match snd kv with
                         | Str s => Some (fst kv, s)
                         | _ => None
                         end) m)
  | _ => ∅
  end.

(** ** Model alias fallback *)

Definition tierAppliesToModel (t : Tier) (model : string) : bool :=
  match tier_Models t with
  | [] => true
  | _ =>
      let m := GoStrings.TrimSpace model in
      if String.eqb m "" then true
      else existsb (fun x => GoStrings.EqualFold (GoStrings.TrimSpace x) m)
                   (tier_Models t)
  end.

Definition bonus (b : bool) (n : Z) : Z := if b then n else 0.

Definition scoreOf (isSmall : bool) (id : string) : Z :=
  let s := GoStrings.ToLower id in
  let has := GoStrings.Contains s in
  let score :=
    if isSmall then
      bonus (has "haiku") 6
      + bonus (has "mini" || has "small") 5
      + bonus (has "flash" || has "lite") 4
      + bonus (has "nano") 3
      + bonus (has "3b" || has "4b" || has "7b" || has "8b") 2
      - bonus (has "sonnet" || has "opus") 3
    else
      bonus (has "sonnet") 6
      + bonus (has "opus") 5
      + bonus (has "claude") 4
      + bonus (has "gpt-4" || has "kimi" || has "glm" || has "deepseek") 3
      + bonus (has "coder" || has "code") 4
      + bonus (has "reasoner" || has "thinking") 2
      - bonus (has "haiku" || has "mini" || has "flash" || has "lite") 2 in
  score - minInt (Z.of_nat (String.length id) / 12) 6.

(** One step of the selection loop: [best] is [None] until a first
    candidate is found. *)
Definition better (isSmall : bool) (best : option (string * Z)) (id : string)
  : option (string * Z) :=
  let sc := scoreOf isSmall id in
  match best with
  | None => Some (id, sc)
  | Some (bid, bsc) =>
      if (bsc <? sc)
         || ((sc =? bsc)
             && ((String.length id <? String.length bid)%nat
                 || ((String.length id =? String.length bid)%nat
                     && String.ltb id bid)))
      then Some (id, sc) else best
  end.

Definition pickModelForAlias (models : gmap string bool) (alias : string)
  : string :=
  let alias := GoStrings.ToLower (GoStrings.TrimSpace alias) in
  if String.eqb alias "" || bool_decide (models = ∅) then ""
  else
    let isSmall := GoStrings.Contains alias "small"
                   || GoStrings.Contains alias "haiku"
                   || GoStrings.Contains alias "fast" in
    match fold_left (better isSmall) (map fst (map_to_list models)) None with
    | Some (id, _) => id
    | None => ""
    end.

(** The model sent upstream: the requested model, overlaid by the
    provider's [model_map], then by the pool's, then replaced by an
    alias when the provider publishes a model set that lacks it.
    [strict] is the variant inside the tier scan, where a failed alias
    search discards the provider. *)
Definition mapped (m : gmap string string) (model cur : string) : string :=
  match m !! model with
  | Some v => if String.eqb v "" then cur else v
  | None => cur
  end.

Definition resolveModel (prov : providerRow) (pool : poolRow) (model : string)
  : string * bool :=
  let upModel := mapped (pool_ModelMap pool) model
                   (mapped (prov_ModelMap prov) model model) in
  if bool_decide (prov_Models prov = ∅) then (upModel, true)
  else match prov_Models prov !! upModel with
       | Some _ => (upModel, true)
       | None =>
           let fb := pickModelForAlias (prov_Models prov) model in
           if String.eqb fb "" then (upModel, false) else (fb, true)
       end.

(** ** Picking a credential *)

Definition isAvailable (r : Router) (cfg : loadedConfig) (exclude : gmap N bool)
    (now : Z) (credID : N) : bool :=
  if default false (exclude !! credID) then false
  else match credentials cfg !! credID with
       | None => false
       | Some cred =>
           if negb (cred_Enabled cred) then false
           else if isCredentialOpen r credID now then false
           else if (0 <? cred_ConcurrencyLimit cred)
                   && (cred_ConcurrencyLimit cred <=? getInflight r credID)
           then false
           else true
       end.

(** [atomic.AddUint64(&getPoolState(id).counter, 1)]: the new value. *)
Definition bumpCounter (r : Router) (poolID : N) : Router * N :=
  let count := wrapU64 (default 0%N (poolStates r !! poolID) + 1) in
  (set_poolStates r (<[poolID := count]> (poolStates r)), count).

(** The scan over one provider's credentials inside [pickBestKey]. *)
Fixpoint bestOf (r : Router) (cfg : loadedConfig) (avail : N -> bool)
    (creds : list N) (best : option (N * F64.f64)) : option (N * F64.f64) :=
  match creds with
  | [] => best
  | cid :: rest =>
      if negb (avail cid) then bestOf r cfg avail rest best
      else
        let cred := default credentialRow0 (credentials cfg !! cid) in
        let score := credentialScore r cid (cred_Weight cred) in
        match best with
        | None => bestOf r cfg avail rest (Some (cid, score))
        | Some (_, bestScore) =>
            if F64.fltb bestScore score
            then bestOf r cfg avail rest (Some (cid, score))
            else bestOf r cfg avail rest best
        end
  end.

Definition pickBestKey (r : Router) (cfg : loadedConfig) (pool : poolRow)
    (model : string) (avail : N -> bool) (provID : N) : option (N * F64.f64) :=
  match providers cfg !! provID with
  | None => None
  | Some prov =>
      if negb (snd (resolveModel prov pool model)) then None
      else bestOf r cfg avail (default [] (providerCreds cfg !! provID)) None
  end.

Fixpoint firstByPriority (pick : N -> option (N * F64.f64)) (items : list TierItem)
  : option N :=
  match items with
  | [] => None
  | it :: rest =>
      match pick (item_ProviderID it) with
      | Some (cid, _) => Some cid
      | None => firstByPriority pick rest
      end
  end.

Fixpoint weightedCandidates (pick : N -> option (N * F64.f64))
    (items : list TierItem) : list (N * F64.f64) :=
  match items with
  | [] => []
  | it :: rest =>
      let w := F64.of_Z (item_Weight it) in
      let w := if F64.fleb w F64.zero then F64.one else w in
      match pick (item_ProviderID it) with
      | Some (cid, keyScore) =>
          (cid, F64.fmul w keyScore) :: weightedCandidates pick rest
      | None => weightedCandidates pick rest
      end
  end.

Fixpoint drawCandidate (pick current : F64.f64) (cands : list (N * F64.f64))
  : option N :=
  match cands with
  | [] => None
  | (cid, score) :: rest =>
      let current := F64.fadd current score in
      if F64.fleb pick current then Some cid
      else drawCandidate pick current rest
  end.

Fixpoint pickFromTiers (r : Router) (cfg : loadedConfig) (pool : poolRow)
    (model : string) (avail : N -> bool) (tiers : list Tier)
  : Router * option N :=
  match tiers with
  | [] => (r, None)
  | tier :: rest =>
      if negb (tierAppliesToModel tier model) then
        pickFromTiers r cfg pool model avail rest
      else match tier_Items tier with
      | [] => pickFromTiers r cfg pool model avail rest
      | _ =>
          let pick := pickBestKey r cfg pool model avail in
          if String.eqb (tier_Strategy tier) "priority" then
            match firstByPriority pick (tier_Items tier) with
            | Some cid => (r, Some cid)
            | None => pickFromTiers r cfg pool model avail rest
            end
          else
            let cands := weightedCandidates pick (tier_Items tier) in
            let totalWeight :=
              fold_left (fun acc c => F64.fadd acc (snd c)) cands F64.zero in
            match cands with
            | [] => pickFromTiers r cfg pool model avail rest
            | c0 :: _ =>
                if F64.fleb totalWeight F64.zero then (r, Some (fst c0))
                else
                  let '(r', count) := bumpCounter r (pool_ID pool) in
                  let p := F64.fmul
                             (F64.fdiv (F64.of_Z (Z.of_N (count mod 1000)))
                                       (F64.of_Z 1000))
                             totalWeight in
                  match drawCandidate p F64.zero cands with
                  | Some cid => (r', Some cid)
                  | None => (r', Some (fst (List.last cands c0)))
                  end
            end
      end
  end.

(** The rotation of the legacy path: [steps] positions from offset [i],
    position [i] being index [(count + i) % n] of [ids]. *)
Fixpoint scanFrom (avail : N -> bool) (ids : list N) (count n i : N)
    (steps : nat) : option N :=
  match steps with
  | O => None
  | S k =>
      let idx := (wrapU64 (count + i) mod n)%N in
      let cid := default 0%N (ids !! N.to_nat idx) in
      if avail cid then Some cid
      else scanFrom avail ids count n (i + 1)%N k
  end.

Definition pickCredentialFromPool (r : Router) (cfg : loadedConfig)
    (pool : poolRow) (facade model : string) (exclude : gmap N bool) (now : Z)
  : Router * option N :=
  let avail := isAvailable r cfg exclude now in
  let key := routeKey (pool_ID pool) facade model in
  let sticky :=
    match routeCache r !! key with
    | Some ent =>
        if (now <? expiresAt ent) && avail (credentialID ent)
        then Some (credentialID ent) else None
    | None => None
    end in
  match sticky with
  | Some cid => (r, Some cid)
  | None =>
      let r1 :=
        match routeCache r !! key with
        | Some ent =>
            if negb (now <? expiresAt ent)
            then set_routeCache r (delete key (routeCache r))
            else r
        | None => r
        end in
      match pool_Tiers pool with
      | _ :: _ => pickFromTiers r1 cfg pool model avail (pool_Tiers pool)
      | [] =>
          let ids :=
            if String.eqb (pool_Strategy pool) "weighted_rr"
               && negb (Nat.eqb (length (pool_ExpandedCredentialIDs pool)) 0)
            then pool_ExpandedCredentialIDs pool
            else pool_CredentialIDs pool in
          match ids with
          | [] => (r1, None)
          | _ =>
              let '(r2, count) := bumpCounter r1 (pool_ID pool) in
              (r2, scanFrom avail ids count (N.of_nat (length ids)) 0
                     (length ids))
          end
      end
  end.

(** ** pickUpstream *)

Definition pickUpstream (r : Router) (getConfig : option loadedConfig)
    (clientKey facade model : string) (exclude : gmap N bool) (now : Z)
  : Router * (error + RoutedUpstream) :=
  match getConfig with
  | None => (r, inl ErrConfig)
  | Some cfg =>
      if bool_decide (pools cfg = ∅) || bool_decide (credentials cfg = ∅)
         || bool_decide (providers cfg = ∅)
      then (r, inl ErrNotConfigured)
      else match poolByClientKey cfg !! clientKey with
      | None => (r, inl ErrUnauthorized)
      | Some pool =>
          match pickCredentialFromPool r cfg pool facade model exclude now with
          | (r1, None) => (r1, inl ErrNotConfigured)
          | (r1, Some credID) =>
              let cred := default credentialRow0 (credentials cfg !! credID) in
              let prov := default providerRow0
                            (providers cfg !! cred_ProviderID cred) in
              match cipher r1 (cred_APIKeyCiphertext cred) with
              | None => (r1, inl ErrDecrypt)
              | Some apiKey =>
                  let upModel := fst (resolveModel prov pool model) in
                  (startRequest r1 credID,
                   inr {| PoolID := pool_ID pool;
                          CredentialID := credID;
                          ProviderID := cred_ProviderID cred;
                          ProviderType := prov_Type prov;
                          BaseURL := prov_BaseURL prov;
                          APIKey := apiKey;
                          Model := upModel;
                          Headers := prov_DefaultHeaders prov;
                          Timeout := 30 * Second |})
              end
          end
      end
  end.

End Router.

(** ** package convert: request shapes

    [json.RawMessage] fields ([tools], [tool_choice], [input_schema])
    are modelled by the JSON document they hold ([None] for an empty
    RawMessage): marshalling into one keeps the wire form of the value,
    unmarshalling from one reads it back.  Where the converters need JSON text as a
    Go string (tool-call arguments, stringified content) they go through
    [Marshal] and [Unmarshal], the two entry points of [encoding/json],
    which the development leaves abstract. *)

Module Convert.

Inductive cerror : Type :=
| ErrUnsupportedMessageShape
| ErrUnsupportedContentPart
| ErrInvalidToolArguments
| ErrInvalidJSON.

Inductive result (A : Type) : Type :=
| Ok (a : A)
| Err (e : cerror).

Arguments Ok {A} a.
Arguments Err {A} e.

Definition bind {A B : Type} (c : result A) (k : A -> result B) : result B :=
  match c with
  | Ok a => k a
  | Err e => Err e
  end.

Notation "'do' x <- c ; k" := (bind c (fun x => k))
  (at level 10, x pattern, c at level 100, k at level 200).

Abbreviation RawMessage := (option any).

(** [json.Marshal] into a RawMessage. *)
Definition marshal_raw (v : any) : RawMessage := Some (wire v).

Record ToolDefinition : Type := {
  tool_Name : string;
  tool_Description : string;
  tool_InputSchema : RawMessage
}.

Record Message : Type := {
  msg_Role : string;
  msg_Content : any
}.

(** [anthropicproto.MessageCreateRequest]. *)
Record MessageCreateRequest : Type := {
  ar_Model : string;
  ar_MaxTokens : Z;
  ar_Messages : list Message;
  ar_System : any;
  ar_Metadata : RawMessage;
  ar_StopSeqs : list string;
  ar_Temperature : option Q;
  ar_TopP : option Q;
  ar_Stream : bool;
  ar_Tools : list ToolDefinition;
  ar_ToolChoice : RawMessage
}.

(** [openaiproto.ChatCompletionsRequest]. *)
Record ChatCompletionsRequest : Type := {
  or_Model : string;
  or_Messages : any;
  or_MaxTokens : option Z;
  or_Temperature : option Q;
  or_TopP : option Q;
  or_Stream : bool;
  or_Tools : RawMessage;
  or_ToolChoice : RawMessage
}.

(** The unexported [openAIToolDef]. *)
Record openAIToolDef : Type := {
  otd_Type : string;
  otd_Name : string;
  otd_Description : string;
  otd_Parameters : RawMessage
}.

(** *** Reading a RawMessage into a typed destination *)

(** Into a [map[string]any]: an object, or null for the nil map. *)
Definition unmarshal_object (raw : any) : option object :=
  match raw with
  | Obj m => Some m
  | Nil => Some []
  | _ => None
  end.

(** Into a string field: a string, or null for the zero value. *)
Definition field_string (v : any) : option string :=
  match v with
  | Str s => Some s
  | Nil => Some EmptyString
  | _ => None
  end.

Definition field_raw (m : object) (k : string) : RawMessage :=
  if has_key k m then Some (lookup k m) else None.

Definition unmarshal_toolDef (v : any) : option openAIToolDef :=
  match v with
  | Nil => Some {| otd_Type := ""; otd_Name := ""; otd_Description := "";
                   otd_Parameters := None |}
  | Obj m =>
      match field_string (lookup "type" m) with
      | None => None
      | Some ty =>
          match lookup "function" m with
          | Nil => Some {| otd_Type := ty; otd_Name := ""; otd_Description := "";
                           otd_Parameters := None |}
          | Obj f =>
              match field_string (lookup "name" f),
                    field_string (lookup "description" f) with
              | Some n, Some d =>
                  Some {| otd_Type := ty; otd_Name := n; otd_Description := d;
                          otd_Parameters := field_raw f "parameters" |}
              | _, _ => None
              end
          | _ => None
          end
      end
  | _ => None
  end.

Fixpoint unmarshal_each {A : Type} (f : any -> option A) (l : list any)
  : option (list A) :=
  match l with
  | [] => Some []
  | v :: r =>
      match f v, unmarshal_each f r with
      | Some a, Some r' => Some (a :: r')
      | _, _ => None
      end
  end.

(** Into a [[]openAIToolDef]. *)
Definition unmarshal_toolDefs (raw : any) : option (list openAIToolDef) :=
  match raw with
  | Nil => Some []
  | Arr l => unmarshal_each unmarshal_toolDef l
  | _ => None
  end.

Section Codec.

Variable Marshal : any -> string.
Variable Unmarshal : string -> option any.

Definition stringifyJSONish (v : any) : string :=
  match v with
  | Nil => EmptyString
  | Str t => t
  | _ => Marshal v
  end.

(** *** Anthropic to OpenAI *)

Definition text_block (t : string) : object :=
  [("type", Str "text"); ("text", Str t)].

Fixpoint objects_of (l : list any) : option (list object) :=
  match l with
  | [] => Some []
  | Obj m :: r =>
      match objects_of r with
      | Some r' => Some (m :: r')
      | None => None
      end
  | _ :: _ => None
  end.

Definition anthropicContentToBlocks (content : any) : result (list object) :=
  match content with
  | Nil => Ok []
  | Str v =>
      if String.eqb (GoStrings.TrimSpace v) "" then Ok [] else Ok [text_block v]
  | Arr v =>
      match objects_of v with
      | Some out => Ok out
      | None => Err ErrUnsupportedMessageShape
      end
  | ObjArr v => Ok v
  | _ => Err ErrUnsupportedContentPart
  end.

Definition text_of_block (m : object) : string :=
  if is_str (lookup "type" m) "text"
  then match lookup "text" m with Str s => s | _ => EmptyString end
  else EmptyString.

Definition anthropicToolResultContentToText (v : any) : string :=
  match v with
  | Nil => EmptyString
  | Str t => t
  | Arr t =>
      String.concat ""
        (map (fun it => match it with
                        | Obj m => text_of_block m
                        | _ => EmptyString
                        end) t)
  | ObjArr t => String.concat "" (map text_of_block t)
  | _ => EmptyString
  end.

Definition image_url_part (u : string) : object :=
  [("type", Str "image_url"); ("image_url", Obj [("url", Str u)])].

Definition anthropicImageBlockToOpenAIContentPart (blk : object) : result object :=
  match lookup "source" blk with
  | Obj src =>
      let st := GoStrings.TrimSpace (as_string (lookup "type" src)) in
      if String.eqb st "base64" then
        let mediaType := GoStrings.TrimSpace (as_string (lookup "media_type" src)) in
        let data := GoStrings.TrimSpace (as_string (lookup "data" src)) in
        if String.eqb mediaType "" || String.eqb data ""
        then Err ErrUnsupportedContentPart
        else Ok (image_url_part ("data:" +:+ mediaType +:+ ";base64," +:+ data))
      else if String.eqb st "url" then
        let u := GoStrings.TrimSpace (as_string (lookup "url" src)) in
        if String.eqb u "" then Err ErrUnsupportedContentPart
        else if negb (GoStrings.HasPrefix u "data:image/"
                      || GoStrings.HasPrefix u "https://")
        then Err ErrUnsupportedContentPart
        else Ok (image_url_part u)
      else Err ErrUnsupportedContentPart
  | _ => Err ErrUnsupportedContentPart
  end.

(** The variables the block loop of [anthropicMessageToOpenAIMessages]
    fills. *)
Record blockAcc : Type := {
  textParts : list string;
  reasoningParts : list string;
  contentParts : list any;
  hasNonText : bool;
  toolCalls : list object;
  toolMessages : list object
}.

Definition blockAcc0 : blockAcc := {|
  textParts := []; reasoningParts := []; contentParts := [];
  hasNonText := false; toolCalls := []; toolMessages := [] |}.

Definition tool_call (id name args : string) : object :=
  [("id", Str id); ("type", Str "function");
   ("function", Obj [("name", Str name); ("arguments", Str args)])].

Definition tool_message (toolUseID content : string) : object :=
  [("role", Str "tool"); ("tool_call_id", Str toolUseID); ("content", Str content)].

Definition block_step (acc : blockAcc) (blk : object) : result blockAcc :=
  let typ := as_string (lookup "type" blk) in
  if String.eqb typ "text" then
    match lookup "text" blk with
    | Str t =>
        if String.eqb t "" then Ok acc
        else Ok {| textParts := textParts acc ++ [t];
                   reasoningParts := reasoningParts acc;
                   contentParts := contentParts acc ++ [Obj (text_block t)];
                   hasNonText := hasNonText acc;
                   toolCalls := toolCalls acc;
                   toolMessages := toolMessages acc |}
    | _ => Ok acc
    end
  else if String.eqb typ "thinking" then
    match lookup "thinking" blk with
    | Str t =>
        if String.eqb t "" then Ok acc
        else Ok {| textParts := textParts acc;
                   reasoningParts := reasoningParts acc ++ [t];
                   contentParts := contentParts acc;
                   hasNonText := hasNonText acc;
                   toolCalls := toolCalls acc;
                   toolMessages := toolMessages acc |}
    | _ => Ok acc
    end
  else if String.eqb typ "tool_use" then
    let id := as_string (lookup "id" blk) in
    let name := as_string (lookup "name" blk) in
    if String.eqb (GoStrings.TrimSpace id) ""
       || String.eqb (GoStrings.TrimSpace name) ""
    then Err ErrUnsupportedMessageShape
    else Ok {| textParts := textParts acc;
               reasoningParts := reasoningParts acc;
               contentParts := contentParts acc;
               hasNonText := hasNonText acc;
               toolCalls := toolCalls acc
                              ++ [tool_call id name (Marshal (lookup "input" blk))];
               toolMessages := toolMessages acc |}
  else if String.eqb typ "tool_result" then
    let toolUseID := as_string (lookup "tool_use_id" blk) in
    if String.eqb (GoStrings.TrimSpace toolUseID) ""
    then Err ErrUnsupportedMessageShape
    else
      let content := anthropicToolResultContentToText (lookup "content" blk) in
      let content := if String.eqb (GoStrings.TrimSpace content) ""
                     then stringifyJSONish (lookup "content" blk)
                     else content in
      Ok {| textParts := textParts acc;
            reasoningParts := reasoningParts acc;
            contentParts := contentParts acc;
            hasNonText := hasNonText acc;
            toolCalls := toolCalls acc;
            toolMessages := toolMessages acc ++ [tool_message toolUseID content] |}
  else if String.eqb typ "image" then
    do part <- anthropicImageBlockToOpenAIContentPart blk;
    Ok {| textParts := textParts acc;
          reasoningParts := reasoningParts acc;
          contentParts := contentParts acc ++ [Obj part];
          hasNonText := true;
          toolCalls := toolCalls acc;
          toolMessages := toolMessages acc |}
  else Err ErrUnsupportedContentPart.

Fixpoint block_loop (acc : blockAcc) (blocks : list object) : result blockAcc :=
  match blocks with
  | [] => Ok acc
  | blk :: rest => do acc' <- block_step acc blk; block_loop acc' rest
  end.

Definition anthropicMessageToOpenAIMessages (m : Message) : result (list object) :=
  let role := GoStrings.TrimSpace (msg_Role m) in
  if String.eqb role "" then Err ErrUnsupportedMessageShape
  else
    do blocks <- anthropicContentToBlocks (msg_Content m);
    do acc <- block_loop blockAcc0 blocks;
    let content := if hasNonText acc then Arr (contentParts acc)
                   else Str (String.concat "" (textParts acc)) in
    if String.eqb role "user" then
      Ok ([("role", Str "user"); ("content", content)] :: toolMessages acc)
    else if String.eqb role "assistant" then
      let msg := [("role", Str "assistant"); ("content", content)]
                 ++ (match reasoningParts acc with
                     | [] => []
                     | _ => [("reasoning_content",
                              Str (String.concat "" (reasoningParts acc)))]
                     end)
                 ++ (match toolCalls acc with
                     | [] => []
                     | _ => [("tool_calls", ObjArr (toolCalls acc))]
                     end) in
      Ok (msg :: toolMessages acc)
    else Err ErrUnsupportedMessageShape.

Fixpoint messages_loop (ms : list Message) : result (list object) :=
  match ms with
  | [] => Ok []
  | m :: rest =>
      do msgs <- anthropicMessageToOpenAIMessages m;
      do more <- messages_loop rest;
      Ok (msgs ++ more)
  end.

Definition default_parameters : any :=
  Obj [("type", Str "object"); ("properties", Obj [])].

Definition openai_tool (t : ToolDefinition) : object :=
  [("type", Str "function");
   ("function", Obj [("name", Str (tool_Name t));
                     ("description", Str (tool_Description t));
                     ("parameters", default default_parameters (tool_InputSchema t))])].

Fixpoint tools_loop (tools : list ToolDefinition) : result (list object) :=
  match tools with
  | [] => Ok []
  | t :: rest =>
      if String.eqb (GoStrings.TrimSpace (tool_Name t)) ""
      then Err ErrUnsupportedMessageShape
      else do more <- tools_loop rest; Ok (openai_tool t :: more)
  end.

Definition anthropicToolsToOpenAIToolsRaw (tools : list ToolDefinition)
  : result RawMessage :=
  match tools with
  | [] => Ok None
  | _ => do out <- tools_loop tools; Ok (marshal_raw (ObjArr out))
  end.

Definition anthropicToolChoiceToOpenAIToolChoiceRaw (raw : RawMessage)
  : result RawMessage :=
  match raw with
  | None => Ok None
  | Some doc =>
      match unmarshal_object doc with
      | None => Err ErrInvalidJSON
      | Some v =>
          let typ := as_string (lookup "type" v) in
          if String.eqb typ "auto" then Ok (Some (Str "auto"))
          else if String.eqb typ "none" then Ok (Some (Str "none"))
          else if String.eqb typ "any" then Ok (Some (Str "required"))
          else if String.eqb typ "tool" then
            let name := as_string (lookup "name" v) in
            if String.eqb (GoStrings.TrimSpace name) ""
            then Err ErrUnsupportedMessageShape
            else Ok (marshal_raw (Obj [("type", Str "function");
                                       ("function", Obj [("name", Str name)])]))
          else Err ErrUnsupportedMessageShape
      end
  end.

Definition systemText (system : any) : string :=
  match system with
  | Str v => v
  | Nil => EmptyString
  | v => Marshal v
  end.

Definition AnthropicToOpenAIChatRequest (ar : MessageCreateRequest)
  : result ChatCompletionsRequest :=
  let sys := systemText (ar_System ar) in
  let head := if String.eqb (GoStrings.TrimSpace sys) "" then []
              else [[("role", Str "system"); ("content", Str sys)]] in
  do msgs <- messages_loop (ar_Messages ar);
  do toolDefs <- anthropicToolsToOpenAIToolsRaw (ar_Tools ar);
  do toolChoice <- anthropicToolChoiceToOpenAIToolChoiceRaw (ar_ToolChoice ar);
  Ok {| or_Model := ar_Model ar;
        or_Messages := ObjArr (head ++ msgs);
        or_MaxTokens := Some (ar_MaxTokens ar);
        or_Temperature := ar_Temperature ar;
        or_TopP := ar_TopP ar;
        or_Stream := ar_Stream ar;
        or_Tools := toolDefs;
        or_ToolChoice := toolChoice |}.

(** *** OpenAI to Anthropic *)

Definition parseDataImageURL (u : string) : option (string * string) :=
  let u := GoStrings.TrimSpace u in
  if negb (GoStrings.HasPrefix u "data:image/") then None
  else match GoStrings.split2_byte "," u with
       | [meta; data] =>
           if negb (GoStrings.Contains meta ";base64") then None
           else
             let mt := GoStrings.TrimSpace
                         (GoStrings.TrimSuffix (GoStrings.TrimPrefix meta "data:")
                            ";base64") in
             if String.eqb mt "" || String.eqb data "" then None
             else Some (mt, data)
       | _ => None
       end.

Definition content_part_step (it : any) : result (list object) :=
  match it with
  | Obj m =>
      let typ := as_string (lookup "type" m) in
      if String.eqb typ "text" then
        let t := as_string (lookup "text" m) in
        if String.eqb t "" then Ok [] else Ok [text_block t]
      else if String.eqb typ "image_url" then
        let u := as_string (lookup "url" (as_object (lookup "image_url" m))) in
        if String.eqb (GoStrings.TrimSpace u) "" then Err ErrUnsupportedContentPart
        else match parseDataImageURL u with
             | Some (mediaType, data) =>
                 Ok [[("type", Str "image");
                      ("source", Obj [("type", Str "base64");
                                      ("media_type", Str mediaType);
                                      ("data", Str data)])]]
             | None =>
                 if GoStrings.HasPrefix (GoStrings.TrimSpace u) "https://"
                 then Ok [[("type", Str "image");
                           ("source", Obj [("type", Str "url"); ("url", Str u)])]]
                 else Err ErrUnsupportedContentPart
             end
      else Err ErrUnsupportedContentPart
  | _ => Err ErrUnsupportedContentPart
  end.

Fixpoint content_parts_loop (l : list any) : result (list object) :=
  match l with
  | [] => Ok []
  | it :: rest =>
      do blocks <- content_part_step it;
      do more <- content_parts_loop rest;
      Ok (blocks ++ more)
  end.

Definition openAIMessageContentToAnthropicBlocks (content : any)
  : result (list object) :=
  match content with
  | Nil => Ok []
  | Str v =>
      if String.eqb (GoStrings.TrimSpace v) "" then Ok [] else Ok [text_block v]
  | Arr v => content_parts_loop v
  | _ => Err ErrUnsupportedContentPart
  end.

Definition tool_use_block (id name : string) (input : any) : object :=
  [("type", Str "tool_use"); ("id", Str id); ("name", Str name); ("input", input)].

Definition tool_call_step (it : any) : result object :=
  match it with
  | Obj m =>
      let id := as_string (lookup "id" m) in
      let typ := as_string (lookup "type" m) in
      let fn := as_object (lookup "function" m) in
      let name := as_string (lookup "name" fn) in
      let args := as_string (lookup "arguments" fn) in
      if String.eqb (GoStrings.TrimSpace id) ""
         || String.eqb (GoStrings.TrimSpace name) ""
      then Err ErrUnsupportedMessageShape
      else if negb (String.eqb typ "") && negb (String.eqb typ "function")
      then Err ErrUnsupportedMessageShape
      else if String.eqb (GoStrings.TrimSpace args) ""
      then Ok (tool_use_block id name (Obj []))
      else match Unmarshal args with
           | Some input => Ok (tool_use_block id name input)
           | None => Err ErrInvalidToolArguments
           end
  | _ => Err ErrUnsupportedMessageShape
  end.

Fixpoint tool_calls_loop (l : list any) : result (list object) :=
  match l with
  | [] => Ok []
  | it :: rest =>
      do blk <- tool_call_step it;
      do more <- tool_calls_loop rest;
      Ok (blk :: more)
  end.

Definition openAIToolCallsToAnthropicBlocks (v : any) : result (list object) :=
  match v with
  | Nil => Ok []
  | Arr raw => tool_calls_loop raw
  | _ => Err ErrUnsupportedMessageShape
  end.

Fixpoint toolDefs_loop (tools : list openAIToolDef) : result (list ToolDefinition) :=
  match tools with
  | [] => Ok []
  | t :: rest =>
      if negb (String.eqb (otd_Type t) "") && negb (String.eqb (otd_Type t) "function")
      then Err ErrUnsupportedContentPart
      else if String.eqb (GoStrings.TrimSpace (otd_Name t)) ""
      then Err ErrUnsupportedContentPart
      else
        do more <- toolDefs_loop rest;
        Ok ({| tool_Name := otd_Name t;
               tool_Description := otd_Description t;
               tool_InputSchema := otd_Parameters t |} :: more)
  end.

Definition openAIToolsToAnthropicTools (raw : RawMessage)
  : result (list ToolDefinition) :=
  match raw with
  | None => Ok []
  | Some doc =>
      match unmarshal_toolDefs doc with
      | None => Err ErrInvalidJSON
      | Some tools => toolDefs_loop tools
      end
  end.

Definition choice (typ : string) : RawMessage := Some (Obj [("type", Str typ)]).

Definition openAIToolChoiceToAnthropicToolChoice (raw : RawMessage)
  : result RawMessage :=
  match raw with
  | None => Ok None
  | Some (Str vv) =>
      if String.eqb vv "auto" then Ok (choice "auto")
      else if String.eqb vv "none" then Ok (choice "none")
      else if String.eqb vv "required" then Ok (choice "any")
      else Err ErrUnsupportedMessageShape
  | Some (Obj vv) =>
      let t := as_string (lookup "type" vv) in
      if String.eqb t "auto" then Ok (choice "auto")
      else if String.eqb t "none" then Ok (choice "none")
      else if String.eqb t "required" then Ok (choice "any")
      else if String.eqb t "function" then
        let name := as_string (lookup "name" (as_object (lookup "function" vv))) in
        if String.eqb (GoStrings.TrimSpace name) ""
        then Err ErrUnsupportedMessageShape
        else Ok (marshal_raw (Obj [("type", Str "tool"); ("name", Str name)]))
      else Err ErrUnsupportedMessageShape
  | Some _ => Err ErrUnsupportedMessageShape
  end.

Definition tool_result_block (toolCallID content : string) : object :=
  [("type", Str "tool_result"); ("tool_use_id", Str toolCallID);
   ("content", Str content); ("is_error", Bool false)].

(** One turn of the message loop of [OpenAIToAnthropicMessageRequest]:
    what the message adds to [sysParts] and to [out]. *)
Definition openai_message (raw : any) : result (list string * list Message) :=
  match raw with
  | Obj m =>
      let role := GoStrings.TrimSpace (as_string (lookup "role" m)) in
      if String.eqb role "" then Err ErrUnsupportedMessageShape
      else if String.eqb role "system" then
        Ok ([stringifyJSONish (lookup "content" m)], [])
      else if String.eqb role "user" || String.eqb role "assistant" then
        do contentBlocks <- openAIMessageContentToAnthropicBlocks (lookup "content" m);
        do toolUseBlocks <- openAIToolCallsToAnthropicBlocks (lookup "tool_calls" m);
        Ok ([], [{| msg_Role := role;
                    msg_Content := ObjArr (contentBlocks ++ toolUseBlocks) |}])
      else if String.eqb role "tool" then
        let toolCallID := GoStrings.TrimSpace (as_string (lookup "tool_call_id" m)) in
        if String.eqb toolCallID "" then Err ErrUnsupportedMessageShape
        else
          let content := stringifyJSONish (lookup "content" m) in
          Ok ([], [{| msg_Role := "user";
                      msg_Content := ObjArr [tool_result_block toolCallID content] |}])
      else Err ErrUnsupportedMessageShape
  | _ => Err ErrUnsupportedMessageShape
  end.

(** The message loop: the system parts and the converted messages, in
    order. *)
Fixpoint openai_messages_loop (typed : list any)
  : result (list string * list Message) :=
  match typed with
  | [] => Ok ([], [])
  | raw :: rest =>
      do one <- openai_message raw;
      do more <- openai_messages_loop rest;
      Ok (fst one ++ fst more, snd one ++ snd more)
  end.

Definition OpenAIToAnthropicMessageRequest (or : ChatCompletionsRequest)
  : result MessageCreateRequest :=
  match or_Messages or with
  | Arr typed =>
      do parts <- openai_messages_loop typed;
      let sysParts := fst parts in
      let out := snd parts in
      let maxTokens := match or_MaxTokens or with
                       | Some n => if 0 <? n then n else 1024
                       | None => 1024
                       end in
      do tools <- openAIToolsToAnthropicTools (or_Tools or);
      do toolChoice <- openAIToolChoiceToAnthropicToolChoice (or_ToolChoice or);
      let sys := GoStrings.TrimSpace (GoStrings.Join sysParts (String "010" "")) in
      Ok {| ar_Model := or_Model or;
            ar_MaxTokens := maxTokens;
            ar_Messages := out;
            ar_System := if String.eqb sys "" then Nil else Str sys;
            ar_Metadata := None;
            ar_StopSeqs := [];
            ar_Temperature := or_Temperature or;
            ar_TopP := or_TopP or;
            ar_Stream := or_Stream or;
            ar_Tools := tools;
            ar_ToolChoice := toolChoice |}
  | _ => Err ErrUnsupportedMessageShape
  end.

(** *** Responses and stop reasons *)

Definition mapAnthropicStopReasonToOpenAIFinishReason (sr : string) : string :=
  let t := GoStrings.TrimSpace sr in
  if String.eqb t "" then "stop"
  else if String.eqb t "end_turn" then "stop"
  else if String.eqb t "max_tokens" then "length"
  else if String.eqb t "stop_sequence" then "stop"
  else if String.eqb t "tool_use" then "tool_calls"
  else "stop".

Definition mapOpenAIFinishReasonToAnthropicStopReason (fr : string)
    (hasToolCalls : bool) : string :=
  if hasToolCalls then "tool_use"
  else
    let t := GoStrings.TrimSpace fr in
    if String.eqb t "tool_calls" then "tool_use"
    else if String.eqb t "length" then "max_tokens"
    else if String.eqb t "stop" then "end_turn"
    else if String.eqb t "" then "end_turn"
    else "end_turn".

Record AnthropicUsage : Type := {
  au_InputTokens : Z;
  au_OutputTokens : Z
}.

Record AnthropicMessageResponse : Type := {
  amr_ID : string;
  amr_Type : string;
  amr_Role : string;
  amr_Model : string;
  amr_Content : list object;
  amr_StopReason : string;
  amr_StopSequence : option string;
  amr_Usage : AnthropicUsage
}.

Record OpenAIToolCall : Type := {
  otc_ID : string;
  otc_Type : string;
  otc_Name : string;
  otc_Arguments : string
}.

Record OpenAIChatMessage : Type := {
  ocm_Role : string;
  ocm_Content : any;
  ocm_ToolCalls : list OpenAIToolCall
}.

Record OpenAIChatChoice : Type := {
  occ_Index : Z;
  occ_Message : OpenAIChatMessage;
  occ_FinishReason : string
}.

Record OpenAIChatUsage : Type := {
  ocu_PromptTokens : Z;
  ocu_CompletionTokens : Z;
  ocu_TotalTokens : Z
}.

Record OpenAIChatCompletionResponse : Type := {
  ocr_ID : string;
  ocr_Object : string;
  ocr_Created : Z;
  ocr_Model : string;
  ocr_Choices : list OpenAIChatChoice;
  ocr_Usage : option OpenAIChatUsage
}.

Definition response_text (content : list object) : string :=
  String.concat "" (map text_of_block content).

Definition response_tool_call (blk : object) : list OpenAIToolCall :=
  if is_str (lookup "type" blk) "tool_use" then
    let id := as_string (lookup "id" blk) in
    let name := as_string (lookup "name" blk) in
    if negb (String.eqb (GoStrings.TrimSpace id) "")
       && negb (String.eqb (GoStrings.TrimSpace name) "")
    then [{| otc_ID := id; otc_Type := "function"; otc_Name := name;
             otc_Arguments := Marshal (lookup "input" blk) |}]
    else []
  else [].

(** [uuid] and [now] are the values [uuid.NewString()] and
    [time.Now().Unix()] return. *)
Definition AnthropicResponseToOpenAI (uuid : string) (now : Z)
    (ar : AnthropicMessageResponse) : OpenAIChatCompletionResponse :=
  let toolCalls := flat_map response_tool_call (amr_Content ar) in
  let finish := match toolCalls with
                | [] => mapAnthropicStopReasonToOpenAIFinishReason (amr_StopReason ar)
                | _ => "tool_calls"
                end in
  {| ocr_ID := "chatcmpl_" +:+ uuid;
     ocr_Object := "chat.completion";
     ocr_Created := now;
     ocr_Model := amr_Model ar;
     ocr_Choices :=
       [{| occ_Index := 0;
           occ_Message := {| ocm_Role := "assistant";
                             ocm_Content := Str (response_text (amr_Content ar));
                             ocm_ToolCalls := toolCalls |};
           occ_FinishReason := finish |}];
     ocr_Usage :=
       Some {| ocu_PromptTokens := au_InputTokens (amr_Usage ar);
               ocu_CompletionTokens := au_OutputTokens (amr_Usage ar);
               ocu_TotalTokens := wrap64 (au_InputTokens (amr_Usage ar)
                                          + au_OutputTokens (amr_Usage ar)) |} |}.

Definition response_tool_block (tc : OpenAIToolCall) : object :=
  let input :=
    if negb (String.eqb (GoStrings.TrimSpace (otc_Arguments tc)) "")
    then default Nil (Unmarshal (otc_Arguments tc))
    else Obj [] in
  [("type", Str "tool_use"); ("id", Str (otc_ID tc));
   ("name", Str (otc_Name tc)); ("input", input)].

Definition OpenAIResponseToAnthropic (uuid : string)
    (or : OpenAIChatCompletionResponse) (model : string)
  : AnthropicMessageResponse :=
  let '(text, toolBlocks, finish) :=
    match ocr_Choices or with
    | [] => (EmptyString, [], EmptyString)
    | c :: _ =>
        let msg := occ_Message c in
        (match ocm_Content msg with
         | Str s => s
         | Nil => EmptyString
         | v => Marshal v
         end,
         map response_tool_block (ocm_ToolCalls msg),
         occ_FinishReason c)
    end in
  let usage := match ocr_Usage or with
               | Some u => {| au_InputTokens := ocu_PromptTokens u;
                              au_OutputTokens := ocu_CompletionTokens u |}
               | None => {| au_InputTokens := 0; au_OutputTokens := 0 |}
               end in
  {| amr_ID := "msg_" +:+ uuid;
     amr_Type := "message";
     amr_Role := "assistant";
     amr_Model := model;
     amr_Content :=
       (if String.eqb (GoStrings.TrimSpace text) "" then [] else [text_block text])
       ++ toolBlocks;
     amr_StopReason :=
       mapOpenAIFinishReasonToAnthropicStopReason finish
         (negb (Nat.eqb (length toolBlocks) 0));
     amr_StopSequence := None;
     amr_Usage := usage |}.

End Codec.

(** A [ChatCompletionsRequest] sent as JSON and decoded by the peer:
    [messages] comes back in wire form, the RawMessage fields hold the
    same documents. *)
Definition wire_request (or : ChatCompletionsRequest) : ChatCompletionsRequest :=
  {| or_Model := or_Model or;
     or_Messages := wire (or_Messages or);
     or_MaxTokens := or_MaxTokens or;
     or_Temperature := or_Temperature or;
     or_TopP := or_TopP or;
     or_Stream := or_Stream or;
     or_Tools := or_Tools or;
     or_ToolChoice := or_ToolChoice or |}.

End Convert.

(** ** package streamconv: SSE transcoders

    The input is what successive [ReadString('\n')] calls on the
    upstream body return: the complete lines, each with its newline,
    then whatever follows the last newline together with the error that
    ends the stream ([io.EOF] or a read error).  The output is the
    sequence of writes and flushes on the response writer. *)

Module StreamConv.

Inductive ioerr : Type :=
| EOF
| ReadError (msg : string).

Record reader : Type := {
  rd_lines : list string;
  rd_partial : string;
  rd_err : ioerr
}.

Inductive output : Type :=
| AnthropicEvent (name : string) (data : any)
| OpenAIChunk (chunk : any)
| Raw (bytes : string)
| Flush.

Definition LF : string := String "010" "".
Definition CRLF : string := String "013" (String "010" "").

Definition blank_line (line : string) : bool :=
  String.eqb line LF || String.eqb line CRLF.

(** [readSSEBlock] on the remaining lines, [b] being the builder: the
    block, the error, and the lines left. *)
Fixpoint readSSEBlock (b : string) (lines : list string) (final : ioerr)
  : string * option ioerr * list string :=
  match lines with
  | [] =>
      match final with
      | EOF => if String.eqb b "" then ("", Some EOF, []) else (b, Some EOF, [])
      | ReadError _ => ("", Some final, [])
      end
  | line :: rest =>
      if blank_line line then (b, None, rest)
      else readSSEBlock (b +:+ line) rest final
  end.

Definition data_of_line (ln : string) : list string :=
  let ln := GoStrings.trim_right_byte "013" ln in
  if GoStrings.HasPrefix ln "data:"
  then [GoStrings.TrimSpace (GoStrings.TrimPrefix ln "data:")]
  else [].

Definition extractSSEData (block : string) : string :=
  GoStrings.TrimSpace
    (GoStrings.Join (flat_map data_of_line (GoStrings.split_byte "010" block)) LF).

(** [int(f)] for a float64 holding a JSON number. *)
Definition int_of (v : any) : Z :=
  match v with
  | Num q => Z.quot (Qnum q) (Zpos (Qden q))
  | _ => 0
  end.

Definition JInt (z : Z) : any := Num (inject_Z z).

(** What the body of a loop iteration decides. *)
Inductive control (S : Type) : Type :=
| Continue (st : S)
| Break (st : S).

Arguments Continue {S} st.
Arguments Break {S} st.

Section Transcoders.

Variable Unmarshal : string -> option any.

(** [json.Unmarshal(data, &m)] for [m] a [map[string]any]. *)
Definition unmarshal_map (data : string) : option object :=
  match Unmarshal data with
  | Some v => Convert.unmarshal_object v
  | None => None
  end.

(** *** OpenAI stream to Anthropic events *)

Record o2a_state : Type := {
  nextIndex : Z;
  openBlocks : gmap Z bool;
  toolIndexByID : gmap string Z;
  finishReason : string;
  written : list output
}.

Definition o2a_emit (st : o2a_state) (evs : list output) : o2a_state :=
  {| nextIndex := nextIndex st; openBlocks := openBlocks st;
     toolIndexByID := toolIndexByID st; finishReason := finishReason st;
     written := written st ++ evs |}.

(** [openBlocks[idx] = true; if nextIndex <= idx { nextIndex = idx + 1 }]. *)
Definition o2a_open (st : o2a_state) (idx : Z) : o2a_state :=
  {| nextIndex := if nextIndex st <=? idx then idx + 1 else nextIndex st;
     openBlocks := <[idx := true]> (openBlocks st);
     toolIndexByID := toolIndexByID st; finishReason := finishReason st;
     written := written st |}.

Definition block_start (idx : Z) (content_block : object) : output :=
  AnthropicEvent "content_block_start"
    (Obj [("type", Str "content_block_start"); ("index", JInt idx);
          ("content_block", Obj content_block)]).

Definition block_delta (idx : Z) (delta : object) : output :=
  AnthropicEvent "content_block_delta"
    (Obj [("type", Str "content_block_delta"); ("index", JInt idx);
          ("delta", Obj delta)]).

Definition o2a_reasoning (st : o2a_state) (delta : object) : o2a_state :=
  match lookup "reasoning_content" delta with
  | Str reasoning =>
      if String.eqb reasoning "" then st
      else
        let st1 :=
          match openBlocks st !! 0 with
          | Some _ => st
          | None =>
              o2a_open
                (o2a_emit st [block_start 0 [("type", Str "thinking");
                                             ("thinking", Str "")]]) 0
          end in
        o2a_emit st1 [block_delta 0 [("type", Str "thinking_delta");
                                     ("thinking", Str reasoning)]; Flush]
  | _ => st
  end.

Definition o2a_content (st : o2a_state) (delta : object) : o2a_state :=
  match lookup "content" delta with
  | Str text =>
      if String.eqb text "" then st
      else
        let idx := if default false (openBlocks st !! 0) then 1 else 0 in
        let st1 :=
          match openBlocks st !! idx with
          | Some _ => st
          | None =>
              o2a_open
                (o2a_emit st [block_start idx [("type", Str "text");
                                               ("text", Str "")]]) idx
          end in
        o2a_emit st1 [block_delta idx [("type", Str "text_delta");
                                       ("text", Str text)]; Flush]
  | _ => st
  end.

Definition o2a_tool_call (st : o2a_state) (tci : any) : o2a_state :=
  match tci with
  | Obj tc =>
      let id := as_string (lookup "id" tc) in
      if String.eqb (GoStrings.TrimSpace id) "" then st
      else
        let fn := as_object (lookup "function" tc) in
        let '(st1, idx) :=
          match toolIndexByID st !! id with
          | Some idx => (st, idx)
          | None =>
              let idx := nextIndex st in
              let name := as_string (lookup "name" fn) in
              ({| nextIndex := wrap64 (idx + 1);
                  openBlocks := <[idx := true]> (openBlocks st);
                  toolIndexByID := <[id := idx]> (toolIndexByID st);
                  finishReason := finishReason st;
                  written := written st
                    ++ [block_start idx [("type", Str "tool_use"); ("id", Str id);
                                         ("name", Str name); ("input", Obj [])];
                        Flush] |}, idx)
          end in
        let args := as_string (lookup "arguments" fn) in
        if String.eqb args "" then st1
        else o2a_emit st1 [block_delta idx [("type", Str "input_json_delta");
                                            ("partial_json", Str args)]; Flush]
  | _ => st
  end.

Definition o2a_delta (st : o2a_state) (c0 : object) : o2a_state :=
  match lookup "delta" c0 with
  | Obj delta =>
      let st1 := o2a_content (o2a_reasoning st delta) delta in
      match lookup "tool_calls" delta with
      | Arr tcRaw => fold_left o2a_tool_call tcRaw st1
      | _ => st1
      end
  | _ => st
  end.

(** The body of the read loop, from [extractSSEData] on. *)
Definition o2a_block (st : o2a_state) (block : string) : control o2a_state :=
  let data := extractSSEData block in
  if String.eqb data "" then Continue st
  else if String.eqb data "[DONE]" then Break st
  else match unmarshal_map data with
  | None => Continue st
  | Some chunk =>
      match lookup "choices" chunk with
      | Arr (choice0 :: _) =>
          let c0 := as_object choice0 in
          let st1 := o2a_delta st c0 in
          match lookup "finish_reason" c0 with
          | Str fr =>
              if String.eqb fr "" then Continue st1
              else Break {| nextIndex := nextIndex st1;
                            openBlocks := openBlocks st1;
                            toolIndexByID := toolIndexByID st1;
                            finishReason := fr;
                            written := written st1 |}
          | _ => Continue st1
          end
      | _ => Continue st
      end
  end.

Definition o2a_stop_reason (finishReason : string) : string :=
  let t := GoStrings.TrimSpace finishReason in
  if String.eqb t "tool_calls" then "tool_use"
  else if String.eqb t "length" then "max_tokens"
  else "end_turn".

(** The [content_block_stop] events, for [idx] from [from] on, [n] of
    them at most. *)
Fixpoint o2a_stops (opened : gmap Z bool) (from : Z) (n : nat) : list output :=
  match n with
  | O => []
  | S k =>
      (if default false (opened !! from)
       then [AnthropicEvent "content_block_stop"
               (Obj [("type", Str "content_block_stop"); ("index", JInt from)])]
       else [])
      ++ o2a_stops opened (from + 1) k
  end.

(** What follows the read loop. *)
Definition o2a_finish (st : o2a_state) : list output * option ioerr :=
  (written st
   ++ o2a_stops (openBlocks st) 0 (Z.to_nat (nextIndex st))
   ++ [AnthropicEvent "message_delta"
         (Obj [("type", Str "message_delta");
               ("delta", Obj [("stop_reason",
                               Str (o2a_stop_reason (finishReason st)))])]);
       AnthropicEvent "message_stop" (Obj [("type", Str "message_stop")]);
       Flush],
   None).

(** The read loop: [b] is the builder of the [readSSEBlock] call in
    progress. *)
Fixpoint o2a_loop (st : o2a_state) (b : string) (lines : list string)
    (final : ioerr) : list output * option ioerr :=
  match lines with
  | [] =>
      match final with
      | EOF => o2a_finish st
      | ReadError _ => (written st, Some final)
      end
  | line :: rest =>
      if blank_line line then
        match o2a_block st b with
        | Continue st' => o2a_loop st' "" rest final
        | Break st' => o2a_finish st'
        end
      else o2a_loop st (b +:+ line) rest final
  end.

Definition message_start (msgID model : string) : output :=
  AnthropicEvent "message_start"
    (Obj [("type", Str "message_start");
          ("message",
           Obj [("id", Str msgID); ("type", Str "message");
                ("role", Str "assistant"); ("content", Arr []);
                ("model", Str model); ("stop_reason", Nil);
                ("stop_sequence", Nil);
                ("usage", Obj [("input_tokens", JInt 0);
                               ("output_tokens", JInt 0)])])]).

(** [io.Copy(w, r)]: the bytes as they are. *)
Definition copy_through (r : reader) : list output * option ioerr :=
  ([Raw (String.concat "" (rd_lines r) +:+ rd_partial r)],
   match rd_err r with
   | EOF => None
   | e => Some e
   end).

(** [flusher] tells whether the response writer is an [http.Flusher];
    [uuid] is the value of [uuid.NewString()]. *)
Definition OpenAIToAnthropic (flusher : bool) (uuid : string) (r : reader)
    (model : string) : list output * option ioerr :=
  if negb flusher then copy_through r
  else
    o2a_loop {| nextIndex := 0; openBlocks := ∅; toolIndexByID := ∅;
                finishReason := "";
                written := [message_start ("msg_" +:+ uuid) model; Flush] |}
             "" (rd_lines r) (rd_err r).

(** *** Anthropic events to OpenAI stream *)

Record a2o_state : Type := {
  sentRole : bool;
  a2o_finishReason : string;
  toolIDsByIndex : gmap Z string;
  a2o_written : list output
}.

(** The constant part of every chunk: [id], [created] and [model]. *)
Record chunk_env : Type := {
  chunk_id : string;
  chunk_created : Z;
  chunk_model : string
}.

Definition chunk (env : chunk_env) (choice : object) : output :=
  OpenAIChunk
    (Obj [("id", Str (chunk_id env)); ("object", Str "chat.completion.chunk");
          ("created", JInt (chunk_created env)); ("model", Str (chunk_model env));
          ("choices", Arr [Obj (("index", JInt 0) :: choice)])]).

Definition delta_chunk (env : chunk_env) (delta : object) : output :=
  chunk env [("delta", Obj delta)].

Definition a2o_emit (st : a2o_state) (evs : list output) : a2o_state :=
  {| sentRole := sentRole st; a2o_finishReason := a2o_finishReason st;
     toolIDsByIndex := toolIDsByIndex st;
     a2o_written := a2o_written st ++ evs |}.

Definition a2o_content_block_start (env : chunk_env) (st : a2o_state)
    (ev : object) : a2o_state :=
  let idx := int_of (lookup "index" ev) in
  match lookup "content_block" ev with
  | Obj contentBlock =>
      let st1 :=
        if is_str (lookup "type" contentBlock) "thinking"
        then a2o_emit st [delta_chunk env [("reasoning_content", Str "")]; Flush]
        else st in
      if is_str (lookup "type" contentBlock) "tool_use" then
        let idv := as_string (lookup "id" contentBlock) in
        let name := as_string (lookup "name" contentBlock) in
        if String.eqb (GoStrings.TrimSpace idv) ""
           || String.eqb (GoStrings.TrimSpace name) ""
        then st1
        else
          {| sentRole := sentRole st1; a2o_finishReason := a2o_finishReason st1;
             toolIDsByIndex := <[idx := idv]> (toolIDsByIndex st1);
             a2o_written := a2o_written st1
               ++ [delta_chunk env
                     [("tool_calls",
                       Arr [Obj [("index", JInt idx); ("id", Str idv);
                                 ("type", Str "function");
                                 ("function", Obj [("name", Str name);
                                                   ("arguments", Str "")])]])];
                   Flush] |}
      else st1
  | _ => st
  end.

Definition a2o_content_block_delta (env : chunk_env) (st : a2o_state)
    (ev : object) : a2o_state :=
  match lookup "delta" ev with
  | Obj delta =>
      let typ := lookup "type" delta in
      if is_str typ "thinking_delta" then
        match lookup "thinking" delta with
        | Str thinking =>
            if String.eqb thinking "" then st
            else a2o_emit st [delta_chunk env [("reasoning_content", Str thinking)];
                              Flush]
        | _ => st
        end
      else if is_str typ "text_delta" then
        match lookup "text" delta with
        | Str text =>
            if String.eqb text "" then st
            else a2o_emit st [delta_chunk env [("content", Str text)]; Flush]
        | _ => st
        end
      else if is_str typ "input_json_delta" then
        let idx := int_of (lookup "index" ev) in
        let partial := as_string (lookup "partial_json" delta) in
        let toolID := default EmptyString (toolIDsByIndex st !! idx) in
        if String.eqb (GoStrings.TrimSpace toolID) "" || String.eqb partial ""
        then st
        else a2o_emit st
               [delta_chunk env
                  [("tool_calls",
                    Arr [Obj [("index", JInt idx); ("id", Str toolID);
                              ("type", Str "function");
                              ("function", Obj [("arguments", Str partial)])]])];
                Flush]
      else st
  | _ => st
  end.

Definition a2o_message_delta (st : a2o_state) (ev : object) : a2o_state :=
  match lookup "delta" ev with
  | Obj d =>
      match lookup "stop_reason" d with
      | Str sr =>
          if String.eqb sr "" then st
          else
            {| sentRole := sentRole st;
               a2o_finishReason :=
                 if String.eqb sr "end_turn" || String.eqb sr "stop_sequence"
                 then "stop"
                 else if String.eqb sr "max_tokens" then "length"
                 else if String.eqb sr "tool_use" then "tool_calls"
                 else "stop";
               toolIDsByIndex := toolIDsByIndex st;
               a2o_written := a2o_written st |}
      | _ => st
      end
  | _ => st
  end.

(** The body of the read loop, from [extractSSEData] on; it never leaves
    the loop ([message_stop] only leaves the switch). *)
Definition a2o_block (env : chunk_env) (st : a2o_state) (block : string)
  : a2o_state :=
  let data := extractSSEData block in
  if String.eqb data "" then st
  else match unmarshal_map data with
  | None => st
  | Some ev =>
      let st1 :=
        if sentRole st then st
        else {| sentRole := true; a2o_finishReason := a2o_finishReason st;
                toolIDsByIndex := toolIDsByIndex st;
                a2o_written := a2o_written st
                  ++ [delta_chunk env [("role", Str "assistant")]; Flush] |} in
      let typ := lookup "type" ev in
      if is_str typ "content_block_start" then a2o_content_block_start env st1 ev
      else if is_str typ "content_block_delta" then a2o_content_block_delta env st1 ev
      else if is_str typ "message_delta" then a2o_message_delta st1 ev
      else st1
  end.

Definition a2o_finish (env : chunk_env) (st : a2o_state)
  : list output * option ioerr :=
  (a2o_written st
   ++ [chunk env [("delta", Obj []);
                  ("finish_reason", Str (a2o_finishReason st))];
       Raw ("data: [DONE]" +:+ LF +:+ LF);
       Flush],
   None).

Fixpoint a2o_loop (env : chunk_env) (st : a2o_state) (b : string)
    (lines : list string) (final : ioerr) : list output * option ioerr :=
  match lines with
  | [] =>
      match final with
      | EOF => a2o_finish env st
      | ReadError _ => (a2o_written st, Some final)
      end
  | line :: rest =>
      if blank_line line
      then a2o_loop env (a2o_block env st b) "" rest final
      else a2o_loop env st (b +:+ line) rest final
  end.

(** [created] is the value of [time.Now().Unix()]. *)
Definition AnthropicToOpenAI (flusher : bool) (uuid : string) (created : Z)
    (r : reader) (model : string) : list output * option ioerr :=
  if negb flusher then copy_through r
  else
    a2o_loop {| chunk_id := "chatcmpl_" +:+ uuid; chunk_created := created;
                chunk_model := model |}
             {| sentRole := false; a2o_finishReason := "stop";
                toolIDsByIndex := ∅; a2o_written := [] |}
             "" (rd_lines r) (rd_err r).

End Transcoders.

End StreamConv.

(** ** The Anthropic facade: createMessage

    The handler of [POST /v1/messages].  What the outside world answers
    is given per attempt: the configuration snapshot [getConfig]
    returns, the clock, whether [json.Marshal] fails, what the upstream
    call returns, whether copying or transcoding the stream fails and
    whether the upstream body decodes.  The result is the router state
    and the calls the handler made, in order. *)

Module Handler.

Import Router.

Inductive call : Type :=
| StartRequest (cred : N)
| CallEndRequest (cred : N) (ok : bool) (status : Z)
| CallRecordRouteResult (pool : N) (model : string) (cred : N) (ok : bool) (status : Z)
| Publish (status : Z) (err : string)
| ObserveRequest (status : Z)
| WriteError (status : Z)
| WriteHeader (status : Z).

Record attempt_env : Type := {
  getConfig : option loadedConfig;
  now_pick : Z;
  now_end : Z;
  marshal_err : bool;
  upstream : option Z;
  stream_err : bool;
  decode_err : bool
}.

Definition FacadeAnthropic : string := "anthropic".

Definition StatusBadRequest : Z := 400.
Definition StatusInternalServerError : Z := 500.
Definition StatusNotImplemented : Z := 501.
Definition StatusBadGateway : Z := 502.
Definition StatusServiceUnavailable : Z := 503.
Definition StatusOK : Z := 200.

Definition mapStatusToAnthropic (upstreamStatus : Z) : Z :=
  if upstreamStatus =? StatusTooManyRequests then StatusTooManyRequests
  else if (upstreamStatus =? StatusUnauthorized) || (upstreamStatus =? StatusForbidden)
  then StatusUnauthorized
  else if (400 <=? upstreamStatus) && (upstreamStatus <? 500) then StatusBadRequest
  else StatusBadGateway.

(** The variables of the handler that live across attempts. *)
Record hstate : Type := {
  rtr : Router;
  reqModel : string;
  exclude : gmap N bool;
  calls : list call
}.

Definition log (h : hstate) (cs : list call) : hstate :=
  {| rtr := rtr h; reqModel := reqModel h; exclude := exclude h;
     calls := calls h ++ cs |}.

(** [h.rtr.EndRequest(id, ok, status, time.Since(start))]. *)
Definition endRequest (h : hstate) (env : attempt_env) (id : N) (ok : bool)
    (status : Z) : hstate :=
  {| rtr := EndRequest (rtr h) (now_end env) id ok status
              (now_end env - now_pick env);
     reqModel := reqModel h; exclude := exclude h;
     calls := calls h ++ [CallEndRequest id ok status] |}.

Definition recordRouteResult (h : hstate) (env : attempt_env) (up : RoutedUpstream)
    (origModel : string) (ok : bool) (status : Z) : hstate :=
  {| rtr := RecordRouteResult (rtr h) (now_end env) (PoolID up) FacadeAnthropic
              origModel (CredentialID up) ok status;
     reqModel := reqModel h; exclude := exclude h;
     calls := calls h
       ++ [CallRecordRouteResult (PoolID up) origModel (CredentialID up) ok status] |}.

Definition excluding (h : hstate) (id : N) : hstate :=
  {| rtr := rtr h; reqModel := reqModel h;
     exclude := <[id := true]> (exclude h); calls := calls h |}.

Definition set_reqModel (h : hstate) (m : string) : hstate :=
  {| rtr := rtr h; reqModel := m; exclude := exclude h; calls := calls h |}.

(** What one turn of the attempt loop decides. *)
Inductive turn : Type :=
| Return (h : hstate)
| Next (h : hstate).

Definition or_retry (last : bool) (h : hstate) (status : Z) : turn :=
  if last then Return (log h [WriteError status]) else Next h.

Definition anthropic_branch (h : hstate) (env : attempt_env) (up : RoutedUpstream)
    (origModel : string) (stream last : bool) : turn :=
  let id := CredentialID up in
  let rewrite := negb (String.eqb (GoStrings.TrimSpace (Model up)) "")
                 && negb (String.eqb (Model up) (reqModel h)) in
  let h := if rewrite then set_reqModel h (Model up) else h in
  if rewrite && marshal_err env then
    Return (log (endRequest h env id false 0) [WriteError StatusInternalServerError])
  else match upstream env with
  | None =>
      let h := log (endRequest h env id false 0)
                 [Publish 0 "upstream_failed"; ObserveRequest StatusBadGateway] in
      or_retry last (excluding h id) StatusBadGateway
  | Some status =>
      let ok := (status <? 500) && negb (status =? StatusTooManyRequests) in
      let after_check :=
        if negb ok then
          let h := excluding (endRequest h env id false status) id in
          if last then inr h else inl h
        else inr h in
      match after_check with
      | inl h => Next h
      | inr h =>
          let h := log h [WriteHeader status] in
          if stream then
            let okFinal := negb (stream_err env) && ok in
            let h := endRequest h env id okFinal status in
            let h := recordRouteResult h env up origModel okFinal status in
            Return (log h [Publish status (if stream_err env then "stream error" else "");
                           ObserveRequest status])
          else
            let h := endRequest h env id ok status in
            let h := recordRouteResult h env up origModel ok status in
            Return (log h [Publish status ""; ObserveRequest status])
      end
  end.

(** The OpenAI and Gemini branches after the upstream request is
    built. *)
Definition converted_branch (h : hstate) (env : attempt_env) (up : RoutedUpstream)
    (origModel : string) (stream last : bool) : turn :=
  let id := CredentialID up in
  if marshal_err env then
    Return (log (endRequest h env id false 0) [WriteError StatusInternalServerError])
  else match upstream env with
  | None =>
      let h := log (endRequest h env id false 0)
                 [Publish 0 "upstream_failed"; ObserveRequest StatusBadGateway] in
      or_retry last (excluding h id) StatusBadGateway
  | Some status =>
      let ok := (status <? 500) && negb (status =? StatusTooManyRequests) in
      if (status <? 200) || (300 <=? status) then
        let h := log (endRequest h env id false status)
                   [Publish status "upstream_error"; ObserveRequest status] in
        let h := excluding h id in
        if negb ok && negb last then Next h
        else Return (log h [WriteError (mapStatusToAnthropic status)])
      else if stream then
        let h := log h [WriteHeader StatusOK] in
        let okFinal := negb (stream_err env) && ok in
        let h := endRequest h env id okFinal status in
        let h := recordRouteResult h env up origModel okFinal status in
        Return (log h [Publish status (if stream_err env then "stream error" else "");
                       ObserveRequest status])
      else if decode_err env then
        Return (log (endRequest h env id false status) [WriteError StatusBadGateway])
      else
        let h := log h [WriteHeader StatusOK] in
        let h := endRequest h env id true status in
        let h := recordRouteResult h env up origModel true status in
        Return (log h [Publish status ""; ObserveRequest status])
  end.

Section Codec.

Variable Marshal : any -> string.

Definition attempt (h : hstate) (env : attempt_env) (first last : bool)
    (clientKey origModel : string) (req : Convert.MessageCreateRequest)
  : turn :=
  match pickUpstream (rtr h) (getConfig env) clientKey FacadeAnthropic
          (reqModel h) (if first then ∅ else exclude h) (now_pick env) with
  | (r1, inl ErrNotConfigured) =>
      Return {| rtr := r1; reqModel := reqModel h; exclude := exclude h;
                calls := calls h ++ [WriteError StatusServiceUnavailable] |}
  | (r1, inl _) =>
      Return {| rtr := r1; reqModel := reqModel h; exclude := exclude h;
                calls := calls h ++ [WriteError StatusBadGateway] |}
  | (r1, inr up) =>
      let h := {| rtr := r1; reqModel := reqModel h; exclude := exclude h;
                  calls := calls h ++ [StartRequest (CredentialID up)] |} in
      let id := CredentialID up in
      if String.eqb (ProviderType up) "anthropic" then
        anthropic_branch h env up origModel (Convert.ar_Stream req) last
      else if String.eqb (ProviderType up) "openai" then
        match Convert.AnthropicToOpenAIChatRequest Marshal req with
        | Convert.Err _ =>
            Return (log (endRequest h env id false 0) [WriteError StatusBadRequest])
        | Convert.Ok _ =>
            converted_branch h env up origModel (Convert.ar_Stream req) last
        end
      else if String.eqb (ProviderType up) "gemini" then
        if Convert.ar_Stream req then
          Return (log (endRequest h env id false 0) [WriteError StatusNotImplemented])
        else converted_branch h env up origModel false last
      else
        Return (log (endRequest h env id false 0) [WriteError StatusNotImplemented])
  end.

(** The attempt loop: [envs] answers the attempts in order. *)
Fixpoint attempts (h : hstate) (n : nat) (i maxAttempts : Z)
    (envs : Z -> attempt_env) (clientKey origModel : string)
    (req : Convert.MessageCreateRequest) : hstate :=
  match n with
  | O => h
  | S k =>
      match attempt h (envs i) (i =? 0) (negb (i + 1 <? maxAttempts))
              clientKey origModel req with
      | Return h' => h'
      | Next h' => attempts h' k (i + 1) maxAttempts envs clientKey origModel req
      end
  end.

(** [body_err]: reading the body failed; [decoded]: the request
    [json.Unmarshal] yields, [None] for invalid JSON. *)
Definition createMessage (r : Router) (body_err : bool)
    (decoded : option Convert.MessageCreateRequest) (clientKey : string)
    (envs : Z -> attempt_env) : Router * list call :=
  if body_err then (r, [WriteError StatusBadRequest])
  else match decoded with
  | None => (r, [WriteError StatusBadRequest])
  | Some req =>
      if String.eqb (GoStrings.TrimSpace (Convert.ar_Model req)) ""
         || (Convert.ar_MaxTokens req <=? 0)
      then (r, [WriteError StatusBadRequest])
      else
        let maxAttempts := if Convert.ar_Stream req then 1 else 2 in
        let h := attempts {| rtr := r; reqModel := Convert.ar_Model req;
                             exclude := ∅; calls := [] |}
                   (Z.to_nat maxAttempts) 0 maxAttempts envs clientKey
                   (Convert.ar_Model req) req in
        (rtr h, calls h)
  end.

End Codec.

End Handler.

(** ** The state an attempt starts in *)

Module Attempts.
Import Router Handler.

Section Codec.

Variable Marshal : any -> string.

(** The state in which attempt [i + k] starts when the loop is at
    attempt [i] in state [h]; [None] when one of the attempts before
    it ends the request. *)
Fixpoint before (h : hstate) (k : nat) (i maxAttempts : Z)
    (envs : Z -> attempt_env) (clientKey origModel : string)
    (req : Convert.MessageCreateRequest) : option hstate :=
  match k with
  | O => Some h
  | S k' =>
      match attempt Marshal h (envs i) (i =? 0) (negb (i + 1 <? maxAttempts))
              clientKey origModel req with
      | Next h' => before h' k' (i + 1) maxAttempts envs clientKey origModel req
      | Return _ => None
      end
  end.

End Codec.

End Attempts.

(** * Vocabulary of the specification *)

(** The statuses that evict a sticky entry. *)
Definition evicting (status : Z) : Prop :=
  status = 0 \/ status = 401 \/ status = 403 \/ status = 429 \/ 500 <= status.

(** * A sample deployment

    One Anthropic provider with one credential, reachable through one
    pool under the client key ["k"]. *)

Module Sample.
Import Router.

Definition provider1 : providerRow := {|
  prov_ID := 1; prov_Type := "anthropic"; prov_BaseURL := "https://api.anthropic.com";
  prov_DefaultHeaders := ∅; prov_ModelMap := ∅; prov_Models := ∅ |}.

Definition credential1 : credentialRow := {|
  cred_ID := 1; cred_ProviderID := 1; cred_APIKeyCiphertext := "blob";
  cred_Weight := 1; cred_ConcurrencyLimit := 0; cred_Enabled := true |}.

Definition pool1 : poolRow := {|
  pool_ID := 1; pool_Name := "p"; pool_ClientKey := "k";
  pool_Strategy := "weighted_rr"; pool_Tiers := [];
  pool_CredentialIDs := [1%N]; pool_ExpandedCredentialIDs := [];
  pool_ModelMap := ∅; pool_Enabled := true |}.

Definition config1 : loadedConfig := {|
  loadedAt := 1;
  providers := {[ 1%N := provider1 ]};
  credentials := {[ 1%N := credential1 ]};
  providerCreds := {[ 1%N := [1%N] ]};
  pools := {[ 1%N := pool1 ]};
  poolByClientKey := {[ "k" := pool1 ]} |}.

Definition router0 : Router := New (fun _ => Some "sk-key").

Definition request1 (stream : bool) : Convert.MessageCreateRequest := {|
  Convert.ar_Model := "claude";
  Convert.ar_MaxTokens := 10;
  Convert.ar_Messages := [{| Convert.msg_Role := "user"; Convert.msg_Content := Str "hi" |}];
  Convert.ar_System := Nil;
  Convert.ar_Metadata := None;
  Convert.ar_StopSeqs := [];
  Convert.ar_Temperature := None;
  Convert.ar_TopP := None;
  Convert.ar_Stream := stream;
  Convert.ar_Tools := [];
  Convert.ar_ToolChoice := None |}.

(** Every attempt: the upstream answers with the given status. *)
Definition answers (status : Z) (i : Z) : Handler.attempt_env := {|
  Handler.getConfig := Some config1;
  Handler.now_pick := 1000 * Second;
  Handler.now_end := 1001 * Second;
  Handler.marshal_err := false;
  Handler.upstream := Some status;
  Handler.stream_err := false;
  Handler.decode_err := false |}.

(** What a pick of [pool1] returns. *)
Definition upstream1 : RoutedUpstream := {|
  PoolID := 1; CredentialID := 1; ProviderID := 1; ProviderType := "anthropic";
  BaseURL := "https://api.anthropic.com"; APIKey := "sk-key"; Model := "claude";
  Headers := ∅; Timeout := 30 * Second |}.

Definition marshal0 (v : any) : string := "{}".

End Sample.

(** The positions the legacy rotation visits, in order: [n] of them,
    the first at index [start mod n]. *)
Definition rotation (ids : list N) (start : N) : list N :=
  map (fun i => default 0%N
                  (ids !! N.to_nat ((start + N.of_nat i) mod N.of_nat (length ids))%N))
      (seq 0 (length ids)).

(** The weighted round robin as the specification words it: the scan
    starts at index [(counter - 1) mod len(expanded)], [counter] being
    the pool counter after the increment. *)
Definition spec_weighted_rr (avail : N -> bool) (expanded : list N) (counter : N)
  : option N :=
  List.find avail (rotation expanded (counter - 1)).

Module Sample3.
Import Router.

Definition cred (id : N) : credentialRow := {|
  cred_ID := id; cred_ProviderID := 1; cred_APIKeyCiphertext := "blob";
  cred_Weight := 1; cred_ConcurrencyLimit := 0; cred_Enabled := true |}.

(** A pool of three credentials of equal weight, as [loadConfig] hands
    it to the pick: the pool found by client key carries no expanded
    list. *)
Definition pool3 : poolRow := {|
  pool_ID := 1; pool_Name := "p"; pool_ClientKey := "k";
  pool_Strategy := "weighted_rr"; pool_Tiers := [];
  pool_CredentialIDs := [1%N; 2%N; 3%N];
  pool_ExpandedCredentialIDs := [];
  pool_ModelMap := ∅; pool_Enabled := true |}.

Definition config3 : loadedConfig := {|
  loadedAt := 1;
  providers := {[ 1%N := Sample.provider1 ]};
  credentials := {[ 1%N := cred 1; 2%N := cred 2; 3%N := cred 3 ]};
  providerCreds := {[ 1%N := [1%N; 2%N; 3%N] ]};
  pools := {[ 1%N := pool3 ]};
  poolByClientKey := {[ "k" := pool3 ]} |}.

(** A first attempt answered 500, every later one 404. *)
Definition answers3 (i : Z) : Handler.attempt_env := {|
  Handler.getConfig := Some config3;
  Handler.now_pick := 1000 * Second;
  Handler.now_end := 1001 * Second;
  Handler.marshal_err := false;
  Handler.upstream := Some (if i =? 0 then 500 else 404);
  Handler.stream_err := false;
  Handler.decode_err := false |}.

End Sample3.

(** The pick is not subject to a pool-level override or to a published
    model set: the provider's [model_map] alone decides the upstream
    model. *)
Definition provider_map_decides (cfg : Router.loadedConfig) (clientKey : string)
    (prov : Router.providerRow) : Prop :=
  (forall pool, Router.poolByClientKey cfg !! clientKey = Some pool ->
                Router.pool_ModelMap pool = ∅)
  /\ Router.prov_Models prov = ∅.

(** C5 as the specification states it: a key of the provider's
    [model_map] answers the requested model whatever the case it is
    stored in, and its value is the upstream model. *)
Definition model_map_lookup_as_stated : Prop :=
  forall r cfg clientKey facade model exclude now r' up prov k v,
    Router.pickUpstream r (Some cfg) clientKey facade model exclude now = (r', inr up) ->
    Router.providers cfg !! Router.ProviderID up = Some prov ->
    provider_map_decides cfg clientKey prov ->
    Router.prov_ModelMap prov !! k = Some v ->
    v <> EmptyString ->
    GoStrings.ToLower k = GoStrings.ToLower model ->
    Router.Model up = v.

Module Sample5.
Import Router.

(** A provider whose [model_map_json] is
    [{"Sonnet": "claude-sonnet-4-5"}]. *)
Definition provider5 : providerRow := {|
  prov_ID := 1; prov_Type := "anthropic"; prov_BaseURL := "https://api.anthropic.com";
  prov_DefaultHeaders := ∅;
  prov_ModelMap := parseStringMapJSON (Some (Obj [("Sonnet", Str "claude-sonnet-4-5")]));
  prov_Models := ∅ |}.

Definition config5 : loadedConfig := {|
  loadedAt := 1;
  providers := {[ 1%N := provider5 ]};
  credentials := {[ 1%N := Sample.credential1 ]};
  providerCreds := {[ 1%N := [1%N] ]};
  pools := {[ 1%N := Sample.pool1 ]};
  poolByClientKey := {[ "k" := Sample.pool1 ]} |}.

End Sample5.

Module Sample7.
Import Convert.

(** An OpenAI completion whose assistant message carries one tool call
    and whose [finish_reason] is ["stop"]. *)
Definition completion : OpenAIChatCompletionResponse := {|
  ocr_ID := "chatcmpl_1"; ocr_Object := "chat.completion"; ocr_Created := 1;
  ocr_Model := "gpt-4";
  ocr_Choices :=
    [{| occ_Index := 0;
        occ_Message :=
          {| ocm_Role := "assistant"; ocm_Content := Str "";
             ocm_ToolCalls :=
               [{| otc_ID := "call_1"; otc_Type := "function";
                   otc_Name := "get_weather"; otc_Arguments := "" |}] |};
        occ_FinishReason := "stop" |}];
  ocr_Usage := None |}.

(** A completion without tool calls, cut off by the token limit. *)
Definition plain_completion : OpenAIChatCompletionResponse := {|
  ocr_ID := "chatcmpl_2"; ocr_Object := "chat.completion"; ocr_Created := 1;
  ocr_Model := "gpt-4";
  ocr_Choices :=
    [{| occ_Index := 0;
        occ_Message :=
          {| ocm_Role := "assistant"; ocm_Content := Str "Once upon a";
             ocm_ToolCalls := [] |};
        occ_FinishReason := "length" |}];
  ocr_Usage := None |}.

Definition unmarshal0 (s : string) : option any :=
  if String.eqb s "{}" then Some (Obj []) else None.

End Sample7.

Module Sample9.
Import StreamConv.

(** A stream whose first block carries a truncated JSON payload. *)
Definition lines : list string :=
  ["data: {choices:[{delta" +:+ LF; LF; "data: {}" +:+ LF; LF].

Definition rest : list string := ["data: {}" +:+ LF; LF].

Definition o2a_state0 : o2a_state := {|
  nextIndex := 0; openBlocks := ∅; toolIndexByID := ∅; finishReason := "";
  written := [] |}.

Definition a2o_state0 : a2o_state := {|
  sentRole := false; a2o_finishReason := "stop"; toolIDsByIndex := ∅;
  a2o_written := [] |}.

Definition env0 : chunk_env := {|
  chunk_id := "chatcmpl_1"; chunk_created := 1; chunk_model := "gpt-4" |}.

End Sample9.

(** ** What a round trip is asked to preserve *)

Module RoundTrip.
Import Convert.

(** The content blocks of a message, as [anthropicContentToBlocks]
    reads them. *)
Definition msg_blocks (m : Message) : list object :=
  match msg_Content m with
  | Str v => if String.eqb (GoStrings.TrimSpace v) "" then [] else [text_block v]
  | Arr v => default [] (objects_of v)
  | ObjArr v => v
  | _ => []
  end.

Definition block_type (blk : object) : string := as_string (lookup "type" blk).

(** One end of a tool-call / tool-result pair. *)
Inductive link : Type :=
| ToolUse (id name : string)
| ToolResult (tool_use_id : string).

(** The tool calls and the tool-result ids among some blocks. *)
Definition use_links (blocks : list object) : list link :=
  flat_map (fun blk =>
              if String.eqb (block_type blk) "tool_use"
              then [ToolUse (as_string (lookup "id" blk)) (as_string (lookup "name" blk))]
              else []) blocks.

Definition result_ids (blocks : list object) : list string :=
  flat_map (fun blk =>
              if String.eqb (block_type blk) "tool_result"
              then [as_string (lookup "tool_use_id" blk)]
              else []) blocks.

Definition tool_uses_of (m : Message) : list link := use_links (msg_blocks m).

Definition tool_results_of (m : Message) : list string := result_ids (msg_blocks m).

Definition links_of_block (blk : object) : list link :=
  if String.eqb (block_type blk) "tool_use"
  then [ToolUse (as_string (lookup "id" blk)) (as_string (lookup "name" blk))]
  else if String.eqb (block_type blk) "tool_result"
  then [ToolResult (as_string (lookup "tool_use_id" blk))]
  else [].

Definition roles (ar : MessageCreateRequest) : list string :=
  map msg_Role (ar_Messages ar).

Definition tool_names (ar : MessageCreateRequest) : list string :=
  map tool_Name (ar_Tools ar).

Definition links_of_messages (ms : list Message) : list link :=
  flat_map (fun m => flat_map links_of_block (msg_blocks m)) ms.

Definition links (ar : MessageCreateRequest) : list link :=
  links_of_messages (ar_Messages ar).

(** The round trip, [pass] being what happens to the OpenAI request
    between the two converters. *)
Definition round_trip (Marshal : any -> string) (Unmarshal : string -> option any)
    (pass : ChatCompletionsRequest -> ChatCompletionsRequest)
    (ar : MessageCreateRequest) : result MessageCreateRequest :=
  do or <- AnthropicToOpenAIChatRequest Marshal ar;
  OpenAIToAnthropicMessageRequest Marshal Unmarshal (pass or).

(** C6 as the specification states it, for a given behaviour of
    [encoding/json]: every request the first converter accepts comes
    back with its system text, its message roles in order, its tool
    names and its tool links. *)
Definition preserved (Marshal : any -> string) (Unmarshal : string -> option any)
    (pass : ChatCompletionsRequest -> ChatCompletionsRequest) : Prop :=
  forall ar or,
    AnthropicToOpenAIChatRequest Marshal ar = Ok or ->
    exists ar',
      round_trip Marshal Unmarshal pass ar = Ok ar'
      /\ systemText Marshal (ar_System ar') = systemText Marshal (ar_System ar)
      /\ roles ar' = roles ar
      /\ tool_names ar' = tool_names ar
      /\ links ar' = links ar.

(** The claim holds for some behaviour of [encoding/json], the two
    converters being composed directly or over the JSON wire. *)
Definition round_trip_as_stated : Prop :=
  exists Marshal Unmarshal,
    preserved Marshal Unmarshal (fun or => or)
    \/ preserved Marshal Unmarshal wire_request.

(** What the round trip over the wire makes of one message: the
    message itself, then one [user] message for each of its
    [tool_result] blocks. *)
Definition roles_after (m : Message) : list string :=
  GoStrings.TrimSpace (msg_Role m)
  :: repeat "user"%string (length (tool_results_of m)).

(** ... and of its links: the tool calls of an assistant message, then
    the tool results with their ids trimmed. *)
Definition links_after (m : Message) : list link :=
  (if String.eqb (GoStrings.TrimSpace (msg_Role m)) "assistant"
   then tool_uses_of m else [])
  ++ map (fun id => ToolResult (GoStrings.TrimSpace id)) (tool_results_of m).

(** A conversation with one tool call and its result. *)
Definition conversation : MessageCreateRequest := {|
  ar_Model := "claude-3";
  ar_MaxTokens := 100;
  ar_Messages :=
    [{| msg_Role := "user"; msg_Content := Str "weather in SF?" |};
     {| msg_Role := "assistant";
        msg_Content := Arr [Obj [("type", Str "tool_use"); ("id", Str "toolu_1");
                                 ("name", Str "get_weather");
                                 ("input", Obj [("location", Str "SF")])]] |};
     {| msg_Role := "user";
        msg_Content := Arr [Obj [("type", Str "tool_result");
                                 ("tool_use_id", Str "toolu_1");
                                 ("content", Str "sunny")]] |}];
  ar_System := Str "be brief";
  ar_Metadata := None;
  ar_StopSeqs := [];
  ar_Temperature := None;
  ar_TopP := None;
  ar_Stream := false;
  ar_Tools := [{| tool_Name := "get_weather"; tool_Description := "Get weather";
                  tool_InputSchema := Some (Obj [("type", Str "object")]) |}];
  ar_ToolChoice := Some (Obj [("type", Str "auto")]) |}.

End RoundTrip.

Module RoundTripAux.
Import Convert RoundTrip.

Section Codec.

Variable Marshal : any -> string.

(** The tool calls and tool messages the block loop of
    [anthropicMessageToOpenAIMessages] makes of one block. *)
Definition calls_of (blk : object) : list object :=
  if String.eqb (block_type blk) "tool_use"
  then [tool_call (as_string (lookup "id" blk)) (as_string (lookup "name" blk))
          (Marshal (lookup "input" blk))]
  else [].

Definition result_content (blk : object) : string :=
  let content := anthropicToolResultContentToText (lookup "content" blk) in
  if String.eqb (GoStrings.TrimSpace content) ""
  then stringifyJSONish Marshal (lookup "content" blk)
  else content.

Definition tool_messages_of (blk : object) : list object :=
  if String.eqb (block_type blk) "tool_result"
  then [tool_message (as_string (lookup "tool_use_id" blk)) (result_content blk)]
  else [].

End Codec.

End RoundTripAux.

(** ** The credential score, as the specification gives it *)

Module Score.
Import Router.

(** [weight × health × failPenalty × latencyPenalty × inflightPenalty],
    each factor as the specification defines it, in float64. *)
Definition score_formula (weight : Z) (st : credentialState) : F64.f64 :=
  let health := F64.fdiv (F64.of_Z (successes st + 1)) (F64.of_Z (total st + 2)) in
  let failPenalty := F64.fdiv F64.one (F64.fadd F64.one (F64.of_Z (failures st))) in
  let latencyPenalty :=
    F64.fdiv F64.one
      (F64.fadd F64.one (F64.fdiv (ewmaLatency st) (F64.of_Z 2500))) in
  let inflightPenalty := F64.fdiv F64.one (F64.fadd F64.one (F64.of_Z (inflight st))) in
  F64.fmul (F64.fmul (F64.fmul (F64.fmul (F64.of_Z weight) health) failPenalty)
              latencyPenalty) inflightPenalty.

(** The first half of C8 as the specification states it: the score of
    every credential is the product, on the health state the registry
    holds for it (the zero state for a credential not referenced yet). *)
Definition score_as_stated : Prop :=
  forall (r : Router) (id : N) (weight : Z),
    0 < weight ->
    credentialScore r id weight = score_formula weight (loadOrStore r id).

(** [better] is [worse] with fewer consecutive failures, a lower
    latency average or fewer requests in flight, the other fields being
    the same. *)
Definition improves (worse better : credentialState) : Prop :=
  successes better = successes worse
  /\ total better = total worse
  /\ 0 <= failures better <= failures worse
  /\ 0 <= inflight better <= inflight worse
  /\ F64.fleb F64.zero (ewmaLatency better) = true
  /\ F64.fleb (ewmaLatency better) (ewmaLatency worse) = true.

End Score.

Module Sample8.
Import Router.

Definition worse : credentialState := {|
  inflight := 2; failures := 3; successes := 5; total := 9;
  ewmaLatency := F64.of_Z 800; openUntil := 0; lastSeen := 0;
  lastErrorAt := 0; lastLatency := 0; lastStatus := 500 |}.

Definition better : credentialState := {|
  inflight := 1; failures := 0; successes := 5; total := 9;
  ewmaLatency := F64.of_Z 200; openUntil := 0; lastSeen := 0;
  lastErrorAt := 0; lastLatency := 0; lastStatus := 500 |}.

(** A registry that holds the one state, for credential 1. *)
Definition holding (st : credentialState) : Router :=
  set_credState Sample.router0 {[ 1%N := st ]}.

End Sample8.

(** ** package router: loading the configuration *)

Module Loader.
Import Router.

(** What a query yields: the rows the cursor steps through, each as
    [rows.Scan] reads it ([None] when [Scan] fails), and whether
    [rows.Err()] reports an error at the end.  A [query] is [None]
    when [QueryContext] fails. *)
Record cursor (A : Type) : Type := {
  scans : list (option A);
  rows_err : bool
}.
Arguments scans {A} _.
Arguments rows_err {A} _.

Abbreviation query A := (option (cursor A)).

(** The loop [for rows.Next() { ... }] followed by [return rows.Err()]:
    [None] stands for an error. *)
Fixpoint scan_all {A S : Type} (step : S -> A -> S) (st : S)
    (rows : list (option A)) : option S :=
  match rows with
  | [] => Some st
  | None :: _ => None
  | Some a :: rest => scan_all step (step st a) rest
  end.

Definition run_query {A S : Type} (q : query A) (step : S -> A -> S) (st : S)
  : option S :=
  match q with
  | None => None
  | Some c =>
      match scan_all step st (scans c) with
      | None => None
      | Some st' => if rows_err c then None else Some st'
      end
  end.

Record providerScan : Type := {
  ps_id : N;
  ps_typ : string;
  ps_baseURL : string;
  ps_hdrsJSON : string;
  ps_modelMap : string;
  ps_modelsJS : string
}.

Record credentialScan : Type := {
  cs_id : N;
  cs_providerID : N;
  cs_blob : string;
  cs_weight : Z;
  cs_conc : Z;
  cs_enabled : bool
}.

Record poolScan : Type := {
  pl_id : N;
  pl_name : string;
  pl_ckey : string;
  pl_strategy : string;
  pl_tiersJSON : string;
  pl_idsJSON : string;
  pl_mmJSON : string;
  pl_enabled : bool
}.

Definition quote : ascii := "034"%char.

Section Decoders.

(** [encoding/json]: [Unmarshal] decodes a document into an [any],
    [UnmarshalString] into a [string]; [decode_ids] and [decode_tiers]
    are what [ids] and [tiers] hold after the calls of [loadPools] that
    fill them, whose errors the loader ignores. *)
Variable Unmarshal : string -> option any.
Variable UnmarshalString : string -> option string.
Variable decode_ids : string -> list N.
Variable decode_tiers : string -> list Tier.

(** [unmarshalMaybeJSONString] into an [any] that is nil before the
    call. *)
Definition unmarshalMaybeJSONString (raw : string) : option any :=
  if Nat.eqb (String.length raw) 0 then Some Nil
  else if (2 <=? String.length raw)%nat
          && bool_decide (String.get 0 raw = Some quote)
          && bool_decide (String.get (String.length raw - 1) raw = Some quote)
  then match UnmarshalString raw with
       | None => None
       | Some s => Unmarshal s
       end
  else Unmarshal raw.

(** The model id an element of a list of models stands for, if any. *)
Definition listed_id (it : any) : option string :=
  match it with
  | Str x =>
      let s := GoStrings.TrimSpace x in
      if String.eqb s "" then None else Some s
  | Obj x =>
      let id := as_string (lookup "id" x) in
      if String.eqb (GoStrings.TrimSpace id) "" then None
      else Some (GoStrings.TrimSpace id)
  | _ => None
  end.

(** ... and an element of the [data] member of a models document. *)
Definition data_id (it : any) : option string :=
  match it with
  | Obj m =>
      let id := as_string (lookup "id" m) in
      if String.eqb (GoStrings.TrimSpace id) "" then None
      else Some (GoStrings.TrimSpace id)
  | _ => None
  end.

Definition add_ids (pick : any -> option string) (l : list any)
    (out : gmap string bool) : gmap string bool :=
  fold_left (fun out it => match pick it with
                           | Some s => <[s := true]> out
                           | None => out
                           end) l out.

Definition parseStringSetJSON (raw : string) : gmap string bool :=
  if Nat.eqb (String.length raw) 0 then ∅
  else match unmarshalMaybeJSONString raw with
       | None => ∅
       | Some (Arr v) => add_ids listed_id v ∅
       | Some (Obj v) =>
           match lookup "data" v with
           | Arr data => add_ids data_id data ∅
           | _ => ∅
           end
       | Some _ => ∅
       end.

Definition string_map (raw : string) : gmap string string :=
  parseStringMapJSON (if Nat.eqb (String.length raw) 0 then None else Unmarshal raw).

Definition provider_step (out : gmap N providerRow) (s : providerScan)
  : gmap N providerRow :=
  <[ps_id s := {| prov_ID := ps_id s;
                  prov_Type := ps_typ s;
                  prov_BaseURL := ps_baseURL s;
                  prov_DefaultHeaders := string_map (ps_hdrsJSON s);
                  prov_ModelMap := string_map (ps_modelMap s);
                  prov_Models := parseStringSetJSON (ps_modelsJS s) |}]> out.

Definition credential_step (st : gmap N credentialRow * gmap N (list N))
    (s : credentialScan) : gmap N credentialRow * gmap N (list N) :=
  let '(out, provOut) := st in
  let weight := if cs_weight s <=? 0 then 1 else cs_weight s in
  (<[cs_id s := {| cred_ID := cs_id s;
                   cred_ProviderID := cs_providerID s;
                   cred_APIKeyCiphertext := cs_blob s;
                   cred_Weight := weight;
                   cred_ConcurrencyLimit := cs_conc s;
                   cred_Enabled := cs_enabled s |}]> out,
   <[cs_providerID s := default [] (provOut !! cs_providerID s) ++ [cs_id s]]> provOut).

Definition pool_step (st : gmap N poolRow * gmap string poolRow) (s : poolScan)
  : gmap N poolRow * gmap string poolRow :=
  let '(out, byKey) := st in
  let p := {| pool_ID := pl_id s;
              pool_Name := pl_name s;
              pool_ClientKey := pl_ckey s;
              pool_Strategy := pl_strategy s;
              pool_Tiers := decode_tiers (pl_tiersJSON s);
              pool_CredentialIDs := decode_ids (pl_idsJSON s);
              pool_ExpandedCredentialIDs := [];
              pool_ModelMap := string_map (pl_mmJSON s);
              pool_Enabled := pl_enabled s |} in
  (<[pl_id s := p]> out,
   if String.eqb (pool_ClientKey p) "" then byKey
   else <[pool_ClientKey p := p]> byKey).

(** The weight a credential is repeated by: at least 1, at most 50. *)
Definition repeats (cred : credentialRow) : Z :=
  let w := cred_Weight cred in
  let w := if w <=? 0 then 1 else w in
  if 50 <? w then 50 else w.

Fixpoint expand (creds : gmap N credentialRow) (ids : list N) : list N :=
  match ids with
  | [] => []
  | credID :: rest =>
      match creds !! credID with
      | Some cred =>
          if negb (cred_Enabled cred) then expand creds rest
          else repeat credID (Z.to_nat (repeats cred)) ++ expand creds rest
      | None => expand creds rest
      end
  end.

Definition set_expanded (p : poolRow) (expanded : list N) : poolRow :=
  {| pool_ID := pool_ID p; pool_Name := pool_Name p;
     pool_ClientKey := pool_ClientKey p; pool_Strategy := pool_Strategy p;
     pool_Tiers := pool_Tiers p; pool_CredentialIDs := pool_CredentialIDs p;
     pool_ExpandedCredentialIDs := expanded;
     pool_ModelMap := pool_ModelMap p; pool_Enabled := pool_Enabled p |}.

(** The body of the loop of [expandPoolWeights], on one pool. *)
Definition expandPool (creds : gmap N credentialRow) (p : poolRow) : poolRow :=
  if negb (pool_Enabled p) then p
  else if negb (String.eqb (pool_Strategy p) "weighted_rr") then set_expanded p []
  else set_expanded p (expand creds (pool_CredentialIDs p)).

(** [expandPoolWeights]: the map of pools after the call. *)
Definition expandPoolWeights (pools : gmap N poolRow)
    (creds : gmap N credentialRow) : gmap N poolRow :=
  expandPool creds <$> pools.

(** [loadConfig]; [now] is the value of [time.Now()], the three queries
    are those of [loadProviders], [loadCredentials] and [loadPools]. *)
Definition loadConfig (now : Z) (qprov : query providerScan)
    (qcred : query credentialScan) (qpool : query poolScan)
  : option loadedConfig :=
  match run_query qprov provider_step ∅ with
  | None => None
  | Some provs =>
      match run_query qcred credential_step (∅, ∅) with
      | None => None
      | Some (creds, provCreds) =>
          match run_query qpool pool_step (∅, ∅) with
          | None => None
          | Some (pools, byKey) =>
              Some {| loadedAt := now;
                      providers := provs;
                      credentials := creds;
                      providerCreds := provCreds;
                      pools := expandPoolWeights pools creds;
                      poolByClientKey := byKey |}
          end
      end
  end.

End Decoders.

(** A database with one provider, two credentials of weights 3 and 1,
    and one [weighted_rr] pool over both. *)
Definition ids0 (raw : string) : list N := [1%N; 2%N].
Definition tiers0 (raw : string) : list Tier := [].
Definition no_json (raw : string) : option any := None.
Definition no_string (raw : string) : option string := None.

Definition providers0 : query providerScan :=
  Some {| scans := [Some {| ps_id := 1; ps_typ := "anthropic";
                            ps_baseURL := "https://api.anthropic.com";
                            ps_hdrsJSON := ""; ps_modelMap := "";
                            ps_modelsJS := "" |}];
          rows_err := false |}.

Definition credentials0 : query credentialScan :=
  Some {| scans := [Some {| cs_id := 1; cs_providerID := 1; cs_blob := "blob";
                            cs_weight := 3; cs_conc := 0; cs_enabled := true |};
                    Some {| cs_id := 2; cs_providerID := 1; cs_blob := "blob";
                            cs_weight := 1; cs_conc := 0; cs_enabled := true |}];
          rows_err := false |}.

Definition pools0 : query poolScan :=
  Some {| scans := [Some {| pl_id := 1; pl_name := "p"; pl_ckey := "k";
                            pl_strategy := "weighted_rr"; pl_tiersJSON := "";
                            pl_idsJSON := "[1,2]"; pl_mmJSON := "";
                            pl_enabled := true |}];
          rows_err := false |}.

Definition creds0 : gmap N credentialRow :=
  {[ 1%N := {| cred_ID := 1; cred_ProviderID := 1; cred_APIKeyCiphertext := "blob";
               cred_Weight := 3; cred_ConcurrencyLimit := 0; cred_Enabled := true |};
     2%N := {| cred_ID := 2; cred_ProviderID := 1; cred_APIKeyCiphertext := "blob";
               cred_Weight := 1; cred_ConcurrencyLimit := 0; cred_Enabled := true |} ]}.

Definition pool0 : poolRow := {|
  pool_ID := 1; pool_Name := "p"; pool_ClientKey := "k";
  pool_Strategy := "weighted_rr"; pool_Tiers := [];
  pool_CredentialIDs := [1%N; 2%N]; pool_ExpandedCredentialIDs := [];
  pool_ModelMap := ∅; pool_Enabled := true |}.

Definition loaded0 : option loadedConfig :=
  loadConfig no_json no_string ids0 tiers0 1000
    providers0 credentials0 pools0.

(** The same database with a provider that publishes two models. *)
Definition models_json (raw : string) : option any :=
  if String.eqb raw "models"
  then Some (Arr [Str "claude-3-haiku"; Obj [("id", Str "gpt-4o-mini")]])
  else None.

Definition providers1 : query providerScan :=
  Some {| scans := [Some {| ps_id := 1; ps_typ := "openai";
                            ps_baseURL := "https://api.openai.com";
                            ps_hdrsJSON := ""; ps_modelMap := "";
                            ps_modelsJS := "models" |}];
          rows_err := false |}.

Definition loaded1 : option loadedConfig :=
  loadConfig models_json no_string ids0 tiers0 1000
    providers1 credentials0 pools0.

End Loader.

(** ** Successive picks *)

Module Picks.
Import Router.

(** The credentials [n] successive [pickUpstream] calls return for one
    client key, facade and model, the registry being threaded from one
    call to the next; [None] for a call that fails. *)
Fixpoint picked (r : Router) (cfg : option loadedConfig)
    (clientKey facade model : string) (now : Z) (n : nat) : list (option N) :=
  match n with
  | O => []
  | S k =>
      let '(r', res) := pickUpstream r cfg clientKey facade model ∅ now in
      match res with
      | inr up => Some (CredentialID up)
      | inl _ => None
      end :: picked r' cfg clientKey facade model now k
  end.

(** What the specification's scan returns for the same calls on a fresh
    pool counter: the counter is 1, 2, ... after its increments. *)
Definition claimed (avail : N -> bool) (expanded : list N) (n : nat)
  : list (option N) :=
  map (fun j => spec_weighted_rr avail expanded (N.of_nat j)) (seq 1 n).

End Picks.

(** ** The preference among published models *)

Module Alias.
Import Router.

(** [a] is preferred to [b] by the selection loop of
    [pickModelForAlias]: a higher score, then a shorter name, then the
    name that comes first. *)
Definition beats (isSmall : bool) (a b : string) : Prop :=
  scoreOf isSmall b < scoreOf isSmall a
  \/ (scoreOf isSmall a = scoreOf isSmall b
      /\ ((String.length a < String.length b)%nat
          \/ (String.length a = String.length b /\ String.ltb a b = true))).

(** A provider that publishes three models. *)
Definition published : gmap string bool :=
  {[ "claude-3-haiku"%string := true; "claude-3-5-sonnet"%string := true;
     "gpt-4o-mini"%string := true ]}.

Definition provider6 : providerRow := {|
  prov_ID := 1; prov_Type := "openai"; prov_BaseURL := "https://api.openai.com";
  prov_DefaultHeaders := ∅; prov_ModelMap := ∅; prov_Models := published |}.

End Alias.

(** ** Reading the calls of the handler *)

Module Trace.
Import Handler.

(** The credentials of the [StartRequest] calls, in order. *)
Definition started (cs : list call) : list N :=
  flat_map (fun c => match c with StartRequest id => [id] | _ => [] end) cs.

(** The credentials of the [EndRequest] calls, in order. *)
Definition ended (cs : list call) : list N :=
  flat_map (fun c => match c with CallEndRequest id _ _ => [id] | _ => [] end) cs.

(** The statuses of the responses written ([writeError] or
    [WriteHeader]), in order. *)
Definition responses (cs : list call) : list Z :=
  flat_map (fun c => match c with
                     | WriteError s | WriteHeader s => [s]
                     | _ => []
                     end) cs.

(** The [RecordRouteResult] calls, in order. *)
Definition recorded (cs : list call) : list (N * bool * Z) :=
  flat_map (fun c => match c with
                     | CallRecordRouteResult _ _ id ok s => [(id, ok, s)]
                     | _ => []
                     end) cs.

End Trace.

Module SampleOpenAI.
Import Router.

Definition provider2 : providerRow := {|
  prov_ID := 2; prov_Type := "openai"; prov_BaseURL := "https://api.openai.com";
  prov_DefaultHeaders := ∅; prov_ModelMap := ∅; prov_Models := ∅ |}.

Definition credential2 (id : N) : credentialRow := {|
  cred_ID := id; cred_ProviderID := 2; cred_APIKeyCiphertext := "blob";
  cred_Weight := 1; cred_ConcurrencyLimit := 0; cred_Enabled := true |}.

Definition pool2 : poolRow := {|
  pool_ID := 2; pool_Name := "p2"; pool_ClientKey := "k2";
  pool_Strategy := "round_robin"; pool_Tiers := [];
  pool_CredentialIDs := [7%N; 8%N]; pool_ExpandedCredentialIDs := [];
  pool_ModelMap := ∅; pool_Enabled := true |}.

Definition config2 : loadedConfig := {|
  loadedAt := 1;
  providers := {[ 2%N := provider2 ]};
  credentials := {[ 7%N := credential2 7; 8%N := credential2 8 ]};
  providerCreds := {[ 2%N := [7%N; 8%N] ]};
  pools := {[ 2%N := pool2 ]};
  poolByClientKey := {[ "k2" := pool2 ]} |}.

(** Every attempt meets [config2] and an upstream answering [status]. *)
Definition answers2 (status : Z) (i : Z) : Handler.attempt_env := {|
  Handler.getConfig := Some config2;
  Handler.now_pick := 1000 * Second;
  Handler.now_end := 1001 * Second;
  Handler.marshal_err := false;
  Handler.upstream := Some status;
  Handler.stream_err := false;
  Handler.decode_err := false |}.

End SampleOpenAI.

(** ** The block discipline of an Anthropic event stream *)

Module Protocol.
Import StreamConv.

Inductive kind : Type :=
| BlockStart (i : Z)
| BlockDelta (i : Z)
| BlockStop (i : Z)
| Other.

Definition event_index (data : any) : Z := int_of (lookup "index" (as_object data)).

Definition kind_of (o : output) : kind :=
  match o with
  | AnthropicEvent name data =>
      if String.eqb name "content_block_start" then BlockStart (event_index data)
      else if String.eqb name "content_block_delta" then BlockDelta (event_index data)
      else if String.eqb name "content_block_stop" then BlockStop (event_index data)
      else Other
  | _ => Other
  end.

Definition mem (i : Z) (l : list Z) : bool := existsb (Z.eqb i) l.

(** A reader of the stream that tracks the block indices it has seen
    and those that are open: a block starts at an index not seen
    before, a delta and a stop name an open block, a stop closes it.
    [None]: the stream broke the discipline. *)
Definition step (s : option (list Z * list Z)) (o : output)
  : option (list Z * list Z) :=
  match s with
  | None => None
  | Some (seen, opened) =>
      match kind_of o with
      | BlockStart i => if mem i seen then None else Some (i :: seen, i :: opened)
      | BlockDelta i => if mem i opened then s else None
      | BlockStop i =>
          if mem i opened
          then Some (seen, List.filter (fun j => negb (j =? i)) opened)
          else None
      | Other => s
      end
  end.

(** The stream keeps the discipline and leaves no block open. *)
Definition well_bracketed (out : list output) : bool :=
  match fold_left step out (Some ([], [])) with
  | Some (_, []) => true
  | _ => false
  end.

(** What the OpenAI-to-Anthropic loop keeps, [l] being the blocks
    started so far, latest first: none is started twice, none is
    stopped yet, they are the keys of [openBlocks], all below
    [nextIndex], and the tool indices are among them. *)
Definition o2a_inv (st : o2a_state) (l : list Z) : Prop :=
  fold_left step (written st) (Some ([], [])) = Some (l, l)
  /\ NoDup l
  /\ (forall i, In i l <-> openBlocks st !! i = Some true)
  /\ (forall i b, openBlocks st !! i = Some b -> b = true /\ 0 <= i < nextIndex st)
  /\ (forall id i, toolIndexByID st !! id = Some i -> openBlocks st !! i = Some true)
  /\ 0 <= nextIndex st <= Z.of_nat (length l)
  /\ (length l <= length (written st))%nat.

Definition finish_ok (fr : string) : Prop :=
  fr = "stop" \/ fr = "length" \/ fr = "tool_calls".

(** What the Anthropic-to-OpenAI loop keeps: a finish reason among the
    three OpenAI knows, nothing written before the role chunk, and the
    role chunk at the head of the output once it is sent. *)
Definition a2o_inv (env : chunk_env) (st : a2o_state) : Prop :=
  finish_ok (a2o_finishReason st)
  /\ (sentRole st = false -> a2o_written st = [])
  /\ (sentRole st = true ->
      exists rest,
        a2o_written st
        = delta_chunk env [("role", Str "assistant")] :: Flush :: rest).

End Protocol.

Module SampleStream.
Import StreamConv.

(** A decoder for the payloads of the two sample streams: a reasoning
    delta, a text delta with a tool call and a closing chunk of an
    OpenAI stream, and a text delta of an Anthropic stream. *)
Definition unmarshal1 (s : string) : option any :=
  if String.eqb s "c1" then
    Some (Obj [("choices",
                Arr [Obj [("delta", Obj [("reasoning_content", Str "hm")])]])])
  else if String.eqb s "c2" then
    Some (Obj [("choices",
                Arr [Obj [("delta",
                           Obj [("content", Str "Hello");
                                ("tool_calls",
                                 Arr [Obj [("id", Str "call_1");
                                           ("function",
                                            Obj [("name", Str "f");
                                                 ("arguments", Str "{}")])]])])]])])
  else if String.eqb s "c3" then
    Some (Obj [("choices", Arr [Obj [("delta", Obj []);
                                     ("finish_reason", Str "tool_calls")]])])
  else if String.eqb s "e1" then
    Some (Obj [("type", Str "content_block_delta");
               ("delta", Obj [("type", Str "text_delta"); ("text", Str "Hi")])])
  else None.

Definition openai_stream : reader := {|
  rd_lines := ["data: c1" +:+ LF; LF; "data: c2" +:+ LF; LF; "data: c3" +:+ LF; LF];
  rd_partial := "";
  rd_err := EOF |}.

Definition anthropic_stream : reader := {|
  rd_lines := ["event: content_block_delta" +:+ LF; "data: e1" +:+ LF; LF];
  rd_partial := "";
  rd_err := EOF |}.

End SampleStream.

(** ** The Anthropic facade: copying an event stream through

    [copyAnthropicSSEWithUsage] forwards the upstream's event stream
    block by block and reads the token usage off the events on the
    way.  The response writer is given by what its successive [Write]
    calls return. *)

Module Passthrough.
Import StreamConv.

Inductive copy_error : Type :=
| WriteFailed (call : nat)
| ReadFailed (e : ioerr).

(** The variables of the loop, the number of [Write] calls made so far
    and what was handed to the writer: [Raw b] for [w.Write(b)]. *)
Record copy_state : Type := {
  calls : nat;
  sent : list output;
  respBytes : Z;
  inTok : Z;
  outTok : Z
}.

Definition copy_state0 : copy_state :=
  {| calls := 0; sent := []; respBytes := 0; inTok := 0; outTok := 0 |}.

(** The bytes handed to the writer, in order. *)
Definition bytes_sent (out : list output) : string :=
  String.concat "" (flat_map (fun o => match o with Raw b => [b] | _ => [] end) out).

Section Copy.

(** [Unmarshal] is [json.Unmarshal] into an [any]; [ParseInt] is what
    [json.Number(n).Int64()] returns for a string, its error dropped;
    [write k b] is what the [k]-th [Write] call returns when it is
    given [b]: the count and whether the error is not nil; [io_copy]
    is [io.Copy] to the writer. *)
Variable Unmarshal : string -> option any.
Variable ParseInt : string -> Z.
Variable write : nat -> string -> Z * bool.
Variable io_copy : reader -> Z * option copy_error.

(** [parseInt64] on a decoded JSON value: a number or a string; every
    other value gives 0. *)
Definition parseInt64 (v : any) : Z :=
  match v with
  | Num _ => int_of v
  | Str t =>
      let n := GoStrings.TrimSpace t in
      if String.eqb n "" then 0 else ParseInt n
  | _ => 0
  end.

Definition set_tokens (st : copy_state) (u : object) : copy_state :=
  {| calls := calls st; sent := sent st; respBytes := respBytes st;
     inTok := parseInt64 (lookup "input_tokens" u);
     outTok := parseInt64 (lookup "output_tokens" u) |}.

(** The usage an event carries, at its top level or under [message]. *)
Definition read_usage (st : copy_state) (block : string) : copy_state :=
  let data := extractSSEData block in
  if String.eqb (GoStrings.TrimSpace data) "" then st
  else match unmarshal_map Unmarshal data with
       | None => st
       | Some ev =>
           match lookup "usage" ev with
           | Obj u => set_tokens st u
           | _ =>
               match lookup "message" ev with
               | Obj msg =>
                   match lookup "usage" msg with
                   | Obj u2 => set_tokens st u2
                   | _ => st
                   end
               | _ => st
               end
           end
       end.

(** One [w.Write(b)] with [respBytes += n]. *)
Definition do_write (st : copy_state) (b : string) : copy_state * bool :=
  let '(n, werr) := write (calls st) b in
  ({| calls := S (calls st); sent := sent st ++ [Raw b];
      respBytes := wrap64 (respBytes st + n);
      inTok := inTok st; outTok := outTok st |}, werr).

(** The body of the loop for a block that is not empty: [inr] when a
    write fails. *)
Definition forward (st : copy_state) (block : string)
  : copy_state + copy_state * copy_error :=
  let '(st1, werr) := do_write st block in
  if werr then inr (st1, WriteFailed (calls st))
  else
    let '(st2, werr2) := do_write st1 LF in
    if werr2 then inr (st2, WriteFailed (calls st1))
    else
      inl (read_usage {| calls := calls st2; sent := sent st2 ++ [Flush];
                         respBytes := respBytes st2;
                         inTok := inTok st2; outTok := outTok st2 |} block).

(** The loop, with [readSSEBlock] unfolded: [b] is its builder. *)
Fixpoint copy_loop (st : copy_state) (b : string) (lines : list string)
    (final : ioerr) : copy_state * option copy_error :=
  match lines with
  | [] =>
      match final with
      | EOF =>
          if String.eqb b "" then (st, None)
          else match forward st b with
               | inl st' => (st', None)
               | inr (st', e) => (st', Some e)
               end
      | ReadError _ => (st, Some (ReadFailed final))
      end
  | line :: rest =>
      if blank_line line then
        if String.eqb b "" then copy_loop st "" rest final
        else match forward st b with
             | inl st' => copy_loop st' "" rest final
             | inr (st', e) => (st', Some e)
             end
      else copy_loop st (b +:+ line) rest final
  end.

Definition copyAnthropicSSEWithUsage (flusher : bool) (r : reader)
  : copy_state * option copy_error :=
  if negb flusher then
    let '(n, err) := io_copy r in
    ({| calls := 0; sent := []; respBytes := wrap64 n; inTok := 0; outTok := 0 |}, err)
  else copy_loop copy_state0 "" (rd_lines r) (rd_err r).

End Copy.

(** A stream of event blocks, each a list of lines that are not blank,
    followed by one blank line. *)
Definition event_lines (blocks : list (list string)) : list string :=
  flat_map (fun blk => blk ++ [LF]) blocks.

Definition is_event (blk : list string) : Prop :=
  blk <> [] /\ Forall (fun line => blank_line line = false /\ line <> ""%string) blk.

(** A writer that takes everything. *)
Definition write_all (k : nat) (b : string) : Z * bool :=
  (Z.of_nat (String.length b), false).

Definition no_copy (r : reader) : Z * option copy_error := (0, None).

Definition two_events : list (list string) :=
  [["event: message_start" +:+ LF; "data: m1" +:+ LF];
   ["event: message_delta" +:+ LF; "data: m2" +:+ LF]].

End Passthrough.

(** ** A pool with tiers *)

Module SampleTiers.
Import Router.

Definition haiku_tier : Tier := {|
  tier_Name := "small"; tier_Strategy := "priority";
  tier_Models := ["claude-3-haiku"%string];
  tier_Items := [{| item_ProviderID := 9; item_Weight := 1 |}] |}.

Definition main_tier : Tier := {|
  tier_Name := "main"; tier_Strategy := "priority"; tier_Models := [];
  tier_Items := [{| item_ProviderID := 1; item_Weight := 1 |}] |}.

Definition pool4 : poolRow := {|
  pool_ID := 1; pool_Name := "p"; pool_ClientKey := "k";
  pool_Strategy := "weighted_rr"; pool_Tiers := [haiku_tier; main_tier];
  pool_CredentialIDs := []; pool_ExpandedCredentialIDs := [];
  pool_ModelMap := ∅; pool_Enabled := true |}.

End SampleTiers.

(** * Properties *)

(** ** Health registry: backoff after a 429 *)

Section Backoff.

Import Router.

Lemma wrap64_small z : - 2 ^ 63 <= z < 2 ^ 63 -> wrap64 z = z.
Proof.
  intros H. unfold wrap64.
  rewrite Z.mod_small by lia. lia.
Qed.

Lemma shiftl_one k : 0 <= k -> Z.shiftl 1 k = 2 ^ k.
Proof.
  intros H. rewrite Z.shiftl_mul_pow2 by assumption. lia.
Qed.

Lemma minInt_min a b : minInt a b = Z.min a b.
Proof.
  unfold minInt. destruct (Z.ltb_spec a b); lia.
Qed.

(** The duration a 429 opens the circuit for. *)
Lemma open_duration_429 f :
  0 <= f ->
  open_duration StatusTooManyRequests f
  = Some (Z.min (5 * 2 ^ Z.min f 6 * Second) (2 * Minute)).
Proof.
  intros Hf. unfold open_duration.
  change (StatusTooManyRequests =? StatusUnauthorized) with false.
  change (StatusTooManyRequests =? StatusForbidden) with false.
  change (StatusTooManyRequests =? StatusTooManyRequests) with true.
  cbv beta iota zeta delta [orb].
  rewrite minInt_min, shiftl_one by lia.
  f_equal.
  set (d := 5 * 2 ^ Z.min f 6 * Second).
  set (m := 2 * Minute).
  destruct (Z.ltb_spec m d); lia.
Qed.

Lemma is_success_429 ok : is_success ok StatusTooManyRequests = false.
Proof. destruct ok; reflexivity. Qed.

(** One [EndRequest] with status 429 on a credential. *)
Lemma EndRequest_429 r now id ok latency :
  id <> 0%N ->
  0 <= failures (loadOrStore r id) < 2 ^ 62 ->
  exists st',
    credState (EndRequest r now id ok StatusTooManyRequests latency) !! id = Some st'
    /\ failures st' = failures (loadOrStore r id) + 1
    /\ openUntil st'
       = now + Z.min (5 * 2 ^ Z.min (failures st') 6 * Second) (2 * Minute).
Proof.
  intros Hid Hf. unfold EndRequest.
  destruct (N.eqb_spec id 0) as [->|_]; [congruence|].
  rewrite is_success_429.
  eexists. split; [apply lookup_insert_eq|].
  cbn [failures openUntil].
  rewrite wrap64_small by lia.
  split; [reflexivity|].
  rewrite open_duration_429 by lia. reflexivity.
Qed.

Lemma loadOrStore_lookup r id st :
  credState r !! id = Some st -> loadOrStore r id = st.
Proof. intros H. unfold loadOrStore. rewrite H. reflexivity. Qed.

Lemma backoff_at_least_40 f :
  3 <= f -> 40 * Second <= Z.min (5 * 2 ^ Z.min f 6 * Second) (2 * Minute).
Proof.
  intros Hf.
  assert (Hc : f = 3 \/ f = 4 \/ f = 5 \/ 6 <= f) by lia.
  destruct Hc as [-> | [-> | [-> | H6]]];
    [| | | rewrite (Z.min_r f 6) by lia]; vm_compute; congruence.
Qed.

(** C2. Every [EndRequest] with status 429 on a credential increments
    its consecutive failures and sets [open_until] to
    [now + min(5 * 2^min(failures, 6) s, 2 min)]; after three such calls
    in a row [open_until] is at least 40 s after the last one and the
    circuit is open at every instant before [open_until].  (The
    credential id is not 0, the id [EndRequest] ignores, and the clock
    is past the zero instant.) *)
Theorem EndRequest_429_backoff r id ok1 ok2 ok3 lat1 lat2 lat3 now1 now2 now3 :
  id <> 0%N ->
  0 <= failures (loadOrStore r id) < 2 ^ 61 ->
  0 <= now3 ->
  let r1 := EndRequest r now1 id ok1 StatusTooManyRequests lat1 in
  let r2 := EndRequest r1 now2 id ok2 StatusTooManyRequests lat2 in
  let r3 := EndRequest r2 now3 id ok3 StatusTooManyRequests lat3 in
  (exists st1,
     credState r1 !! id = Some st1
     /\ failures st1 = failures (loadOrStore r id) + 1
     /\ openUntil st1
        = now1 + Z.min (5 * 2 ^ Z.min (failures st1) 6 * Second) (2 * Minute))
  /\ (exists st3,
        credState r3 !! id = Some st3
        /\ failures st3 = failures (loadOrStore r id) + 3
        /\ openUntil st3
           = now3 + Z.min (5 * 2 ^ Z.min (failures st3) 6 * Second) (2 * Minute)
        /\ now3 + 40 * Second <= openUntil st3
        /\ forall t, t < openUntil st3 -> isCredentialOpen r3 id t = true).
Proof.
  intros Hid Hf Hnow r1 r2 r3.
  assert (H61 : 2 ^ 61 + 2 < 2 ^ 62) by (vm_compute; reflexivity).
  destruct (EndRequest_429 r now1 id ok1 lat1 Hid) as (st1 & L1 & F1 & O1); [lia|].
  fold r1 in L1.
  destruct (EndRequest_429 r1 now2 id ok2 lat2 Hid) as (st2 & L2 & F2 & O2).
  { rewrite (loadOrStore_lookup _ _ _ L1). lia. }
  fold r2 in L2. rewrite (loadOrStore_lookup _ _ _ L1) in F2.
  destruct (EndRequest_429 r2 now3 id ok3 lat3 Hid) as (st3 & L3 & F3 & O3).
  { rewrite (loadOrStore_lookup _ _ _ L2). lia. }
  fold r3 in L3. rewrite (loadOrStore_lookup _ _ _ L2) in F3.
  split; [exists st1; auto|].
  exists st3.
  assert (H40 : 40 * Second <= Z.min (5 * 2 ^ Z.min (failures st3) 6 * Second) (2 * Minute))
    by (apply backoff_at_least_40; lia).
  assert (Hpos : 0 < 40 * Second) by (vm_compute; reflexivity).
  revert O3 H40.
  generalize (Z.min (5 * 2 ^ Z.min (failures st3) 6 * Second) (2 * Minute)).
  intros d O3 H40.
  split; [assumption|]. split; [lia|]. split; [assumption|]. split; [lia|].
  intros t Ht. unfold isCredentialOpen. rewrite L3.
  destruct (Z.eqb_spec (openUntil st3) 0); [lia|].
  destruct (Z.ltb_spec t (openUntil st3)); [reflexivity|lia].
Qed.

Lemma EndRequest_429_backoff_witness :
  let r := New (fun _ => None) in
  let r1 := EndRequest r 1000 1 false StatusTooManyRequests 5 in
  let r2 := EndRequest r1 2000 1 false StatusTooManyRequests 5 in
  let r3 := EndRequest r2 3000 1 false StatusTooManyRequests 5 in
  (exists st1,
     credState r1 !! 1%N = Some st1
     /\ failures st1 = failures (loadOrStore r 1) + 1
     /\ openUntil st1
        = 1000 + Z.min (5 * 2 ^ Z.min (failures st1) 6 * Second) (2 * Minute))
  /\ (exists st3,
        credState r3 !! 1%N = Some st3
        /\ failures st3 = failures (loadOrStore r 1) + 3
        /\ openUntil st3
           = 3000 + Z.min (5 * 2 ^ Z.min (failures st3) 6 * Second) (2 * Minute)
        /\ 3000 + 40 * Second <= openUntil st3
        /\ forall t, t < openUntil st3 -> isCredentialOpen r3 1 t = true).
Proof.
  apply (EndRequest_429_backoff (New (fun _ => None)) 1 false false false
           5 5 5 1000 2000 3000).
  - discriminate.
  - vm_compute. split; congruence.
  - vm_compute. congruence.
Defined.

End Backoff.

(** ** Stickiness updates *)

Section Stickiness.

Import Router.

Lemma evicting_spec status :
  (status =? StatusUnauthorized) || (status =? StatusForbidden)
  || (status =? StatusTooManyRequests) || (500 <=? status) || (status =? 0) = true
  <-> evicting status.
Proof.
  unfold evicting, StatusUnauthorized, StatusForbidden, StatusTooManyRequests.
  rewrite !orb_true_iff, !Z.eqb_eq, Z.leb_le. tauto.
Qed.

(** C3. [RecordRouteResult] for a pool and a credential (ids other than
    0, which the function ignores): when [ok], the entry of
    [(pool_id, facade, model)] becomes [(credential_id, now + 90 s)];
    when not [ok], the entry is deleted exactly when the status is 0,
    401, 403, 429 or at least 500 and the entry points to that
    credential; any other call leaves the cache as it is.  Nothing else
    of the router state changes. *)
Theorem RecordRouteResult_post r now poolID facade model credID ok status :
  poolID <> 0%N ->
  credID <> 0%N ->
  routeCacheTT r = 90 * Second ->
  let key := routeKey poolID facade model in
  let r' := RecordRouteResult r now poolID facade model credID ok status in
  let points := exists cur, routeCache r !! key = Some cur /\ credentialID cur = credID in
  (ok = true ->
     routeCache r'
     = <[key := {| credentialID := credID; expiresAt := now + 90 * Second |}]>
         (routeCache r))
  /\ (ok = false -> evicting status /\ points ->
        routeCache r' = delete key (routeCache r) /\ routeCache r' !! key = None)
  /\ (ok = false -> ~ (evicting status /\ points) -> routeCache r' = routeCache r)
  /\ credState r' = credState r
  /\ poolStates r' = poolStates r.
Proof.
  intros Hp Hc Htt key r' points. subst r'. unfold RecordRouteResult.
  destruct (N.eqb_spec poolID 0) as [|_]; [contradiction|].
  destruct (N.eqb_spec credID 0) as [|_]; [contradiction|].
  cbn [orb]. fold key.
  pose proof (evicting_spec status) as Hev.
  destruct ok.
  { rewrite Htt. split; [reflexivity|].
    split; [discriminate|]. split; [discriminate|]. split; reflexivity. }
  split; [discriminate|].
  destruct ((status =? StatusUnauthorized) || (status =? StatusForbidden)
            || (status =? StatusTooManyRequests) || (500 <=? status)
            || (status =? 0)) eqn:E.
  - destruct (routeCache r !! key) as [cur|] eqn:L.
    + destruct (N.eqb_spec (credentialID cur) credID) as [Heq|Hne].
      * split; [intros _ _; split; [reflexivity|apply lookup_delete_eq]|].
        split; [|split; reflexivity].
        intros _ Hn. exfalso. apply Hn. split; [tauto|]. exists cur. auto.
      * split; [intros _ [_ (cur' & Hc' & He')]; congruence|].
        split; [|split; reflexivity]. reflexivity.
    + split; [intros _ [_ (cur' & Hc' & He')]; congruence|].
      split; [|split; reflexivity]. reflexivity.
  - split; [intros _ [He _]; apply Hev in He; discriminate|].
    split; [|split; reflexivity]. reflexivity.
Qed.

Lemma RecordRouteResult_post_witness :
  let r := New (fun _ => None) in
  let key := routeKey 1 "anthropic" "claude" in
  let r' := RecordRouteResult r 1000 1 "anthropic" "claude" 7 true 200 in
  let points := exists cur, routeCache r !! key = Some cur /\ credentialID cur = 7%N in
  (true = true ->
     routeCache r'
     = <[key := {| credentialID := 7; expiresAt := 1000 + 90 * Second |}]>
         (routeCache r))
  /\ (true = false -> evicting 200 /\ points ->
        routeCache r' = delete key (routeCache r) /\ routeCache r' !! key = None)
  /\ (true = false -> ~ (evicting 200 /\ points) -> routeCache r' = routeCache r)
  /\ credState r' = credState r
  /\ poolStates r' = poolStates r.
Proof.
  apply (RecordRouteResult_post (New (fun _ => None)) 1000 1 "anthropic" "claude"
           7 true 200).
  - discriminate.
  - discriminate.
  - reflexivity.
Defined.

End Stickiness.

(** ** The orchestrator *)

Section Orchestrator.

Import Router Handler.

Lemma pickFromTiers_routeCacheTT r cfg pool model avail tiers :
  routeCacheTT (fst (pickFromTiers r cfg pool model avail tiers)) = routeCacheTT r.
Proof.
  induction tiers as [|tier rest IH]; [reflexivity|].
  cbn [pickFromTiers].
  destruct (negb (tierAppliesToModel tier model)); [exact IH|].
  destruct (tier_Items tier) as [|it its]; [exact IH|].
  destruct (String.eqb (tier_Strategy tier) "priority").
  - destruct (firstByPriority _ _); [reflexivity|exact IH].
  - destruct (weightedCandidates _ _) as [|c0 cs]; [exact IH|].
    destruct (F64.fleb _ _); [reflexivity|].
    cbn [bumpCounter].
    destruct (drawCandidate _ _ _); reflexivity.
Qed.

Lemma pickCredentialFromPool_routeCacheTT r cfg pool facade model exclude now :
  routeCacheTT (fst (pickCredentialFromPool r cfg pool facade model exclude now))
  = routeCacheTT r.
Proof.
  unfold pickCredentialFromPool.
  assert (H1 : forall r1 : Router,
    routeCacheTT r1 = routeCacheTT r ->
    routeCacheTT (fst
      match pool_Tiers pool with
      | [] =>
          match
            (if String.eqb (pool_Strategy pool) "weighted_rr"
                && negb (Nat.eqb (length (pool_ExpandedCredentialIDs pool)) 0)
             then pool_ExpandedCredentialIDs pool
             else pool_CredentialIDs pool)
          with
          | [] => (r1, None)
          | _ :: _ =>
              let '(r2, count) := bumpCounter r1 (pool_ID pool) in
              (r2, scanFrom (isAvailable r cfg exclude now)
                     (if String.eqb (pool_Strategy pool) "weighted_rr"
                         && negb (Nat.eqb (length (pool_ExpandedCredentialIDs pool)) 0)
                      then pool_ExpandedCredentialIDs pool
                      else pool_CredentialIDs pool)
                     count
                     (N.of_nat (length
                        (if String.eqb (pool_Strategy pool) "weighted_rr"
                            && negb (Nat.eqb (length (pool_ExpandedCredentialIDs pool)) 0)
                         then pool_ExpandedCredentialIDs pool
                         else pool_CredentialIDs pool)))
                     0%N
                     (length
                        (if String.eqb (pool_Strategy pool) "weighted_rr"
                            && negb (Nat.eqb (length (pool_ExpandedCredentialIDs pool)) 0)
                         then pool_ExpandedCredentialIDs pool
                         else pool_CredentialIDs pool)))
          end
      | _ :: _ => pickFromTiers r1 cfg pool model (isAvailable r cfg exclude now)
                    (pool_Tiers pool)
      end) = routeCacheTT r).
  { intros r1 Hr1. destruct (pool_Tiers pool) as [|t ts].
    - case_match; [exact Hr1|]. cbn. exact Hr1.
    - rewrite pickFromTiers_routeCacheTT. exact Hr1. }
  destruct (routeCache r !! routeKey (pool_ID pool) facade model) as [ent|].
  - destruct ((now <? expiresAt ent)
              && isAvailable r cfg exclude now (credentialID ent)); [reflexivity|].
    apply H1. destruct (negb (now <? expiresAt ent)); reflexivity.
  - apply H1. reflexivity.
Qed.

Lemma pickUpstream_routeCacheTT r cfg clientKey facade model exclude now :
  routeCacheTT (fst (pickUpstream r cfg clientKey facade model exclude now))
  = routeCacheTT r.
Proof.
  unfold pickUpstream.
  destruct cfg as [cfg|]; [|reflexivity].
  destruct (_ || _); [reflexivity|].
  destruct (poolByClientKey cfg !! clientKey) as [pool|]; [|reflexivity].
  pose proof (pickCredentialFromPool_routeCacheTT r cfg pool facade model exclude now) as H.
  destruct (pickCredentialFromPool r cfg pool facade model exclude now) as [r1 [credID|]];
    [|exact H].
  cbn [fst] in H.
  destruct (cipher r1 _); exact H.
Qed.

Lemma EndRequest_routeCache r now id ok status latency :
  routeCache (EndRequest r now id ok status latency) = routeCache r
  /\ routeCacheTT (EndRequest r now id ok status latency) = routeCacheTT r.
Proof.
  unfold EndRequest. destruct (id =? 0)%N; [split; reflexivity|].
  destruct (is_success ok status); split; reflexivity.
Qed.

(** A successful result recorded for a pool and a credential. *)
Lemma RecordRouteResult_ok r now poolID facade model credID status :
  poolID <> 0%N ->
  credID <> 0%N ->
  routeCache (RecordRouteResult r now poolID facade model credID true status)
  = <[routeKey poolID facade model :=
        {| credentialID := credID; expiresAt := now + routeCacheTT r |}]>
      (routeCache r).
Proof.
  intros Hp Hc. unfold RecordRouteResult.
  destruct (N.eqb_spec poolID 0) as [|_]; [contradiction|].
  destruct (N.eqb_spec credID 0) as [|_]; [contradiction|].
  reflexivity.
Qed.

Lemma RecordRouteResult_routeCacheTT r now poolID facade model credID ok status :
  routeCacheTT (RecordRouteResult r now poolID facade model credID ok status)
  = routeCacheTT r.
Proof.
  unfold RecordRouteResult. repeat case_match; reflexivity.
Qed.

(** One attempt that meets such a response, in any state of the
    handler. *)
Lemma attempt_marks_sticky Marshal h env (first last : bool) clientKey origModel req
    r1 up status :
  Convert.ar_Stream req = false ->
  pickUpstream (rtr h) (getConfig env) clientKey FacadeAnthropic
    (reqModel h) (if first then ∅ else exclude h) (now_pick env) = (r1, inr up) ->
  ProviderType up = "anthropic" ->
  PoolID up <> 0%N ->
  CredentialID up <> 0%N ->
  marshal_err env = false ->
  upstream env = Some status ->
  200 <= status < 500 ->
  status <> 429 ->
  exists h',
    attempt Marshal h env first last clientKey origModel req = Return h'
    /\ calls h'
       = calls h
         ++ [StartRequest (CredentialID up);
             WriteHeader status;
             CallEndRequest (CredentialID up) true status;
             CallRecordRouteResult (PoolID up) origModel (CredentialID up) true status;
             Publish status "";
             ObserveRequest status]
    /\ routeCache (rtr h') !! routeKey (PoolID up) FacadeAnthropic origModel
       = Some {| credentialID := CredentialID up;
                 expiresAt := now_end env + routeCacheTT (rtr h) |}.
Proof.
  intros Hstream Hpick Hty Hpool Hcred Hmarshal Hup Hst H429.
  unfold attempt. rewrite Hpick, Hty. cbn [String.eqb Ascii.eqb Bool.eqb].
  unfold anthropic_branch. cbn [rtr reqModel exclude calls set_reqModel].
  rewrite Hmarshal, andb_false_r, Hup, Hstream.
  assert (Hok : (status <? 500) && negb (status =? StatusTooManyRequests) = true).
  { apply andb_true_iff. split; [apply Z.ltb_lt; lia|].
    apply negb_true_iff, Z.eqb_neq. exact H429. }
  rewrite Hok. cbn [negb].
  assert (Hr1 : routeCacheTT r1 = routeCacheTT (rtr h)).
  { pose proof (pickUpstream_routeCacheTT (rtr h) (getConfig env)
      clientKey FacadeAnthropic (reqModel h) (if first then ∅ else exclude h)
      (now_pick env)) as H.
    rewrite Hpick in H. exact H. }
  set (rw := negb (String.eqb (GoStrings.TrimSpace (Model up)) "")
            && negb (String.eqb (Model up) (reqModel h))).
  assert (Hgoal : forall h0, rtr h0 = r1 ->
    routeCache (rtr (recordRouteResult
      (endRequest (log h0 [WriteHeader status]) env (CredentialID up) true status)
      env up origModel true status))
    !! routeKey (PoolID up) FacadeAnthropic origModel
    = Some {| credentialID := CredentialID up;
              expiresAt := now_end env + routeCacheTT (rtr h) |}).
  { intros h0 Hh. cbn [recordRouteResult endRequest log rtr].
    rewrite Hh.
    destruct (EndRequest_routeCache r1 (now_end env) (CredentialID up) true
                status (now_end env - now_pick env)) as [Hc Ht].
    rewrite RecordRouteResult_ok by assumption.
    rewrite Ht, Hr1. apply lookup_insert_eq. }
  eexists. split; [reflexivity|]. split.
  - destruct rw; cbn [calls log endRequest recordRouteResult set_reqModel];
      rewrite <- !app_assoc; reflexivity.
  - destruct rw; apply Hgoal; reflexivity.
Qed.

(** An attempt that hands over to the next one leaves the life time of
    sticky entries alone. *)
Lemma attempt_Next_routeCacheTT Marshal h env (first last : bool) clientKey origModel
    req h' :
  attempt Marshal h env first last clientKey origModel req = Next h' ->
  routeCacheTT (rtr h') = routeCacheTT (rtr h).
Proof.
  unfold attempt.
  pose proof (pickUpstream_routeCacheTT (rtr h) (getConfig env) clientKey FacadeAnthropic
                (reqModel h) (if first then ∅ else exclude h) (now_pick env)) as Hp.
  destruct (pickUpstream _ _ _ _ _ _ _) as [r1 [e|up]]; cbn [fst] in Hp.
  { destruct e; discriminate. }
  assert (HE : forall r0 id ok status lat,
    routeCacheTT r0 = routeCacheTT (rtr h) ->
    routeCacheTT (EndRequest r0 (now_end env) id ok status lat) = routeCacheTT (rtr h)).
  { intros r0 id ok status lat H0.
    rewrite (proj2 (EndRequest_routeCache r0 (now_end env) id ok status lat)). exact H0. }
  unfold anthropic_branch, converted_branch, or_retry.
  intros H.
  repeat match type of H with
  | context [if ?x then _ else _] => destruct x
  | context [match ?x with _ => _ end] => destruct x
  end;
  try discriminate H; injection H as <-;
  cbn [rtr excluding log endRequest recordRouteResult set_reqModel];
  rewrite ?RecordRouteResult_routeCacheTT; try (apply HE; exact Hp); exact Hp.
Qed.

Lemma before_routeCacheTT Marshal envs clientKey origModel req maxAttempts k :
  forall h i h',
    Attempts.before Marshal h k i maxAttempts envs clientKey origModel req = Some h' ->
    routeCacheTT (rtr h') = routeCacheTT (rtr h).
Proof.
  induction k as [|k IH]; intros h i h' H; cbn [Attempts.before] in H.
  - injection H as <-. reflexivity.
  - destruct (attempt Marshal h (envs i) (i =? 0) (negb (i + 1 <? maxAttempts))
                clientKey origModel req) as [hr|hn] eqn:E; [discriminate|].
    rewrite (IH _ _ _ H). eapply attempt_Next_routeCacheTT, E.
Qed.

(** The loop gets to the attempts the earlier ones hand over to. *)
Lemma attempts_before Marshal envs clientKey origModel req maxAttempts k :
  forall h i h' n,
    Attempts.before Marshal h k i maxAttempts envs clientKey origModel req = Some h' ->
    attempts Marshal h (k + n) i maxAttempts envs clientKey origModel req
    = attempts Marshal h' n (i + Z.of_nat k) maxAttempts envs clientKey origModel req.
Proof.
  induction k as [|k IH]; intros h i h' n H; cbn [Attempts.before] in H.
  - injection H as <-. cbn [Nat.add]. rewrite Z.add_0_r. reflexivity.
  - cbn [Nat.add attempts].
    destruct (attempt Marshal h (envs i) (i =? 0) (negb (i + 1 <? maxAttempts))
                clientKey origModel req) as [hr|hn] eqn:E; [discriminate|].
    rewrite (IH _ _ _ n H). f_equal. lia.
Qed.

(** C10. On the Anthropic facade with an Anthropic upstream, every
    non-stream upstream response whose status is in [200, 500) and is
    not 429 (401 and 403 included), at the first attempt or at a retry,
    reaches [EndRequest] and [RecordRouteResult] with [ok = true] and
    ends the request; the stickiness cache then holds, for the
    request's [(pool, facade, model)], the credential that returned
    that status, for 90 seconds.  [h] is the state of the handler when
    the attempt starts, [k] the number of attempts before it.  (The
    pool and credential ids of the pick are not 0.) *)
Theorem passthrough_marks_sticky Marshal r req clientKey envs k h r1 up status :
  String.eqb (GoStrings.TrimSpace (Convert.ar_Model req)) "" = false ->
  0 < Convert.ar_MaxTokens req ->
  Convert.ar_Stream req = false ->
  routeCacheTT r = 90 * Second ->
  (k < 2)%nat ->
  Attempts.before Marshal
    {| rtr := r; reqModel := Convert.ar_Model req; exclude := ∅; calls := [] |}
    k 0 2 envs clientKey (Convert.ar_Model req) req = Some h ->
  pickUpstream (rtr h) (getConfig (envs (Z.of_nat k))) clientKey FacadeAnthropic
    (reqModel h) (if Z.of_nat k =? 0 then ∅ else exclude h)
    (now_pick (envs (Z.of_nat k))) = (r1, inr up) ->
  ProviderType up = "anthropic" ->
  PoolID up <> 0%N ->
  CredentialID up <> 0%N ->
  marshal_err (envs (Z.of_nat k)) = false ->
  upstream (envs (Z.of_nat k)) = Some status ->
  200 <= status < 500 ->
  status <> 429 ->
  let res := createMessage Marshal r false (Some req) clientKey envs in
  snd res
  = calls h
    ++ [StartRequest (CredentialID up);
        WriteHeader status;
        CallEndRequest (CredentialID up) true status;
        CallRecordRouteResult (PoolID up) (Convert.ar_Model req) (CredentialID up)
          true status;
        Publish status "";
        ObserveRequest status]
  /\ routeCache (fst res)
       !! routeKey (PoolID up) FacadeAnthropic (Convert.ar_Model req)
     = Some {| credentialID := CredentialID up;
               expiresAt := now_end (envs (Z.of_nat k)) + 90 * Second |}.
Proof.
  intros Hmodel Hmax Hstream Htt Hk Hbefore Hpick Hty Hpool Hcred Hmarshal Hup Hst H429 res.
  subst res. unfold createMessage.
  rewrite Hmodel. destruct (Z.leb_spec (Convert.ar_MaxTokens req) 0) as [|_]; [lia|].
  cbn [orb]. rewrite Hstream.
  change (Z.to_nat 2) with 2%nat.
  replace 2%nat with (k + S (1 - k))%nat by lia.
  rewrite (attempts_before _ _ _ _ _ _ _ _ _ _ _ Hbefore).
  cbn [attempts]. rewrite Z.add_0_l.
  destruct (attempt_marks_sticky Marshal h (envs (Z.of_nat k)) (Z.of_nat k =? 0)
              (negb (Z.of_nat k + 1 <? 2)) clientKey (Convert.ar_Model req) req
              r1 up status Hstream Hpick Hty Hpool Hcred Hmarshal Hup Hst H429)
    as (h' & -> & Hcalls & Hcache).
  cbn [fst snd]. split; [exact Hcalls|].
  rewrite Hcache, (before_routeCacheTT _ _ _ _ _ _ _ _ _ _ Hbefore).
  cbn [rtr]. rewrite Htt. reflexivity.
Qed.

Lemma passthrough_marks_sticky_witness :
  let res := Handler.createMessage Sample.marshal0 Sample.router0 false
               (Some (Sample.request1 false)) "k" Sample3.answers3 in
  snd res
  = [Handler.StartRequest 2; Handler.CallEndRequest 2 false 500]
    ++ [Handler.StartRequest 3;
        Handler.WriteHeader 404;
        Handler.CallEndRequest 3 true 404;
        Handler.CallRecordRouteResult 1 "claude" 3 true 404;
        Handler.Publish 404 "";
        Handler.ObserveRequest 404]
  /\ Router.routeCache (fst res) !! Router.routeKey 1 Handler.FacadeAnthropic "claude"
     = Some {| Router.credentialID := 3;
               Router.expiresAt := 1001 * Second + 90 * Second |}.
Proof.
  destruct (Attempts.before Sample.marshal0
              {| Handler.rtr := Sample.router0; Handler.reqModel := "claude";
                 Handler.exclude := ∅; Handler.calls := [] |}
              1 0 2 Sample3.answers3 "k" "claude" (Sample.request1 false))
    as [h|] eqn:Hb; [|vm_compute in Hb; discriminate Hb].
  destruct (Router.pickUpstream (Handler.rtr h) (Some Sample3.config3) "k"
              Handler.FacadeAnthropic (Handler.reqModel h) (Handler.exclude h)
              (1000 * Second)) as [r1 [e|up]] eqn:Hp.
  { exfalso. vm_compute in Hb. injection Hb as <-. vm_compute in Hp. discriminate Hp. }
  assert (Hh : Handler.calls h
               = [Handler.StartRequest 2; Handler.CallEndRequest 2 false 500]).
  { vm_compute in Hb. injection Hb as <-. reflexivity. }
  assert (Hu : Router.CredentialID up = 3%N /\ Router.PoolID up = 1%N
               /\ Router.ProviderType up = "anthropic"%string).
  { vm_compute in Hb. injection Hb as <-. vm_compute in Hp.
    injection Hp as _ <-. repeat split. }
  destruct Hu as (Hc & Hpo & Hty).
  rewrite <- Hh, <- Hc, <- Hpo.
  apply (passthrough_marks_sticky Sample.marshal0 Sample.router0
           (Sample.request1 false) "k" Sample3.answers3 1 h r1 up 404).
  - vm_compute. reflexivity.
  - vm_compute. reflexivity.
  - reflexivity.
  - reflexivity.
  - lia.
  - exact Hb.
  - exact Hp.
  - exact Hty.
  - rewrite Hpo. discriminate.
  - rewrite Hc. discriminate.
  - reflexivity.
  - reflexivity.
  - lia.
  - discriminate.
Defined.

(** C1 (the code departs from it). A streaming request whose Anthropic
    upstream answers 500: the handler ends the request on the picked
    credential twice, once in the failure check and once more after
    the stream copy, so the credential's inflight counter, 0 before
    the request, is -1 after it. *)
Theorem createMessage_stream_500_ends_twice :
  let res := createMessage Sample.marshal0 Sample.router0 false
               (Some (Sample.request1 true)) "k" (Sample.answers 500) in
  snd res
  = [StartRequest 1;
     CallEndRequest 1 false 500;
     WriteHeader 500;
     CallEndRequest 1 false 500;
     CallRecordRouteResult 1 "claude" 1 false 500;
     Publish 500 "";
     ObserveRequest 500]
  /\ getInflight Sample.router0 1 = 0
  /\ getInflight (fst res) 1 = -1.
Proof.
  vm_compute. repeat split; reflexivity.
Qed.

End Orchestrator.

(** ** The legacy weighted round robin *)

Section WeightedRR.

Import Router.

(** C4 (the code departs from it). A database with one [weighted_rr]
    pool, without tiers, over credential 1 of weight 3 and credential 2
    of weight 1.  [loadConfig] expands the pool to [1; 1; 1; 2] in the
    map of pools by id, but the pool [pickUpstream] finds by client key
    is a copy made before the expansion and carries no expanded list.
    Four picks on a fresh registry return credentials 2, 1, 2, 1: the
    rotation runs over [CredentialIDs] from index [counter mod 2] and
    the weights are not used.  The scan of the specification, over the
    expanded list from index [(counter - 1) mod 4], returns 1, 1, 1,
    2. *)
Theorem weighted_rr_ignores_weights :
  match Loader.loaded0 with
  | Some cfg =>
      match pools cfg !! 1%N, poolByClientKey cfg !! "k"%string with
      | Some byID, Some byKey =>
          pool_Strategy byKey = "weighted_rr"%string
          /\ pool_Tiers byKey = []
          /\ pool_ExpandedCredentialIDs byID = [1%N; 1%N; 1%N; 2%N]
          /\ pool_ExpandedCredentialIDs byKey = []
          /\ Picks.picked Sample.router0 (Some cfg) "k" "anthropic" "claude" 1000 4
             = [Some 2%N; Some 1%N; Some 2%N; Some 1%N]
          /\ Picks.claimed (isAvailable Sample.router0 cfg ∅ 1000)
               (pool_ExpandedCredentialIDs byID) 4
             = [Some 1%N; Some 1%N; Some 1%N; Some 2%N]
      | _, _ => False
      end
  | None => False
  end.
Proof.
  vm_compute. repeat split; reflexivity.
Qed.

End WeightedRR.

(** ** Model mapping *)

Section ModelMap.

Import Router.

(** What a successful pick is made of. *)
Lemma pickUpstream_inr r cfg clientKey facade model exclude now r' up :
  pickUpstream r (Some cfg) clientKey facade model exclude now = (r', inr up) ->
  exists pool,
    poolByClientKey cfg !! clientKey = Some pool
    /\ let cred := default credentialRow0 (credentials cfg !! CredentialID up) in
       let prov := default providerRow0 (providers cfg !! cred_ProviderID cred) in
       ProviderID up = cred_ProviderID cred
       /\ PoolID up = pool_ID pool
       /\ Model up = fst (resolveModel prov pool model).
Proof.
  unfold pickUpstream.
  destruct (_ || _); [discriminate|].
  destruct (poolByClientKey cfg !! clientKey) as [pool|]; [|discriminate].
  destruct (pickCredentialFromPool r cfg pool facade model exclude now)
    as [r1 [credID|]]; [|discriminate].
  destruct (cipher r1 _) as [apiKey|]; [|discriminate].
  intros H. injection H as _ <-. exists pool. cbn. auto.
Qed.

(** C5, amended. The provider's [model_map] is read at the requested
    model exactly as the client wrote it, keys compared byte for byte:
    absent a pool-level override and a published model set, the
    upstream model is the value stored under that very key, verbatim,
    when there is one and it is not empty, and the requested model
    itself otherwise. *)
Theorem model_map_exact_lookup r cfg clientKey facade model exclude now r' up prov :
  pickUpstream r (Some cfg) clientKey facade model exclude now = (r', inr up) ->
  providers cfg !! ProviderID up = Some prov ->
  provider_map_decides cfg clientKey prov ->
  Model up = match prov_ModelMap prov !! model with
             | Some v => if String.eqb v "" then model else v
             | None => model
             end.
Proof.
  intros Hpick Hprov [Hpool Hmodels].
  destruct (pickUpstream_inr _ _ _ _ _ _ _ _ _ Hpick) as (pool & Hp & Hid & _ & Hm).
  cbn zeta in Hid, Hm. rewrite <- Hid, Hprov in Hm. cbn in Hm.
  rewrite Hm. unfold resolveModel.
  rewrite Hmodels, (Hpool pool Hp).
  rewrite bool_decide_eq_true_2 by reflexivity.
  cbn [fst]. unfold mapped at 1. rewrite lookup_empty. reflexivity.
Qed.

Lemma model_map_exact_lookup_witness :
  Model Sample.upstream1
  = match prov_ModelMap Sample.provider1 !! "claude" with
    | Some v => if String.eqb v "" then "claude" else v
    | None => "claude"
    end.
Proof.
  apply (model_map_exact_lookup Sample.router0 Sample.config1 "k" "anthropic"
           "claude" ∅ 1000
           (fst (pickUpstream Sample.router0 (Some Sample.config1) "k" "anthropic"
                   "claude" ∅ 1000))
           Sample.upstream1 Sample.provider1).
  - vm_compute. reflexivity.
  - vm_compute. reflexivity.
  - split.
    + intros pool H. vm_compute in H. injection H as <-. reflexivity.
    + reflexivity.
Defined.

(** C5 as stated fails: the map holds the alias under the key
    ["Sonnet"]; a request for ["sonnet"] is sent upstream as
    ["sonnet"]. *)
Lemma model_map_lookup_counterexample : ~ model_map_lookup_as_stated.
Proof.
  intros H.
  specialize (H Sample.router0 Sample5.config5 "k" "anthropic" "sonnet" ∅ 1000
                (fst (pickUpstream Sample.router0 (Some Sample5.config5) "k"
                        "anthropic" "sonnet" ∅ 1000))
                {| PoolID := 1; CredentialID := 1; ProviderID := 1;
                   ProviderType := "anthropic";
                   BaseURL := "https://api.anthropic.com"; APIKey := "sk-key";
                   Model := "sonnet"; Headers := ∅; Timeout := 30 * Second |}
                Sample5.provider5 "Sonnet" "claude-sonnet-4-5").
  assert (Hd : provider_map_decides Sample5.config5 "k" Sample5.provider5).
  { split; [|reflexivity].
    intros pool E. vm_compute in E. injection E as <-. reflexivity. }
  specialize (H ltac:(vm_compute; reflexivity) ltac:(vm_compute; reflexivity) Hd
                ltac:(vm_compute; reflexivity) ltac:(discriminate)
                ltac:(vm_compute; reflexivity)).
  discriminate.
Qed.

End ModelMap.

(** ** Stop reasons *)

Section StopReasons.

Import Convert.

Lemma eqb_neq_false (s t : string) : s <> t -> String.eqb s t = false.
Proof. intros H. destruct (String.eqb_spec s t); [contradiction|reflexivity]. Qed.

(** C7. The stop-reason mapping, compared after [TrimSpace], in both
    directions.  Anthropic to OpenAI: [max_tokens] gives ["length"],
    [tool_use] gives ["tool_calls"], and [end_turn], [stop_sequence], a
    missing reason and every other value give ["stop"].  OpenAI to
    Anthropic, for a message without tool calls: ["tool_calls"] gives
    [tool_use], ["length"] gives [max_tokens], and ["stop"], a missing
    reason and every other value give [end_turn]; an assistant message
    with at least one tool call gives [tool_use] whatever the
    [finish_reason].  The response converters apply these maps. *)
Theorem stop_reason_mapping :
  (forall sr,
     (GoStrings.TrimSpace sr = "max_tokens" ->
      mapAnthropicStopReasonToOpenAIFinishReason sr = "length")
     /\ (GoStrings.TrimSpace sr = "tool_use" ->
         mapAnthropicStopReasonToOpenAIFinishReason sr = "tool_calls")
     /\ (GoStrings.TrimSpace sr <> "max_tokens" ->
         GoStrings.TrimSpace sr <> "tool_use" ->
         mapAnthropicStopReasonToOpenAIFinishReason sr = "stop"))
  /\ mapAnthropicStopReasonToOpenAIFinishReason "end_turn" = "stop"
  /\ mapAnthropicStopReasonToOpenAIFinishReason "stop_sequence" = "stop"
  /\ mapAnthropicStopReasonToOpenAIFinishReason "" = "stop"
  /\ mapAnthropicStopReasonToOpenAIFinishReason "max_tokens" = "length"
  /\ mapAnthropicStopReasonToOpenAIFinishReason "tool_use" = "tool_calls"
  /\ (forall fr, mapOpenAIFinishReasonToAnthropicStopReason fr true = "tool_use")
  /\ (forall Marshal Unmarshal uuid or model c cs,
        ocr_Choices or = c :: cs ->
        ocm_ToolCalls (occ_Message c) <> [] ->
        amr_StopReason (OpenAIResponseToAnthropic Marshal Unmarshal uuid or model)
        = "tool_use")
  /\ (forall fr,
        (GoStrings.TrimSpace fr = "tool_calls" ->
         mapOpenAIFinishReasonToAnthropicStopReason fr false = "tool_use")
        /\ (GoStrings.TrimSpace fr = "length" ->
            mapOpenAIFinishReasonToAnthropicStopReason fr false = "max_tokens")
        /\ (GoStrings.TrimSpace fr <> "tool_calls" ->
            GoStrings.TrimSpace fr <> "length" ->
            mapOpenAIFinishReasonToAnthropicStopReason fr false = "end_turn"))
  /\ mapOpenAIFinishReasonToAnthropicStopReason "stop" false = "end_turn"
  /\ mapOpenAIFinishReasonToAnthropicStopReason "" false = "end_turn"
  /\ mapOpenAIFinishReasonToAnthropicStopReason "length" false = "max_tokens"
  /\ mapOpenAIFinishReasonToAnthropicStopReason "tool_calls" false = "tool_use"
  /\ (forall Marshal Unmarshal uuid or model c cs,
        ocr_Choices or = c :: cs ->
        ocm_ToolCalls (occ_Message c) = [] ->
        amr_StopReason (OpenAIResponseToAnthropic Marshal Unmarshal uuid or model)
        = mapOpenAIFinishReasonToAnthropicStopReason (occ_FinishReason c) false)
  /\ (forall Marshal uuid now ar,
        map occ_FinishReason
          (ocr_Choices (AnthropicResponseToOpenAI Marshal uuid now ar))
        = [match flat_map (response_tool_call Marshal) (amr_Content ar) with
           | [] => mapAnthropicStopReasonToOpenAIFinishReason (amr_StopReason ar)
           | _ :: _ => "tool_calls"%string
           end]).
Proof.
  split.
  { intros sr. unfold mapAnthropicStopReasonToOpenAIFinishReason.
    split; [|split].
    - intros ->. reflexivity.
    - intros ->. reflexivity.
    - intros H1 H2.
      rewrite (eqb_neq_false _ _ H1), (eqb_neq_false _ _ H2).
      repeat case_match; reflexivity. }
  do 5 (split; [vm_compute; reflexivity|]).
  split; [reflexivity|].
  split.
  { intros Marshal Unmarshal uuid or model c cs Hc Htc.
    unfold OpenAIResponseToAnthropic. rewrite Hc. cbn [amr_StopReason].
    rewrite length_map.
    destruct (ocm_ToolCalls (occ_Message c)); [contradiction|reflexivity]. }
  split.
  { intros fr. unfold mapOpenAIFinishReasonToAnthropicStopReason.
    split; [|split].
    - intros ->. reflexivity.
    - intros ->. reflexivity.
    - intros H1 H2.
      rewrite (eqb_neq_false _ _ H1), (eqb_neq_false _ _ H2).
      repeat case_match; reflexivity. }
  do 4 (split; [vm_compute; reflexivity|]).
  split.
  { intros Marshal Unmarshal uuid or model c cs Hc Htc.
    unfold OpenAIResponseToAnthropic. rewrite Hc, Htc. reflexivity. }
  intros Marshal uuid now ar. unfold AnthropicResponseToOpenAI.
  cbn [ocr_Choices map occ_FinishReason]. reflexivity.
Qed.

Lemma stop_reason_mapping_witness :
  mapAnthropicStopReasonToOpenAIFinishReason "pause_turn" = "stop"
  /\ amr_StopReason
       (OpenAIResponseToAnthropic Sample.marshal0 Sample7.unmarshal0 "u"
          Sample7.completion "claude")
     = "tool_use"
  /\ mapOpenAIFinishReasonToAnthropicStopReason " length " false = "max_tokens"
  /\ mapOpenAIFinishReasonToAnthropicStopReason "content_filter" false = "end_turn"
  /\ amr_StopReason
       (OpenAIResponseToAnthropic Sample.marshal0 Sample7.unmarshal0 "u"
          Sample7.plain_completion "claude")
     = mapOpenAIFinishReasonToAnthropicStopReason "length" false.
Proof.
  destruct stop_reason_mapping
    as (Hmap & _ & _ & _ & _ & _ & _ & Hforce & Hback & _ & _ & _ & _ & Hplain & _).
  split; [apply (Hmap "pause_turn"); vm_compute; discriminate|].
  split.
  { apply (Hforce Sample.marshal0 Sample7.unmarshal0 "u" Sample7.completion "claude"
             _ _ eq_refl).
    discriminate. }
  split; [apply (Hback " length "); vm_compute; reflexivity|].
  split; [apply (Hback "content_filter"); vm_compute; discriminate|].
  apply (Hplain Sample.marshal0 Sample7.unmarshal0 "u" Sample7.plain_completion "claude"
           _ _ eq_refl eq_refl).
Defined.

End StopReasons.

(** ** SSE transcoders and malformed payloads *)

Section Malformed.

Import StreamConv.

Variable Unmarshal : string -> option any.

(** The read loops are the loops of the source: one [readSSEBlock],
    then the body. *)
Lemma o2a_loop_read st b lines final block rest :
  readSSEBlock b lines final = (block, None, rest) ->
  o2a_loop Unmarshal st b lines final
  = match o2a_block Unmarshal st block with
    | Continue st' => o2a_loop Unmarshal st' "" rest final
    | Break st' => o2a_finish st'
    end.
Proof.
  revert b. induction lines as [|line more IH]; intros b H; cbn in H.
  - destruct final; [destruct (String.eqb b "")|]; discriminate.
  - cbn [o2a_loop]. destruct (blank_line line).
    + injection H as -> ->. reflexivity.
    + apply IH. exact H.
Qed.

Lemma a2o_loop_read env st b lines final block rest :
  readSSEBlock b lines final = (block, None, rest) ->
  a2o_loop Unmarshal env st b lines final
  = a2o_loop Unmarshal env (a2o_block Unmarshal env st block) "" rest final.
Proof.
  revert b. induction lines as [|line more IH]; intros b H; cbn in H.
  - destruct final; [destruct (String.eqb b "")|]; discriminate.
  - cbn [a2o_loop]. destruct (blank_line line).
    + injection H as -> ->. reflexivity.
    + apply IH. exact H.
Qed.

(** The only error a read loop returns is the read error of the
    stream. *)
Lemma o2a_loop_error st b lines final :
  snd (o2a_loop Unmarshal st b lines final) = None
  \/ (snd (o2a_loop Unmarshal st b lines final) = Some final /\ final <> EOF).
Proof.
  revert st b. induction lines as [|line more IH]; intros st b; cbn [o2a_loop].
  - destruct final; [left; reflexivity|right; split; [reflexivity|discriminate]].
  - destruct (blank_line line); [|apply IH].
    destruct (o2a_block Unmarshal st b); [apply IH|left; reflexivity].
Qed.

Lemma a2o_loop_error env st b lines final :
  snd (a2o_loop Unmarshal env st b lines final) = None
  \/ (snd (a2o_loop Unmarshal env st b lines final) = Some final /\ final <> EOF).
Proof.
  revert st b. induction lines as [|line more IH]; intros st b; cbn [a2o_loop].
  - destruct final; [left; reflexivity|right; split; [reflexivity|discriminate]].
  - destruct (blank_line line); apply IH.
Qed.

Lemma copy_through_error r :
  snd (copy_through r) = None
  \/ (snd (copy_through r) = Some (rd_err r) /\ rd_err r <> EOF).
Proof.
  unfold copy_through. cbn [snd].
  destruct (rd_err r); [left; reflexivity|right; split; [reflexivity|discriminate]].
Qed.

(** C9. When the [data:] payload of a block is not JSON the transcoder
    can decode, both read loops go on with the blocks that follow, in
    the state they had before the block and without writing anything;
    and neither transcoder ever returns an error other than the read
    error of the upstream body, so a malformed payload never makes
    them fail. *)
Theorem malformed_block_skipped :
  (forall st lines final block rest,
     readSSEBlock "" lines final = (block, None, rest) ->
     unmarshal_map Unmarshal (extractSSEData block) = None ->
     extractSSEData block <> "[DONE]" ->
     o2a_block Unmarshal st block = Continue st
     /\ o2a_loop Unmarshal st "" lines final = o2a_loop Unmarshal st "" rest final)
  /\ (forall env st lines final block rest,
        readSSEBlock "" lines final = (block, None, rest) ->
        unmarshal_map Unmarshal (extractSSEData block) = None ->
        a2o_block Unmarshal env st block = st
        /\ a2o_loop Unmarshal env st "" lines final
           = a2o_loop Unmarshal env st "" rest final)
  /\ (forall flusher uuid r model,
        snd (OpenAIToAnthropic Unmarshal flusher uuid r model) = None
        \/ (snd (OpenAIToAnthropic Unmarshal flusher uuid r model) = Some (rd_err r)
            /\ rd_err r <> EOF))
  /\ (forall flusher uuid created r model,
        snd (AnthropicToOpenAI Unmarshal flusher uuid created r model) = None
        \/ (snd (AnthropicToOpenAI Unmarshal flusher uuid created r model)
            = Some (rd_err r)
            /\ rd_err r <> EOF)).
Proof.
  split; [|split; [|split]].
  - intros st lines final block rest Hread Hbad Hdone.
    assert (Hblock : o2a_block Unmarshal st block = Continue st).
    { unfold o2a_block. destruct (String.eqb (extractSSEData block) ""); [reflexivity|].
      destruct (String.eqb_spec (extractSSEData block) "[DONE]"); [contradiction|].
      rewrite Hbad. reflexivity. }
    split; [exact Hblock|].
    rewrite (o2a_loop_read _ _ _ _ _ _ Hread), Hblock. reflexivity.
  - intros env st lines final block rest Hread Hbad.
    assert (Hblock : a2o_block Unmarshal env st block = st).
    { unfold a2o_block. destruct (String.eqb (extractSSEData block) ""); [reflexivity|].
      rewrite Hbad. reflexivity. }
    split; [exact Hblock|].
    rewrite (a2o_loop_read _ _ _ _ _ _ _ Hread), Hblock. reflexivity.
  - intros flusher uuid r model. unfold OpenAIToAnthropic.
    destruct flusher; cbn [negb]; [apply o2a_loop_error|apply copy_through_error].
  - intros flusher uuid created r model. unfold AnthropicToOpenAI.
    destruct flusher; cbn [negb]; [apply a2o_loop_error|apply copy_through_error].
Qed.

End Malformed.

Lemma malformed_block_skipped_witness :
  StreamConv.o2a_loop Sample7.unmarshal0 Sample9.o2a_state0 "" Sample9.lines StreamConv.EOF
  = StreamConv.o2a_loop Sample7.unmarshal0 Sample9.o2a_state0 "" Sample9.rest StreamConv.EOF
  /\ StreamConv.a2o_loop Sample7.unmarshal0 Sample9.env0 Sample9.a2o_state0 ""
       Sample9.lines StreamConv.EOF
     = StreamConv.a2o_loop Sample7.unmarshal0 Sample9.env0 Sample9.a2o_state0 ""
         Sample9.rest StreamConv.EOF.
Proof.
  destruct (malformed_block_skipped Sample7.unmarshal0) as (Ho & Ha & _).
  split.
  - refine (proj2 (Ho Sample9.o2a_state0 Sample9.lines StreamConv.EOF _ Sample9.rest
                     _ _ _)).
    + vm_compute. reflexivity.
    + vm_compute. reflexivity.
    + vm_compute. discriminate.
  - refine (proj2 (Ha Sample9.env0 Sample9.a2o_state0 Sample9.lines StreamConv.EOF _
                     Sample9.rest _ _)).
    + vm_compute. reflexivity.
    + vm_compute. reflexivity.
Defined.

Arguments GoStrings.TrimSpace : simpl never.

(** ** The request round trip *)

Section RoundTripProofs.

Import Convert RoundTrip RoundTripAux.

Variable Marshal : any -> string.
Variable Unmarshal : string -> option any.

Abbreviation calls_of := (calls_of Marshal).
Abbreviation tool_messages_of := (tool_messages_of Marshal).

(** *** Monadic plumbing *)

Lemma bind_Ok {A B} (c : result A) (k : A -> result B) b :
  bind c k = Ok b -> exists a, c = Ok a /\ k a = Ok b.
Proof. destruct c as [a|e]; [eauto|discriminate]. Qed.

Ltac inv_bind H :=
  let a := fresh "a" in
  let Ha := fresh "Ha" in
  apply bind_Ok in H; destruct H as (a & Ha & H).

Lemma eqb_false_neq (s t : string) : String.eqb s t = false -> s <> t.
Proof. intros H ->. rewrite String.eqb_refl in H. discriminate. Qed.

(** *** The block loop of the first converter *)

Lemma block_step_spec acc blk acc' :
  block_step Marshal acc blk = Ok acc' ->
  toolCalls acc' = toolCalls acc ++ calls_of blk
  /\ toolMessages acc' = toolMessages acc ++ tool_messages_of blk
  /\ (String.eqb (block_type blk) "tool_result" = true ->
      String.eqb (GoStrings.TrimSpace (as_string (lookup "tool_use_id" blk))) "" = false).
Proof.
  unfold block_step, RoundTripAux.calls_of, RoundTripAux.tool_messages_of, block_type.
  generalize (as_string (lookup "type" blk)). intros typ.
  destruct (String.eqb_spec typ "text") as [->|_].
  { cbn [String.eqb Ascii.eqb Bool.eqb]. intros H.
    destruct (lookup "text" blk) as [|s| | | | |];
      try (injection H as <-; rewrite !app_nil_r; repeat split; discriminate).
    destruct (String.eqb s ""); injection H as <-; cbn; rewrite !app_nil_r;
      repeat split; discriminate. }
  destruct (String.eqb_spec typ "thinking") as [->|_].
  { cbn [String.eqb Ascii.eqb Bool.eqb]. intros H.
    destruct (lookup "thinking" blk) as [|s| | | | |];
      try (injection H as <-; rewrite !app_nil_r; repeat split; discriminate).
    destruct (String.eqb s ""); injection H as <-; cbn; rewrite !app_nil_r;
      repeat split; discriminate. }
  destruct (String.eqb_spec typ "tool_use") as [->|_].
  { cbn [String.eqb Ascii.eqb Bool.eqb].
    destruct (_ || _); [discriminate|].
    intros H. injection H as <-. cbn. rewrite !app_nil_r.
    repeat split; discriminate. }
  destruct (String.eqb_spec typ "tool_result") as [->|_].
  { destruct (String.eqb (GoStrings.TrimSpace (as_string (lookup "tool_use_id" blk))) "")
      eqn:Eid; [discriminate|].
    intros H. injection H as <-. cbn. rewrite !app_nil_r.
    repeat split. }
  destruct (String.eqb_spec typ "image") as [->|_].
  { intros H. inv_bind H. injection H as <-. cbn. rewrite !app_nil_r.
    repeat split; discriminate. }
  discriminate.
Qed.

Lemma block_loop_spec blocks : forall acc acc',
  block_loop Marshal acc blocks = Ok acc' ->
  toolCalls acc' = toolCalls acc ++ flat_map calls_of blocks
  /\ toolMessages acc' = toolMessages acc ++ flat_map tool_messages_of blocks
  /\ Forall (fun blk =>
       String.eqb (block_type blk) "tool_result" = true ->
       String.eqb (GoStrings.TrimSpace (as_string (lookup "tool_use_id" blk))) "" = false)
       blocks.
Proof.
  induction blocks as [|blk rest IH]; intros acc acc' H; cbn in H.
  - injection H as <-. cbn. rewrite !app_nil_r. auto.
  - inv_bind H. apply block_step_spec in Ha. destruct Ha as (Hc & Hm & Hid).
    apply IH in H. destruct H as (Hc' & Hm' & Hall).
    cbn [flat_map]. rewrite Hc', Hm', Hc, Hm, <- !app_assoc. auto.
Qed.

(** *** The wire form and the lookups of the second converter *)

Lemma lookup_wire_obj k m : lookup k (wire_obj m) = wire (lookup k m).
Proof.
  induction m as [|[k' v] r IH]; cbn; [reflexivity|].
  destruct (String.eqb k k'); auto.
Qed.

Lemma as_string_wire v : as_string (wire v) = as_string v.
Proof. destruct v; reflexivity. Qed.

(** *** The second converter adds no link of its own *)

Lemma content_part_step_links it blocks :
  content_part_step it = Ok blocks -> flat_map links_of_block blocks = [].
Proof.
  unfold content_part_step.
  destruct it as [| | | | |m|]; try discriminate.
  generalize (as_string (lookup "type" m)). intros typ.
  destruct (String.eqb_spec typ "text") as [->|_].
  { destruct (String.eqb _ ""); intros H; injection H as <-; reflexivity. }
  destruct (String.eqb_spec typ "image_url") as [->|_]; [|discriminate].
  destruct (String.eqb _ ""); [discriminate|].
  destruct (parseDataImageURL _) as [[mt data]|].
  { intros H; injection H as <-; reflexivity. }
  destruct (GoStrings.HasPrefix _ _); [|discriminate].
  intros H; injection H as <-; reflexivity.
Qed.

Lemma content_parts_loop_links l blocks :
  content_parts_loop l = Ok blocks -> flat_map links_of_block blocks = [].
Proof.
  revert blocks. induction l as [|it rest IH]; intros blocks H; cbn in H.
  - injection H as <-. reflexivity.
  - inv_bind H. inv_bind H. injection H as <-.
    rewrite flat_map_app, (content_part_step_links _ _ Ha), (IH _ Ha0). reflexivity.
Qed.

Lemma content_blocks_links c blocks :
  openAIMessageContentToAnthropicBlocks c = Ok blocks ->
  flat_map links_of_block blocks = [].
Proof.
  unfold openAIMessageContentToAnthropicBlocks.
  destruct c as [|v| | |l| |]; try discriminate.
  - intros H; injection H as <-; reflexivity.
  - destruct (String.eqb _ ""); intros H; injection H as <-; reflexivity.
  - apply content_parts_loop_links.
Qed.

(** *** Tool calls come back as tool-use blocks *)

Lemma tool_call_links blocks out :
  tool_calls_loop Unmarshal (map (fun c => Obj (wire_obj c)) (flat_map calls_of blocks))
  = Ok out ->
  flat_map links_of_block out = use_links blocks.
Proof.
  revert out. induction blocks as [|blk rest IH]; intros out H.
  - cbn in H. injection H as <-. reflexivity.
  - unfold use_links in *. cbn [flat_map] in *. rewrite map_app in H.
    unfold RoundTripAux.calls_of in H at 1.
    destruct (String.eqb (block_type blk) "tool_use").
    + cbn [map app tool_calls_loop] in H. inv_bind H. inv_bind H.
      injection H as <-. cbn [flat_map]. rewrite (IH _ Ha0).
      f_equal. revert Ha. unfold tool_call_step. cbn.
      repeat case_match; try discriminate; intros E; injection E as <-; reflexivity.
    + cbn [map app] in H. cbn [app]. apply IH. exact H.
Qed.

(** *** Tool results come back as user messages *)

Lemma TrimSpace_tool : GoStrings.TrimSpace "tool" = "tool".
Proof. vm_compute. reflexivity. Qed.

Lemma TrimSpace_user : GoStrings.TrimSpace "user" = "user".
Proof. vm_compute. reflexivity. Qed.

Lemma TrimSpace_assistant : GoStrings.TrimSpace "assistant" = "assistant".
Proof. vm_compute. reflexivity. Qed.

Lemma TrimSpace_system : GoStrings.TrimSpace "system" = "system".
Proof. vm_compute. reflexivity. Qed.

Lemma tool_messages_round blocks s o :
  Forall (fun blk =>
       String.eqb (block_type blk) "tool_result" = true ->
       String.eqb (GoStrings.TrimSpace (as_string (lookup "tool_use_id" blk))) "" = false)
       blocks ->
  openai_messages_loop Marshal Unmarshal
    (map (fun x => Obj (wire_obj x)) (flat_map tool_messages_of blocks)) = Ok (s, o) ->
  s = []
  /\ map msg_Role o = repeat "user"%string (length (result_ids blocks))
  /\ links_of_messages o
     = map (fun id => ToolResult (GoStrings.TrimSpace id)) (result_ids blocks).
Proof.
  revert s o. induction blocks as [|blk rest IH]; intros s o Hall H.
  - cbn in H. injection H as <- <-. auto.
  - inversion Hall as [|? ? Hblk Hrest]; subst.
    unfold result_ids, links_of_messages in *. cbn [flat_map] in *. rewrite map_app in H.
    unfold RoundTripAux.tool_messages_of in H at 1.
    destruct (String.eqb (block_type blk) "tool_result").
    + cbn [map app openai_messages_loop] in H. inv_bind H. inv_bind H.
      destruct a0 as [s2 o2]. injection H as <- <-.
      destruct (IH _ _ Hrest Ha0) as (-> & Hr & Hl).
      revert Ha. unfold openai_message. cbn [wire_obj map fst snd wire tool_message lookup
        String.eqb Ascii.eqb Bool.eqb as_string].
      rewrite TrimSpace_tool. cbn [String.eqb Ascii.eqb Bool.eqb orb].
      rewrite (Hblk eq_refl).
      intros E. injection E as <-. cbn [fst snd app map length repeat flat_map].
      rewrite Hr, Hl. auto.
    + cbn [map app] in H. cbn [app]. apply IH; assumption.
Qed.

(** *** One message through both converters *)

Lemma msg_blocks_spec m blocks :
  anthropicContentToBlocks (msg_Content m) = Ok blocks -> msg_blocks m = blocks.
Proof.
  unfold anthropicContentToBlocks, msg_blocks.
  destruct (msg_Content m) as [|v| | |l| |l]; try discriminate.
  - intros H; injection H as <-; reflexivity.
  - destruct (String.eqb _ ""); intros H; injection H as <-; reflexivity.
  - destruct (objects_of l); [|discriminate]. intros H; injection H as <-; reflexivity.
  - intros H; injection H as <-; reflexivity.
Qed.

Lemma wire_ObjArr l : wire (ObjArr l) = Arr (map (fun x => Obj (wire_obj x)) l).
Proof. reflexivity. Qed.

Lemma main_message_round role tool_calls blocks main one :
  openai_message Marshal Unmarshal (Obj (wire_obj main)) = Ok one ->
  role = "user"%string \/ role = "assistant"%string ->
  (tool_calls = Nil \/ tool_calls = ObjArr (flat_map calls_of blocks)) ->
  lookup "role" main = Str role ->
  lookup "tool_calls" main = tool_calls ->
  fst one = []
  /\ map msg_Role (snd one) = [role]
  /\ links_of_messages (snd one)
     = match tool_calls with Nil => [] | _ => use_links blocks end.
Proof.
  intros H Hrole Htc Lr Lt.
  unfold openai_message in H.
  rewrite !lookup_wire_obj, Lr, Lt in H. cbn [wire as_string] in H.
  assert (Hr : GoStrings.TrimSpace role = role)
    by (destruct Hrole as [-> | ->]; vm_compute; reflexivity).
  rewrite Hr in H.
  assert (Hbr : String.eqb role "" = false /\ String.eqb role "system" = false
                /\ String.eqb role "user" || String.eqb role "assistant" = true)
    by (destruct Hrole as [-> | ->]; repeat split).
  destruct Hbr as (E1 & E2 & E3). rewrite E1, E2, E3 in H.
  inv_bind H. inv_bind H. injection H as <-.
  cbn [fst snd map msg_Role links_of_messages flat_map msg_blocks msg_Content].
  rewrite app_nil_r, flat_map_app, (content_blocks_links _ _ Ha).
  cbn [app].
  split; [reflexivity|]. split; [reflexivity|].
  destruct Htc as [-> | ->].
  - cbn in Ha0. injection Ha0 as <-. reflexivity.
  - rewrite wire_ObjArr in Ha0. cbn [openAIToolCallsToAnthropicBlocks] in Ha0.
    apply tool_call_links in Ha0. exact Ha0.
Qed.

Lemma message_round m msgs s o :
  anthropicMessageToOpenAIMessages Marshal m = Ok msgs ->
  openai_messages_loop Marshal Unmarshal (map (fun x => Obj (wire_obj x)) msgs)
  = Ok (s, o) ->
  s = [] /\ map msg_Role o = roles_after m /\ links_of_messages o = links_after m.
Proof.
  intros H1 H2. unfold anthropicMessageToOpenAIMessages in H1.
  destruct (String.eqb (GoStrings.TrimSpace (msg_Role m)) ""); [discriminate|].
  inv_bind H1. rename a into blocks. inv_bind H1. rename a into acc.
  pose proof (msg_blocks_spec _ _ Ha) as Hblocks.
  destruct (block_loop_spec _ _ _ Ha0) as (Hcalls & Hmsgs & Hall).
  cbn [blockAcc0 toolCalls toolMessages app] in Hcalls, Hmsgs.
  unfold roles_after, links_after, tool_results_of, tool_uses_of.
  rewrite Hblocks.
  set (content := if hasNonText acc then Arr (contentParts acc)
                  else Str (String.concat "" (textParts acc))) in H1.
  destruct (String.eqb_spec (GoStrings.TrimSpace (msg_Role m)) "user") as [Hu|Hnu].
  - injection H1 as <-. rewrite Hu.
    cbn [map openai_messages_loop] in H2. inv_bind H2. inv_bind H2.
    destruct a0 as [s2 o2]. injection H2 as <- <-.
    rewrite Hmsgs in Ha2.
    destruct (tool_messages_round _ _ _ Hall Ha2) as (-> & Hr & Hl).
    destruct (main_message_round "user" Nil blocks _ a Ha1 (or_introl eq_refl)
                (or_introl eq_refl) eq_refl eq_refl) as (-> & Hr1 & Hl1).
    unfold links_of_messages in *. rewrite map_app, flat_map_app, Hr1, Hl1, Hr, Hl.
    auto.
  - destruct (String.eqb_spec (GoStrings.TrimSpace (msg_Role m)) "assistant")
      as [Ha'|]; [|discriminate].
    injection H1 as <-. rewrite Ha'.
    cbn [map openai_messages_loop] in H2. inv_bind H2. inv_bind H2.
    destruct a0 as [s2 o2]. injection H2 as <- <-.
    rewrite Hmsgs in Ha2.
    destruct (tool_messages_round _ _ _ Hall Ha2) as (-> & Hr & Hl).
    cbn [String.eqb Ascii.eqb Bool.eqb].
    assert (Hmain : fst a = [] /\ map msg_Role (snd a) = ["assistant"%string]
                    /\ links_of_messages (snd a) = use_links blocks).
    { destruct (toolCalls acc) as [|c cs] eqn:Ec.
      - assert (Hnone : use_links blocks = []).
        { symmetry. apply (tool_call_links blocks []). rewrite <- Hcalls. reflexivity. }
        rewrite Hnone.
        destruct (reasoningParts acc);
          apply (main_message_round "assistant" Nil blocks _ a Ha1
                   (or_intror eq_refl) (or_introl eq_refl) eq_refl eq_refl).
      - rewrite Hcalls in Ha1.
        destruct (reasoningParts acc);
          apply (main_message_round "assistant"
                   (ObjArr (flat_map calls_of blocks)) blocks _ a Ha1
                   (or_intror eq_refl) (or_intror eq_refl) eq_refl eq_refl). }
    destruct Hmain as (-> & Hr1 & Hl1).
    unfold links_of_messages in *. rewrite map_app, flat_map_app, Hr1, Hl1, Hr, Hl.
    auto.
Qed.

(** *** The message loops *)

Lemma openai_messages_loop_app l1 l2 r :
  openai_messages_loop Marshal Unmarshal (l1 ++ l2) = Ok r ->
  exists r1 r2,
    openai_messages_loop Marshal Unmarshal l1 = Ok r1
    /\ openai_messages_loop Marshal Unmarshal l2 = Ok r2
    /\ r = (fst r1 ++ fst r2, snd r1 ++ snd r2).
Proof.
  revert r. induction l1 as [|x l1 IH]; intros r H.
  - exists ([], []), r. cbn. destruct r. auto.
  - cbn [app openai_messages_loop] in *. inv_bind H. inv_bind H.
    injection H as <-. destruct (IH _ Ha0) as (r1 & r2 & H1 & H2 & ->).
    rewrite Ha, H1. cbn [bind fst snd].
    eexists _, r2. split; [reflexivity|]. split; [exact H2|].
    cbn [fst snd]. rewrite !app_assoc. reflexivity.
Qed.

Lemma messages_round ms : forall msgs s o,
  messages_loop Marshal ms = Ok msgs ->
  openai_messages_loop Marshal Unmarshal (map (fun x => Obj (wire_obj x)) msgs)
  = Ok (s, o) ->
  s = []
  /\ map msg_Role o = flat_map roles_after ms
  /\ links_of_messages o = flat_map links_after ms.
Proof.
  induction ms as [|m rest IH]; intros msgs s o H1 H2.
  - cbn in H1. injection H1 as <-. cbn in H2. injection H2 as <- <-. auto.
  - cbn [messages_loop] in H1. inv_bind H1. inv_bind H1. injection H1 as <-.
    rewrite map_app in H2.
    destruct (openai_messages_loop_app _ _ _ H2) as ([s1 o1] & [s2 o2] & L1 & L2 & E).
    injection E as -> ->.
    destruct (message_round _ _ _ _ Ha L1) as (-> & Hr1 & Hl1).
    destruct (IH _ _ _ Ha0 L2) as (-> & Hr2 & Hl2).
    unfold links_of_messages in *.
    cbn [flat_map]. rewrite map_app, flat_map_app, Hr1, Hr2, Hl1, Hl2. auto.
Qed.

(** *** Tool definitions *)

Lemma tools_loop_spec tools out :
  tools_loop tools = Ok out ->
  out = map openai_tool tools
  /\ Forall (fun t => String.eqb (GoStrings.TrimSpace (tool_Name t)) "" = false) tools.
Proof.
  revert out. induction tools as [|t rest IH]; intros out H; cbn in H.
  - injection H as <-. auto.
  - destruct (String.eqb (GoStrings.TrimSpace (tool_Name t)) "") eqn:E; [discriminate|].
    inv_bind H. injection H as <-. destruct (IH _ Ha) as [-> Hall]. auto.
Qed.

Lemma toolDefs_round tools :
  Forall (fun t => String.eqb (GoStrings.TrimSpace (tool_Name t)) "" = false) tools ->
  exists tools',
    openAIToolsToAnthropicTools
      (Some (Arr (map (fun x => Obj (wire_obj x)) (map openai_tool tools)))) = Ok tools'
    /\ map tool_Name tools' = map tool_Name tools.
Proof.
  unfold openAIToolsToAnthropicTools, unmarshal_toolDefs.
  induction tools as [|t rest IH]; intros Hall.
  - exists []. auto.
  - inversion Hall as [|? ? Ht Hrest]; subst.
    destruct (IH Hrest) as (tools' & H & Hnames).
    cbn [map unmarshal_each] in *.
    destruct (unmarshal_each unmarshal_toolDef _) as [defs|]; [|discriminate].
    cbn [unmarshal_toolDef wire_obj openai_tool map fst snd wire lookup field_string
         String.eqb Ascii.eqb Bool.eqb toolDefs_loop otd_Type otd_Name negb andb].
    rewrite Ht. cbn [toolDefs_loop] in H. rewrite H. cbn [bind].
    eexists. split; [reflexivity|]. cbn [map tool_Name]. rewrite Hnames. reflexivity.
Qed.

Lemma tools_round tools raw tools' :
  anthropicToolsToOpenAIToolsRaw tools = Ok raw ->
  openAIToolsToAnthropicTools raw = Ok tools' ->
  map tool_Name tools' = map tool_Name tools.
Proof.
  unfold anthropicToolsToOpenAIToolsRaw.
  destruct tools as [|t rest].
  - intros H; injection H as <-. cbn. intros H; injection H as <-. reflexivity.
  - intros H. inv_bind H. injection H as <-.
    destruct (tools_loop_spec _ _ Ha) as [-> Hall].
    destruct (toolDefs_round _ Hall) as (tools2 & H2 & Hn).
    unfold marshal_raw. rewrite wire_ObjArr, H2.
    intros E; injection E as <-. exact Hn.
Qed.

(** *** Both converters *)

(** Composed directly, the second converter rejects whatever the first
    one returns: [messages] is a [[]map[string]any], not a [[]any]. *)
Lemma round_trip_direct_fails ar :
  round_trip Marshal Unmarshal (fun or => or) ar
  = match AnthropicToOpenAIChatRequest Marshal ar with
    | Ok _ => Err ErrUnsupportedMessageShape
    | Err e => Err e
    end.
Proof.
  unfold round_trip, AnthropicToOpenAIChatRequest.
  destruct (messages_loop Marshal (ar_Messages ar)); [|reflexivity].
  destruct (anthropicToolsToOpenAIToolsRaw (ar_Tools ar)); [|reflexivity].
  destruct (anthropicToolChoiceToOpenAIToolChoiceRaw (ar_ToolChoice ar)); reflexivity.
Qed.

Lemma round_trip_wire_spec ar ar' :
  round_trip Marshal Unmarshal wire_request ar = Ok ar' ->
  ar_System ar'
  = (let t := GoStrings.TrimSpace (systemText Marshal (ar_System ar)) in
     if String.eqb t "" then Nil else Str t)
  /\ roles ar' = flat_map roles_after (ar_Messages ar)
  /\ tool_names ar' = tool_names ar
  /\ links ar' = flat_map links_after (ar_Messages ar).
Proof.
  intros H. unfold round_trip in H. inv_bind H. rename a into or.
  unfold AnthropicToOpenAIChatRequest in Ha.
  inv_bind Ha. rename a into msgs. inv_bind Ha. rename a into toolDefs.
  inv_bind Ha. rename a into toolChoice. injection Ha as <-.
  unfold OpenAIToAnthropicMessageRequest, wire_request in H.
  cbn [or_Messages or_Tools or_ToolChoice or_MaxTokens or_Model or_Temperature
       or_TopP or_Stream] in H.
  rewrite wire_ObjArr, map_app in H.
  inv_bind H. rename a into parts. inv_bind H. rename a into tools'.
  inv_bind H. injection H as <-.
  unfold roles, tool_names, links.
  cbn [ar_System ar_Messages ar_Tools].
  rewrite (tools_round _ _ _ Ha1 Ha3).
  cbn zeta.
  destruct (String.eqb (GoStrings.TrimSpace (systemText Marshal (ar_System ar))) "")
    eqn:Esys.
  - cbn [map app] in Ha. destruct parts as [s o].
    destruct (messages_round _ _ _ _ Ha0 Ha) as (-> & Hr & Hl).
    cbn [fst snd].
    assert (Ht : GoStrings.TrimSpace (GoStrings.Join [] (String "010" "")) = ""%string)
      by (vm_compute; reflexivity).
    rewrite Ht. cbn [String.eqb]. auto.
  - destruct (openai_messages_loop_app _ _ _ Ha) as ([s1 o1] & [s2 o2] & L1 & L2 & ->).
    destruct (messages_round _ _ _ _ Ha0 L2) as (-> & Hr & Hl).
    cbn [fst snd]. rewrite app_nil_r.
    cbn [map openai_messages_loop] in L1.
    unfold openai_message in L1.
    cbn [wire_obj map fst snd wire lookup String.eqb Ascii.eqb Bool.eqb as_string]
      in L1.
    rewrite TrimSpace_system in L1.
    cbn [String.eqb Ascii.eqb Bool.eqb bind app fst snd stringifyJSONish] in L1.
    injection L1 as <- <-. cbn [app].
    change (GoStrings.Join [systemText Marshal (ar_System ar)] (String "010" ""))
      with (systemText Marshal (ar_System ar)).
    rewrite Esys. auto.
Qed.


End RoundTripProofs.



(** ** Rounding to float64 is monotone *)

Section Rounding.

Import F64.
Local Open Scope Q_scope.

Lemma pos_pow_1_l p : (1 ^ p)%positive = 1%positive.
Proof.
  apply Pos2Z.inj. rewrite Pos2Z.inj_pow. apply Z.pow_1_l. lia.
Qed.

Lemma pow2_Qpower e : pow2 e == 2 ^ e.
Proof.
  destruct e as [|p|p]; cbn [pow2 Qpower].
  - reflexivity.
  - rewrite Qpower_decomp_positive. rewrite pos_pow_1_l. reflexivity.
  - rewrite Qpower_decomp_positive. rewrite pos_pow_1_l.
    unfold Qinv. cbn [Qnum Qden].
    assert (H := Z.pow_pos_nonneg 2 (Z.pos p) ltac:(lia) ltac:(lia)).
    destruct (2 ^ Z.pos p)%Z as [|n|n] eqn:E; try lia.
    unfold Qeq. cbn [Qnum Qden].
    rewrite <- Pos2Z.inj_pow in E. injection E as <-. reflexivity.
Qed.

Lemma pow2_gt0 e : 0 < pow2 e.
Proof. rewrite pow2_Qpower. apply Qpower_0_lt. reflexivity. Qed.

Lemma pow2_add a b : pow2 (a + b) == pow2 a * pow2 b.
Proof. rewrite !pow2_Qpower. apply Qpower_plus. discriminate. Qed.

Lemma pow2_le a b : (a <= b)%Z -> pow2 a <= pow2 b.
Proof.
  intros H. rewrite !pow2_Qpower. apply Qpower_le_compat_l; [exact H|discriminate].
Qed.

Lemma pow2_lt a b : (a < b)%Z -> pow2 a < pow2 b.
Proof.
  intros H. rewrite !pow2_Qpower. apply Qpower_lt_compat_l; [exact H|reflexivity].
Qed.

Lemma pow2_inject a : (0 <= a)%Z -> pow2 a == inject_Z (2 ^ a).
Proof. intros H. rewrite pow2_Qpower, Zpower_Qpower by exact H. reflexivity. Qed.

Lemma pow2_cancel a : pow2 a * pow2 (- a) == 1.
Proof. rewrite <- pow2_add, Z.add_opp_diag_r. reflexivity. Qed.

(** *** Rounding to the nearest integer *)

Lemma rne_bounds q : (Qfloor q <= rne q <= Qfloor q + 1)%Z.
Proof.
  unfold rne. destruct (Qcompare _ _); [destruct (Z.even _)|..]; lia.
Qed.

Lemma rne_mono q1 q2 : q1 <= q2 -> (rne q1 <= rne q2)%Z.
Proof.
  intros H. assert (Hf := Qfloor_resp_le _ _ H).
  destruct (Z.eq_dec (Qfloor q1) (Qfloor q2)) as [E|E].
  - unfold rne. rewrite <- E.
    assert (Hd : q1 - inject_Z (Qfloor q1) <= q2 - inject_Z (Qfloor q1))
      by (apply Qplus_le_l; exact H).
    destruct (Qcompare_spec (q1 - inject_Z (Qfloor q1)) (1 # 2)) as [E1|E1|E1];
      destruct (Qcompare_spec (q2 - inject_Z (Qfloor q1)) (1 # 2)) as [E2|E2|E2];
      try (destruct (Z.even (Qfloor q1)); lia); try lia; exfalso.
    + rewrite E1 in Hd. exact (Qlt_not_le _ _ E2 Hd).
    + rewrite E2 in Hd. exact (Qlt_not_le _ _ E1 Hd).
    + apply (Qlt_not_le _ _ E1). apply Qle_trans with (1 := Hd).
      apply Qlt_le_weak, E2.
  - assert (H1 := rne_bounds q1). assert (H2 := rne_bounds q2). lia.
Qed.

Lemma rne_inject z : rne (inject_Z z) = z.
Proof.
  unfold rne. rewrite Qfloor_Z.
  assert (H : Qcompare (inject_Z z - inject_Z z) (1 # 2) = Lt).
  { apply -> Qlt_alt. unfold Qminus. rewrite Qplus_opp_r. reflexivity. }
  rewrite H. reflexivity.
Qed.

Lemma rne_ge z q : inject_Z z <= q -> (z <= rne q)%Z.
Proof. intros H. rewrite <- (rne_inject z). apply rne_mono, H. Qed.

Lemma rne_le z q : q <= inject_Z z -> (rne q <= z)%Z.
Proof. intros H. rewrite <- (rne_inject z). apply rne_mono, H. Qed.

(** *** The binary exponent *)

Lemma ilog2_spec q : 0 < q -> pow2 (ilog2 q) <= q /\ q < pow2 (ilog2 q + 1).
Proof.
  intros Hq. destruct q as [n d].
  assert (Hn : (0 < n)%Z) by (unfold Qlt in Hq; cbn in Hq; lia).
  unfold ilog2. cbn [Qnum Qden].
  set (ln := Z.log2 n). set (ld := Z.log2 (Z.pos d)).
  destruct (Z.log2_spec n Hn) as [Hn1 Hn2]. fold ln in Hn1, Hn2.
  destruct (Z.log2_spec (Z.pos d) ltac:(lia)) as [Hd1 Hd2]. fold ld in Hd1, Hd2.
  assert (Hln : (0 <= ln)%Z) by apply Z.log2_nonneg.
  assert (Hld : (0 <= ld)%Z) by apply Z.log2_nonneg.
  assert (Hd0 : 0 < inject_Z (Z.pos d)) by reflexivity.
  assert (Hlow : pow2 (ln - ld - 1) <= n # d).
  { rewrite (Qmake_Qdiv n d). apply Qle_shift_div_l; [exact Hd0|].
    apply Qle_trans with (pow2 (ln - ld - 1) * pow2 (ld + 1)).
    - apply Qmult_le_l; [apply pow2_gt0|].
      rewrite pow2_inject by lia. rewrite <- Zle_Qle.
      unfold Z.succ in Hd2. lia.
    - rewrite <- pow2_add. replace (ln - ld - 1 + (ld + 1))%Z with ln by lia.
      rewrite pow2_inject by lia. rewrite <- Zle_Qle. exact Hn1. }
  assert (Hup : n # d < pow2 (ln - ld + 1)).
  { rewrite (Qmake_Qdiv n d). apply Qlt_shift_div_r; [exact Hd0|].
    apply Qlt_le_trans with (pow2 (ln - ld + 1) * pow2 ld).
    - rewrite <- pow2_add. replace (ln - ld + 1 + ld)%Z with (ln + 1)%Z by lia.
      rewrite pow2_inject by lia. rewrite <- Zlt_Qlt.
      unfold Z.succ in Hn2. exact Hn2.
    - apply Qmult_le_l; [apply pow2_gt0|].
      rewrite pow2_inject by lia. rewrite <- Zle_Qle. exact Hd1. }
  destruct (Qle_bool (pow2 (ln - ld)) (n # d)) eqn:E.
  - split; [apply Qle_bool_iff, E|exact Hup].
  - split; [exact Hlow|].
    replace (ln - ld - 1 + 1)%Z with (ln - ld)%Z by lia.
    apply Qnot_le_lt. intros C. apply Qle_bool_iff in C. congruence.
Qed.

Lemma ilog2_mono q1 q2 : 0 < q1 -> q1 <= q2 -> (ilog2 q1 <= ilog2 q2)%Z.
Proof.
  intros H1 H. assert (H2 : 0 < q2) by (eapply Qlt_le_trans; eauto).
  destruct (ilog2_spec q1 H1) as [L1 _]. destruct (ilog2_spec q2 H2) as [_ U2].
  destruct (Z_le_gt_dec (ilog2 q1) (ilog2 q2)) as [|C]; [assumption|exfalso].
  apply (Qlt_not_le _ _ U2).
  apply Qle_trans with (pow2 (ilog2 q1)); [apply pow2_le; lia|].
  apply Qle_trans with (1 := L1). exact H.
Qed.

(** *** The rounded value *)

Lemma scaled_le q a e :
  (e <= a)%Z -> q <= pow2 a ->
  inject_Z (rne (q * pow2 (- e))) * pow2 e <= pow2 a.
Proof.
  intros He H.
  assert (Hm : (rne (q * pow2 (- e)) <= 2 ^ (a - e))%Z).
  { apply rne_le. rewrite <- pow2_inject by lia.
    replace (a - e)%Z with (a + - e)%Z by lia. rewrite pow2_add.
    apply Qmult_le_compat_r; [exact H|apply Qlt_le_weak, pow2_gt0]. }
  apply Qle_trans with (inject_Z (2 ^ (a - e)) * pow2 e).
  - apply Qmult_le_compat_r; [|apply Qlt_le_weak, pow2_gt0].
    rewrite <- Zle_Qle. exact Hm.
  - rewrite <- pow2_inject by lia. rewrite <- pow2_add.
    replace (a - e + e)%Z with a by lia. apply Qle_refl.
Qed.

Lemma scaled_ge q a e :
  (e <= a)%Z -> pow2 a <= q ->
  pow2 a <= inject_Z (rne (q * pow2 (- e))) * pow2 e.
Proof.
  intros He H.
  assert (Hm : (2 ^ (a - e) <= rne (q * pow2 (- e)))%Z).
  { apply rne_ge. rewrite <- pow2_inject by lia.
    replace (a - e)%Z with (a + - e)%Z by lia. rewrite pow2_add.
    apply Qmult_le_compat_r; [exact H|apply Qlt_le_weak, pow2_gt0]. }
  apply Qle_trans with (inject_Z (2 ^ (a - e)) * pow2 e).
  - rewrite <- pow2_inject by lia. rewrite <- pow2_add.
    replace (a - e + e)%Z with a by lia. apply Qle_refl.
  - apply Qmult_le_compat_r; [|apply Qlt_le_weak, pow2_gt0].
    rewrite <- Zle_Qle. exact Hm.
Qed.

Abbreviation exponent q := (Z.max (ilog2 q - (prec - 1)) emin).
Abbreviation value q :=
  (inject_Z (rne (q * pow2 (- exponent q))) * pow2 (exponent q)).

Lemma value_mono q1 q2 : 0 < q1 -> q1 <= q2 -> value q1 <= value q2.
Proof.
  intros H1 H. assert (H2 : 0 < q2) by (eapply Qlt_le_trans; eauto).
  assert (Hl := ilog2_mono _ _ H1 H).
  destruct (ilog2_spec q1 H1) as [_ U1]. destruct (ilog2_spec q2 H2) as [L2 _].
  set (l1 := ilog2 q1) in *. set (l2 := ilog2 q2) in *.
  destruct (Z.eq_dec (Z.max (l1 - (prec - 1)) emin) (Z.max (l2 - (prec - 1)) emin))
    as [E|E].
  - rewrite E. apply Qmult_le_compat_r; [|apply Qlt_le_weak, pow2_gt0].
    rewrite <- Zle_Qle. apply rne_mono.
    apply Qmult_le_compat_r; [exact H|apply Qlt_le_weak, pow2_gt0].
  - unfold prec, emin in *.
    apply Qle_trans with (pow2 l2).
    + apply scaled_le; [lia|].
      apply Qlt_le_weak, Qlt_le_trans with (1 := U1). apply pow2_le. lia.
    + apply scaled_ge; [lia|exact L2].
Qed.

Lemma value_nonneg q : 0 < q -> 0 <= value q.
Proof.
  intros H. apply Qmult_le_0_compat; [|apply Qlt_le_weak, pow2_gt0].
  change 0 with (inject_Z 0). rewrite <- Zle_Qle. apply rne_ge.
  apply Qmult_le_0_compat; apply Qlt_le_weak; [exact H|apply pow2_gt0].
Qed.

(** Go's [<=] on two float64 values holds. *)
Abbreviation fle x y := (fleb x y = true).

Lemma round_pos_mono q1 q2 :
  0 < q1 -> q1 <= q2 -> fle (round_pos q1) (round_pos q2).
Proof.
  intros H1 H. assert (Hv := value_mono _ _ H1 H).
  unfold round_pos. cbv zeta.
  apply Qred_le in Hv.
  destruct (Qle_bool (pow2 emax) (Qred (value q2))) eqn:E2.
  - destruct (Qle_bool (pow2 emax) (Qred (value q1))); reflexivity.
  - destruct (Qle_bool (pow2 emax) (Qred (value q1))) eqn:E1.
    + apply Qle_bool_iff in E1.
      assert (C : Qle_bool (pow2 emax) (Qred (value q2)) = true)
        by (apply Qle_bool_iff; eapply Qle_trans; eauto).
      congruence.
    + cbn. apply Qle_bool_iff. exact Hv.
Qed.

Lemma round_pos_nonneg q : 0 < q -> fle zero (round_pos q).
Proof.
  intros H. assert (Hv := value_nonneg _ H).
  unfold round_pos. cbv zeta.
  destruct (Qle_bool (pow2 emax) (Qred (value q))); [reflexivity|].
  cbn. apply Qle_bool_iff. rewrite Qred_correct. exact Hv.
Qed.

Lemma Qnum_pos q p : Qnum q = Z.pos p -> 0 < q.
Proof. intros E. unfold Qlt. cbn. lia. Qed.

Lemma Qnum_zero q : Qnum q = 0%Z -> q == 0.
Proof. intros E. unfold Qeq. cbn. lia. Qed.

Lemma Qnum_neg q p : Qnum q = Z.neg p -> q < 0.
Proof. intros E. unfold Qlt. cbn. lia. Qed.

(** Rounding is monotone on the non-negative rationals. *)
Lemma round_mono q1 q2 : 0 <= q1 -> q1 <= q2 -> fle (round q1) (round q2).
Proof.
  intros H1 H. unfold round.
  destruct (Qnum q1) as [|p1|p1] eqn:E1.
  - destruct (Qnum q2) as [|p2|p2] eqn:E2.
    + reflexivity.
    + apply round_pos_nonneg. eapply Qnum_pos; eauto.
    + exfalso. apply Qnum_neg in E2.
      apply (Qlt_not_le _ _ E2). eapply Qle_trans; eauto.
  - apply Qnum_pos in E1.
    assert (H2 : 0 < q2) by (eapply Qlt_le_trans; eauto).
    destruct (Qnum q2) as [|p2|p2] eqn:E2.
    + apply Qnum_zero in E2. rewrite E2 in H2. discriminate H2.
    + apply round_pos_mono; assumption.
    + apply Qnum_neg in E2. exfalso. apply (Qlt_not_le _ _ E2), Qlt_le_weak, H2.
  - apply Qnum_neg in E1. exfalso. exact (Qlt_not_le _ _ E1 H1).
Qed.

(** *** The order on float64 *)

Lemma fle_trans x y z : fle x y -> fle y z -> fle x z.
Proof.
  destruct x as [a| | |], y as [b| | |], z as [c| | |]; cbn; try congruence.
  rewrite !Qle_bool_iff. apply Qle_trans.
Qed.

Lemma fle_zero_inv x : fle zero x -> (exists a, x = Fin a /\ 0 <= a) \/ x = PInf.
Proof.
  destruct x as [a| | |]; cbn; try congruence; [|auto].
  rewrite Qle_bool_iff. eauto.
Qed.

Lemma fle_one_inv x : fle one x -> (exists a, x = Fin a /\ 1 <= a) \/ x = PInf.
Proof.
  destruct x as [a| | |]; cbn; try congruence; [|auto].
  rewrite Qle_bool_iff. eauto.
Qed.

Lemma fle_Fin a b : fle (Fin a) (Fin b) <-> a <= b.
Proof. cbn. apply Qle_bool_iff. Qed.

Lemma round_not_NaN q : fle (round q) PInf.
Proof.
  unfold round, round_pos. cbv zeta.
  destruct (Qnum q); [reflexivity|..];
    match goal with |- context [if ?c then _ else _] => destruct c end; reflexivity.
Qed.

(** A rational between two representable numbers rounds between
    them. *)
Lemma round_range lo hi q :
  round lo = Fin lo -> round hi = Fin hi ->
  0 <= lo -> lo <= q -> q <= hi ->
  exists a, round q = Fin a /\ lo <= a <= hi.
Proof.
  intros Elo Ehi H0 H1 H2.
  assert (L := round_mono _ _ H0 H1).
  assert (U := round_mono q hi ltac:(eapply Qle_trans; eauto) H2).
  rewrite Elo in L. rewrite Ehi in U.
  destruct (round q) as [a| | |]; cbn in L, U; try congruence.
  apply Qle_bool_iff in L, U. eauto.
Qed.

End Rounding.

(** ** The credential score *)

Section ScoreProofs.

Import F64 Router Score.
Local Open Scope Q_scope.

Abbreviation fle x y := (fleb x y = true).
Abbreviation unit x := (exists u, x = Fin u /\ 0 <= u <= 1).
Abbreviation top := (inject_Z (2 ^ 126)).
Abbreviation bounded x := (exists a, x = Fin a /\ 0 <= a <= top).
Abbreviation penalty x := (fdiv one (fadd one x)).

Lemma round_1 : round 1 = Fin 1.
Proof. vm_compute. reflexivity. Qed.

Lemma fdiv_pos a b : 0 < b -> fdiv (Fin a) (Fin b) = round (a / b).
Proof.
  intros H. unfold fdiv.
  destruct (Qnum b) as [|p|p] eqn:E; [|reflexivity..].
  apply Qnum_zero in E. rewrite E in H. discriminate H.
Qed.

Lemma Qdiv_nonneg a b : 0 <= a -> 0 < b -> 0 <= a / b.
Proof.
  intros Ha Hb. apply Qle_shift_div_l; [exact Hb|]. rewrite Qmult_0_l. exact Ha.
Qed.

Lemma Qdiv_le_compat a1 a2 b : 0 < b -> a1 <= a2 -> a1 / b <= a2 / b.
Proof.
  intros Hb H. apply Qmult_le_compat_r; [exact H|].
  apply Qinv_le_0_compat, Qlt_le_weak, Hb.
Qed.

Lemma Qdiv_anti b1 b2 : 0 < b1 -> b1 <= b2 -> 1 / b2 <= 1 / b1.
Proof.
  intros H1 H. assert (H2 : 0 < b2) by (eapply Qlt_le_trans; eauto).
  apply Qle_shift_div_l; [exact H1|].
  apply Qle_trans with (1 / b2 * b2).
  - apply Qmult_le_l; [|exact H].
    apply Qlt_shift_div_l; [exact H2|]. rewrite Qmult_0_l. reflexivity.
  - rewrite Qmult_comm, Qmult_div_r; [apply Qle_refl|].
    intros C. rewrite C in H2. discriminate H2.
Qed.

Lemma of_Z_nonneg z : (0 <= z)%Z -> fle zero (of_Z z).
Proof.
  intros H. apply (round_mono 0 (inject_Z z)); [apply Qle_refl|].
  change 0 with (inject_Z 0). rewrite <- Zle_Qle. exact H.
Qed.

Lemma of_Z_mono a b : (0 <= a <= b)%Z -> fle (of_Z a) (of_Z b).
Proof.
  intros H. apply round_mono.
  - change 0 with (inject_Z 0). rewrite <- Zle_Qle. lia.
  - rewrite <- Zle_Qle. lia.
Qed.

Lemma of_Z_range lo z :
  round (inject_Z lo) = Fin (inject_Z lo) ->
  (0 <= lo <= z)%Z -> (z <= 2 ^ 63)%Z ->
  exists a, of_Z z = Fin a /\ inject_Z lo <= a <= inject_Z (2 ^ 63).
Proof.
  intros E H1 H2. apply round_range.
  - exact E.
  - vm_compute. reflexivity.
  - change 0 with (inject_Z 0). rewrite <- Zle_Qle. lia.
  - rewrite <- Zle_Qle. lia.
  - rewrite <- Zle_Qle. lia.
Qed.

(** *** One penalty factor *)

Lemma one_plus x : fle zero x -> fle one (fadd one x).
Proof.
  intros H. destruct (fle_zero_inv _ H) as [(a & -> & Ha)| ->]; [|reflexivity].
  unfold one, fadd. rewrite <- round_1. apply round_mono; [discriminate|].
  rewrite <- (Qplus_0_r 1) at 1. apply Qplus_le_r. exact Ha.
Qed.

Lemma one_plus_mono x y :
  fle zero x -> fle x y -> fle (fadd one x) (fadd one y).
Proof.
  intros H0 H. destruct (fle_zero_inv _ H0) as [(a & -> & Ha)| ->].
  - destruct y as [b| | |]; try discriminate H.
    + apply fle_Fin in H. unfold one, fadd. apply round_mono.
      * apply Qle_trans with (1 + 0); [discriminate|]. apply Qplus_le_r, Ha.
      * apply Qplus_le_r, H.
    + unfold one, fadd. apply round_not_NaN.
  - destruct y; try discriminate H. reflexivity.
Qed.

Lemma recip_unit y : fle one y -> unit (fdiv one y).
Proof.
  intros H. destruct (fle_one_inv _ H) as [(b & -> & Hb)| ->].
  - assert (Hp : 0 < b) by (eapply Qlt_le_trans; [|exact Hb]; reflexivity).
    unfold one. rewrite fdiv_pos by exact Hp.
    apply round_range; [reflexivity|exact round_1|discriminate|..].
    + apply Qdiv_nonneg; [discriminate|exact Hp].
    + apply Qle_shift_div_r; [exact Hp|]. rewrite Qmult_1_l. exact Hb.
  - exists 0. split; [reflexivity|]. split; discriminate.
Qed.

Lemma recip_anti y1 y2 :
  fle one y1 -> fle y1 y2 -> fle (fdiv one y2) (fdiv one y1).
Proof.
  intros H1 H. destruct (fle_one_inv _ H1) as [(b1 & -> & Hb1)| ->].
  - assert (Hp1 : 0 < b1) by (eapply Qlt_le_trans; [|exact Hb1]; reflexivity).
    destruct y2 as [b2| | |]; try discriminate H.
    + apply fle_Fin in H.
      assert (Hp2 : 0 < b2) by (eapply Qlt_le_trans; eauto).
      unfold one. rewrite !fdiv_pos by assumption.
      apply round_mono; [|apply Qdiv_anti; assumption].
      apply Qdiv_nonneg; [discriminate|exact Hp2].
    + destruct (recip_unit _ H1) as (u & -> & Hu & _).
      cbn. apply Qle_bool_iff, Hu.
  - destruct y2; try discriminate H. reflexivity.
Qed.

Lemma penalty_unit x : fle zero x -> unit (penalty x).
Proof. intros H. apply recip_unit, one_plus, H. Qed.

Lemma penalty_anti x y :
  fle zero x -> fle x y -> fle (penalty y) (penalty x).
Proof.
  intros H0 H. apply recip_anti; [apply one_plus, H0|apply one_plus_mono; assumption].
Qed.

(** *** The latency penalty *)

Abbreviation latPenalty e :=
  (if fltb zero e then penalty (fdiv e c2500) else one).

Lemma c2500_eq : c2500 = Fin (inject_Z 2500).
Proof. vm_compute. reflexivity. Qed.

Lemma latency_ratio_nonneg e : fle zero e -> fle zero (fdiv e c2500).
Proof.
  intros H. rewrite c2500_eq.
  destruct (fle_zero_inv _ H) as [(a & -> & Ha)| ->]; [|reflexivity].
  rewrite fdiv_pos by reflexivity.
  apply (round_mono 0); [apply Qle_refl|].
  apply Qdiv_nonneg; [exact Ha|reflexivity].
Qed.

Lemma latency_ratio_mono e1 e2 :
  fle zero e1 -> fle e1 e2 -> fle (fdiv e1 c2500) (fdiv e2 c2500).
Proof.
  intros H0 H. rewrite c2500_eq.
  destruct (fle_zero_inv _ H0) as [(a & -> & Ha)| ->].
  - destruct e2 as [b| | |]; try discriminate H.
    + apply fle_Fin in H. rewrite !fdiv_pos by reflexivity.
      apply round_mono; [apply Qdiv_nonneg; [exact Ha|reflexivity]|].
      apply Qdiv_le_compat; [reflexivity|exact H].
    + rewrite fdiv_pos by reflexivity. apply round_not_NaN.
  - destruct e2; try discriminate H. reflexivity.
Qed.

(** On a latency average that is not negative the branch of the code
    and the formula of the specification agree. *)
Lemma latPenalty_formula e :
  fle zero e -> latPenalty e = penalty (fdiv e (of_Z 2500)).
Proof.
  intros H. destruct (fltb zero e) eqn:E; [reflexivity|].
  destruct e as [[n d]| | |]; try discriminate H; try discriminate E.
  cbn in H, E. apply negb_false_iff in E.
  apply Qle_bool_iff in H, E. unfold Qle in H, E. cbn in H, E.
  assert (n = 0%Z) by lia. subst n.
  vm_compute. reflexivity.
Qed.

(** *** The product *)

Lemma fmul_le a1 a2 u1 u2 :
  0 <= a1 -> a1 <= a2 -> 0 <= u1 -> u1 <= u2 ->
  fle (fmul (Fin a1) (Fin u1)) (fmul (Fin a2) (Fin u2)).
Proof.
  intros Ha H1 Hu H2. cbn [fmul]. apply round_mono.
  - apply Qmult_le_0_compat; assumption.
  - apply Qmult_le_compat_nonneg; split; assumption.
Qed.

Lemma fmul_bounded x u : bounded x -> unit u -> bounded (fmul x u).
Proof.
  intros (a & -> & Ha & Hb) (v & -> & Hv & Hw). cbn [fmul].
  apply round_range.
  - reflexivity.
  - vm_compute. reflexivity.
  - apply Qle_refl.
  - apply Qmult_le_0_compat; assumption.
  - apply Qle_trans with (a * 1).
    + apply Qmult_le_compat_nonneg; split; try assumption. apply Qle_refl.
    + rewrite Qmult_1_r. exact Hb.
Qed.

Lemma fmul_mono x1 x2 u1 u2 :
  bounded x1 -> bounded x2 -> unit u1 -> unit u2 ->
  fle x1 x2 -> fle u1 u2 -> fle (fmul x1 u1) (fmul x2 u2).
Proof.
  intros (a1 & -> & Ha1 & _) (a2 & -> & _) (v1 & -> & Hv1 & _) (v2 & -> & _) Hx Hu.
  apply fle_Fin in Hx, Hu. apply fmul_le; assumption.
Qed.

Lemma fle_refl_bounded x : bounded x -> fle x x.
Proof. intros (a & -> & _). apply fle_Fin, Qle_refl. Qed.

(** [weight × health] is finite. *)
Lemma base_bounded w s t :
  (0 < w < 2 ^ 63)%Z -> (0 <= s < 2 ^ 63 - 1)%Z -> (0 <= t < 2 ^ 63 - 2)%Z ->
  bounded (fmul (of_Z w) (fdiv (of_Z (s + 1)) (of_Z (t + 2)))).
Proof.
  intros Hw Hs Ht.
  destruct (of_Z_range 0 w eq_refl) as (a & -> & Ha1 & Ha2); [lia..|].
  destruct (of_Z_range 0 (s + 1) eq_refl) as (b & -> & Hb1 & Hb2); [lia..|].
  destruct (of_Z_range 1 (t + 2) round_1) as (c & -> & Hc1 & Hc2); [lia..|].
  assert (Hc : 0 < c) by (eapply Qlt_le_trans; [|exact Hc1]; reflexivity).
  rewrite fdiv_pos by exact Hc.
  destruct (round_range 0 (inject_Z (2 ^ 63)) (b / c)) as (h & -> & Hh1 & Hh2).
  - reflexivity.
  - vm_compute. reflexivity.
  - apply Qle_refl.
  - apply Qdiv_nonneg; assumption.
  - apply Qle_shift_div_r; [exact Hc|].
    apply Qle_trans with (1 := Hb2).
    rewrite <- (Qmult_1_r (inject_Z (2 ^ 63))) at 1.
    apply Qmult_le_l; [reflexivity|exact Hc1].
  - cbn [fmul]. apply round_range.
    + reflexivity.
    + vm_compute. reflexivity.
    + apply Qle_refl.
    + apply Qmult_le_0_compat; assumption.
    + apply Qle_trans with (inject_Z (2 ^ 63) * inject_Z (2 ^ 63)).
      * apply Qmult_le_compat_nonneg; split; assumption.
      * apply Qle_bool_iff. vm_compute. reflexivity.
Qed.

Lemma product_mono base f1 f2 l1 l2 i1 i2 :
  bounded base ->
  unit f1 -> unit f2 -> unit l1 -> unit l2 -> unit i1 -> unit i2 ->
  fle f1 f2 -> fle l1 l2 -> fle i1 i2 ->
  fle (fmul (fmul (fmul base f1) l1) i1) (fmul (fmul (fmul base f2) l2) i2).
Proof.
  intros Hb Uf1 Uf2 Ul1 Ul2 Ui1 Ui2 Hf Hl Hi.
  apply fmul_mono; try assumption; try (repeat apply fmul_bounded; assumption).
  apply fmul_mono; try assumption; try (repeat apply fmul_bounded; assumption).
  apply fmul_mono; try assumption. apply fle_refl_bounded, Hb.
Qed.

Lemma credentialScore_unseen r id w :
  credState r !! id = None -> (0 < w)%Z ->
  credentialScore r id w = fdiv (of_Z w) (fadd one (of_Z 0)).
Proof.
  intros H Hw. unfold credentialScore, getInflight. rewrite H.
  destruct (Z.leb_spec w 0); [lia|reflexivity].
Qed.

Lemma credentialScore_formula r id w st :
  credState r !! id = Some st ->
  (0 < w)%Z ->
  (0 <= successes st < 2 ^ 63 - 1)%Z ->
  (0 <= total st < 2 ^ 63 - 2)%Z ->
  fle zero (ewmaLatency st) ->
  credentialScore r id w = score_formula w st.
Proof.
  intros H Hw Hs Ht He. unfold credentialScore, score_formula, getInflight.
  rewrite H. destruct (Z.leb_spec w 0); [lia|].
  rewrite !wrap64_small by lia.
  rewrite (latPenalty_formula _ He). reflexivity.
Qed.

Lemma score_formula_mono w worse better :
  (0 < w < 2 ^ 63)%Z ->
  (0 <= successes worse < 2 ^ 63 - 1)%Z ->
  (0 <= total worse < 2 ^ 63 - 2)%Z ->
  improves worse better ->
  fle (score_formula w worse) (score_formula w better).
Proof.
  intros Hw Hs Ht (Es & Et & Hf & Hi & He0 & He).
  assert (He1 : fle zero (ewmaLatency worse)) by (eapply fle_trans; eauto).
  unfold score_formula. cbv zeta. rewrite Es, Et.
  change (of_Z 2500) with c2500.
  apply product_mono.
  - apply base_bounded; assumption.
  - apply penalty_unit, of_Z_nonneg. lia.
  - apply penalty_unit, of_Z_nonneg. lia.
  - apply penalty_unit, latency_ratio_nonneg, He1.
  - apply penalty_unit, latency_ratio_nonneg, He0.
  - apply penalty_unit, of_Z_nonneg. lia.
  - apply penalty_unit, of_Z_nonneg. lia.
  - apply penalty_anti; [apply of_Z_nonneg|apply of_Z_mono]; lia.
  - apply penalty_anti; [apply latency_ratio_nonneg, He0|apply latency_ratio_mono; assumption].
  - apply penalty_anti; [apply of_Z_nonneg|apply of_Z_mono]; lia.
Qed.

(** C8, amended. A credential the registry holds no health state for
    scores [weight / (1 + 0)], with no health factor.  For a credential
    with a health state, a weight in [1, 2^63), success and total
    counts that are not negative and a latency average that is not
    negative, the score is the float64 product
    [weight × health × failPenalty × latencyPenalty × inflightPenalty]
    with [health = (successes+1)/(total+2)]; and, the other fields
    being the same, a state with fewer consecutive failures, a lower
    latency average or fewer requests in flight (none of them negative)
    never has the lower score. *)
Theorem credentialScore_product_monotone (r r' : Router) (id : N) (w : Z)
    (worse better : credentialState) :
  credState r !! id = Some worse ->
  credState r' !! id = Some better ->
  (0 < w < 2 ^ 63)%Z ->
  (0 <= successes worse < 2 ^ 63 - 1)%Z ->
  (0 <= total worse < 2 ^ 63 - 2)%Z ->
  improves worse better ->
  (forall r0, credState r0 !! id = None ->
              credentialScore r0 id w = fdiv (of_Z w) (fadd one (of_Z 0)))
  /\ credentialScore r id w = score_formula w worse
  /\ credentialScore r' id w = score_formula w better
  /\ fleb (credentialScore r id w) (credentialScore r' id w) = true.
Proof.
  intros H H' Hw Hs Ht Hi.
  assert (Hi' := Hi). destruct Hi' as (Es & Et & _ & _ & He0 & He).
  assert (He1 : fle zero (ewmaLatency worse)) by (eapply fle_trans; eauto).
  assert (F : credentialScore r id w = score_formula w worse)
    by (apply credentialScore_formula; [assumption|lia|assumption..]).
  assert (F' : credentialScore r' id w = score_formula w better)
    by (apply credentialScore_formula; [assumption|lia|rewrite ?Es, ?Et; assumption..]).
  split; [|split; [exact F|split; [exact F'|]]].
  - intros r0 H0. apply credentialScore_unseen; [exact H0|lia].
  - rewrite F, F'. apply score_formula_mono; assumption.
Qed.

End ScoreProofs.

Lemma credentialScore_product_monotone_witness :
  Router.credentialScore Sample.router0 1 2 = F64.Fin (2 # 1)
  /\ Router.credentialScore (Sample8.holding Sample8.worse) 1 2
     = Score.score_formula 2 Sample8.worse
  /\ Router.credentialScore (Sample8.holding Sample8.better) 1 2
     = Score.score_formula 2 Sample8.better
  /\ F64.fleb (Router.credentialScore (Sample8.holding Sample8.worse) 1 2)
       (Router.credentialScore (Sample8.holding Sample8.better) 1 2) = true.
Proof.
  destruct (credentialScore_product_monotone
              (Sample8.holding Sample8.worse) (Sample8.holding Sample8.better)
              1%N 2 Sample8.worse Sample8.better) as (U & F & F' & M).
  - vm_compute. reflexivity.
  - vm_compute. reflexivity.
  - lia.
  - cbn. lia.
  - cbn. lia.
  - unfold Score.improves. cbn. repeat split; try lia; vm_compute; reflexivity.
  - split; [|split; [exact F|split; [exact F'|exact M]]].
    rewrite (U Sample.router0 eq_refl). vm_compute. reflexivity.
Defined.

(** C8 as stated fails on a credential the registry has not seen: its
    score is the weight, where the product on the zero state is half of
    it. *)
Lemma credentialScore_counterexample : ~ Score.score_as_stated.
Proof.
  intros H. specialize (H Sample.router0 1%N 1%Z ltac:(lia)).
  vm_compute in H. discriminate H.
Qed.

(** * Further properties of the code *)

(** ** The health registry *)

Section Health.

Import Router.

Lemma wrap64_add_l a b : wrap64 (wrap64 a + b) = wrap64 (a + b).
Proof.
  unfold wrap64. f_equal.
  set (m := 2 ^ 64). set (h := 2 ^ 63).
  replace ((a + h) mod m - h + b + h) with ((a + h) mod m + b) by ring.
  rewrite Zplus_mod_idemp_l. f_equal. ring.
Qed.

Lemma getInflight_loadOrStore r id : inflight (loadOrStore r id) = getInflight r id.
Proof. unfold loadOrStore, getInflight. destruct (credState r !! id); reflexivity. Qed.

Lemma getInflight_EndRequest r now id ok status latency :
  id <> 0%N ->
  getInflight (EndRequest r now id ok status latency) id
  = wrap64 (getInflight r id - 1).
Proof.
  intros Hid. unfold EndRequest.
  destruct (N.eqb_spec id 0) as [->|_]; [congruence|].
  rewrite getInflight_loadOrStore.
  destruct (is_success ok status); unfold getInflight; cbn [credState set_credState];
    rewrite lookup_insert_eq; reflexivity.
Qed.

Lemma getInflight_startRequest r id :
  getInflight (startRequest r id) id = wrap64 (getInflight r id + 1).
Proof.
  unfold startRequest. rewrite getInflight_loadOrStore.
  unfold getInflight. cbn [credState set_credState].
  rewrite lookup_insert_eq. reflexivity.
Qed.

(** X1. A request that is started and then ended, whatever its
    outcome, leaves the credential's inflight counter where it was. *)
Theorem startRequest_EndRequest_inflight r now id ok status latency :
  id <> 0%N ->
  - 2 ^ 63 <= getInflight r id < 2 ^ 63 ->
  getInflight (EndRequest (startRequest r id) now id ok status latency) id
  = getInflight r id.
Proof.
  intros Hid Hr.
  rewrite getInflight_EndRequest by exact Hid.
  rewrite getInflight_startRequest.
  replace (wrap64 (getInflight r id + 1) - 1)
    with (wrap64 (getInflight r id + 1) + -1) by lia.
  rewrite wrap64_add_l.
  replace (getInflight r id + 1 + -1) with (getInflight r id) by lia.
  apply wrap64_small. exact Hr.
Qed.

End Health.

Lemma startRequest_EndRequest_inflight_witness :
  Router.getInflight
    (Router.EndRequest (Router.startRequest (Sample8.holding Sample8.worse) 1)
       5 1 false 500 7) 1
  = 2.
Proof.
  apply (startRequest_EndRequest_inflight (Sample8.holding Sample8.worse) 5 1%N
           false 500 7).
  - discriminate.
  - vm_compute. split; congruence.
Defined.

(** ** Picking a credential *)

Section Picking.

Import Router.

Abbreviation legacy_ids pool :=
  (if String.eqb (pool_Strategy pool) "weighted_rr"
      && negb (Nat.eqb (length (pool_ExpandedCredentialIDs pool)) 0)
   then pool_ExpandedCredentialIDs pool
   else pool_CredentialIDs pool).

(** The ways through [pickCredentialFromPool]: a hit in the stickiness
    cache, or, with the cache as it is or less an expired entry, the
    tiers or the legacy rotation. *)
Lemma pickCredentialFromPool_elim r cfg pool facade model exclude now
    (P : Router * option N -> Prop) :
  let avail := isAvailable r cfg exclude now in
  let key := routeKey (pool_ID pool) facade model in
  let after r1 :=
    (r1 = r
     /\ (routeCache r !! key = None
         \/ exists ent, routeCache r !! key = Some ent
                        /\ (now <? expiresAt ent) = true))
    \/ exists ent, routeCache r !! key = Some ent
                   /\ (now <? expiresAt ent) = false
                   /\ r1 = set_routeCache r (delete key (routeCache r)) in
  (forall ent, routeCache r !! key = Some ent ->
               (now <? expiresAt ent) = true ->
               avail (credentialID ent) = true ->
               P (r, Some (credentialID ent))) ->
  (forall r1 t ts, after r1 -> pool_Tiers pool = t :: ts ->
                   P (pickFromTiers r1 cfg pool model avail (t :: ts))) ->
  (forall r1, after r1 -> pool_Tiers pool = [] -> legacy_ids pool = [] ->
              P (r1, None)) ->
  (forall r1 x xs, after r1 -> pool_Tiers pool = [] -> legacy_ids pool = x :: xs ->
                   P (fst (bumpCounter r1 (pool_ID pool)),
                      scanFrom avail (x :: xs) (snd (bumpCounter r1 (pool_ID pool)))
                        (N.of_nat (length (x :: xs))) 0 (length (x :: xs)))) ->
  P (pickCredentialFromPool r cfg pool facade model exclude now).
Proof.
  intros avail key after Hhit Htiers Hnone Hscan.
  unfold pickCredentialFromPool. fold avail. fold key.
  assert (Hrest : forall r1, after r1 ->
    P match pool_Tiers pool with
      | [] =>
          match legacy_ids pool with
          | [] => (r1, None)
          | _ :: _ =>
              let '(r2, count) := bumpCounter r1 (pool_ID pool) in
              (r2, scanFrom avail (legacy_ids pool) count
                     (N.of_nat (length (legacy_ids pool))) 0
                     (length (legacy_ids pool)))
          end
      | _ :: _ => pickFromTiers r1 cfg pool model avail (pool_Tiers pool)
      end).
  { intros r1 Hr1. destruct (pool_Tiers pool) as [|t ts] eqn:Et.
    - destruct (legacy_ids pool) as [|x xs] eqn:Ei.
      + apply Hnone; auto.
      + apply (Hscan r1 x xs); auto.
    - apply Htiers; auto. }
  destruct (routeCache r !! key) as [ent|] eqn:Ek.
  - destruct (now <? expiresAt ent) eqn:Ee.
    + destruct (avail (credentialID ent)) eqn:Ea; cbn [andb negb].
      * apply Hhit; auto.
      * apply Hrest. left. split; [reflexivity|]. right. exists ent. auto.
    + cbn [andb negb]. apply Hrest. right. exists ent. auto.
  - apply Hrest. left. split; [reflexivity|]. left. reflexivity.
Qed.

(** *** What is picked is available *)

Lemma bestOf_avail r cfg avail creds best cid sc :
  (forall c s, best = Some (c, s) -> avail c = true) ->
  bestOf r cfg avail creds best = Some (cid, sc) -> avail cid = true.
Proof.
  revert best. induction creds as [|c rest IH]; intros best Hb H; cbn [bestOf] in H.
  - eapply Hb, H.
  - destruct (avail c) eqn:Ec; cbn [negb] in H; [|eapply IH; eauto].
    destruct best as [[b bs]|].
    + destruct (F64.fltb _ _); eapply IH; try exact H.
      * intros c' s' E. injection E as <- <-. exact Ec.
      * exact Hb.
    + eapply IH; [|exact H]. intros c' s' E. injection E as <- <-. exact Ec.
Qed.

Lemma pickBestKey_avail r cfg pool model avail provID cid sc :
  pickBestKey r cfg pool model avail provID = Some (cid, sc) -> avail cid = true.
Proof.
  unfold pickBestKey. destruct (providers cfg !! provID); [|discriminate].
  destruct (negb _); [discriminate|].
  apply bestOf_avail. discriminate.
Qed.

Lemma firstByPriority_avail (avail : N -> bool) pick items cid :
  (forall p c s, pick p = Some (c, s) -> avail c = true) ->
  firstByPriority pick items = Some cid -> avail cid = true.
Proof.
  intros Hp. induction items as [|it rest IH]; cbn [firstByPriority]; [discriminate|].
  destruct (pick (item_ProviderID it)) as [[c s]|] eqn:E; [|exact IH].
  intros [= <-]. eapply Hp, E.
Qed.

Lemma weightedCandidates_avail (avail : N -> bool) pick items :
  (forall p c s, pick p = Some (c, s) -> avail c = true) ->
  Forall (fun c => avail (fst c) = true) (weightedCandidates pick items).
Proof.
  intros Hp. induction items as [|it rest IH]; cbn [weightedCandidates]; [constructor|].
  destruct (pick (item_ProviderID it)) as [[c s]|] eqn:E; [|exact IH].
  constructor; [|exact IH]. cbn. eapply Hp, E.
Qed.

Lemma drawCandidate_In p cur cands cid :
  drawCandidate p cur cands = Some cid -> In cid (map fst cands).
Proof.
  revert cur. induction cands as [|[c s] rest IH]; intros cur; cbn [drawCandidate];
    [discriminate|].
  destruct (F64.fleb _ _).
  - intros [= <-]. left. reflexivity.
  - intros H. right. eapply IH, H.
Qed.

Lemma last_In {A} (l : list A) (x d : A) : In (List.last (x :: l) d) (x :: l).
Proof.
  revert x. induction l as [|y l IH]; intros x; [left; reflexivity|].
  right. apply IH.
Qed.

Lemma pickFromTiers_avail r cfg pool model avail tiers cid :
  snd (pickFromTiers r cfg pool model avail tiers) = Some cid -> avail cid = true.
Proof.
  induction tiers as [|tier rest IH]; cbn [pickFromTiers]; [discriminate|].
  destruct (negb (tierAppliesToModel tier model)); [exact IH|].
  destruct (tier_Items tier) as [|it its]; [exact IH|].
  set (pick := pickBestKey r cfg pool model avail).
  assert (Hp : forall p c s, pick p = Some (c, s) -> avail c = true)
    by (intros p c s; apply pickBestKey_avail).
  destruct (String.eqb (tier_Strategy tier) "priority").
  - destruct (firstByPriority pick (it :: its)) as [c|] eqn:E; [|exact IH].
    intros [= <-]. eapply firstByPriority_avail; eauto.
  - assert (Hc := weightedCandidates_avail avail pick (it :: its) Hp).
    destruct (weightedCandidates pick (it :: its)) as [|c0 cs] eqn:E; [exact IH|].
    rewrite Forall_forall in Hc.
    destruct (F64.fleb _ _).
    + intros [= <-]. apply Hc. left.
    + cbn [bumpCounter].
      destruct (drawCandidate _ _ _) as [c|] eqn:Ed; intros [= <-].
      * apply drawCandidate_In in Ed. apply in_map_iff in Ed.
        destruct Ed as (x & <- & Hx). apply Hc, list_elem_of_In, Hx.
      * apply Hc, list_elem_of_In, last_In.
Qed.

Lemma scanFrom_avail avail ids count n i steps cid :
  scanFrom avail ids count n i steps = Some cid -> avail cid = true.
Proof.
  revert i. induction steps as [|k IH]; intros i; cbn [scanFrom]; [discriminate|].
  set (c := default 0%N (ids !! N.to_nat (wrapU64 (count + i) mod n)%N)).
  destruct (avail c) eqn:E; [|apply IH].
  intros [= <-]. exact E.
Qed.

Lemma pickCredentialFromPool_avail r cfg pool facade model exclude now cid :
  snd (pickCredentialFromPool r cfg pool facade model exclude now) = Some cid ->
  isAvailable r cfg exclude now cid = true.
Proof.
  apply (pickCredentialFromPool_elim r cfg pool facade model exclude now
           (fun res => snd res = Some cid -> isAvailable r cfg exclude now cid = true)).
  - intros ent _ _ Ha [= <-]. exact Ha.
  - intros r1 t ts _ _. apply pickFromTiers_avail.
  - intros r1 _ _ _. discriminate.
  - intros r1 x xs _ _ _. apply scanFrom_avail.
Qed.

Lemma pickUpstream_picked r cfg clientKey facade model exclude now r' up :
  pickUpstream r (Some cfg) clientKey facade model exclude now = (r', inr up) ->
  exists pool r1,
    poolByClientKey cfg !! clientKey = Some pool
    /\ pickCredentialFromPool r cfg pool facade model exclude now
       = (r1, Some (CredentialID up))
    /\ r' = startRequest r1 (CredentialID up).
Proof.
  unfold pickUpstream.
  destruct (_ || _); [discriminate|].
  destruct (poolByClientKey cfg !! clientKey) as [pool|]; [|discriminate].
  destruct (pickCredentialFromPool r cfg pool facade model exclude now)
    as [r1 [credID|]] eqn:E; [|discriminate].
  destruct (cipher r1 _) as [apiKey|]; [|discriminate].
  intros H. injection H as <- <-. exists pool, r1. cbn. auto.
Qed.

Lemma isAvailable_true r cfg exclude now id :
  isAvailable r cfg exclude now id = true ->
  exclude !! id <> Some true
  /\ exists cred,
       credentials cfg !! id = Some cred
       /\ cred_Enabled cred = true
       /\ isCredentialOpen r id now = false
       /\ (0 < cred_ConcurrencyLimit cred ->
           getInflight r id < cred_ConcurrencyLimit cred).
Proof.
  unfold isAvailable. intros H.
  assert (Hx : default false (exclude !! id) = false)
    by (destruct (default false (exclude !! id)); [discriminate H|reflexivity]).
  rewrite Hx in H.
  split; [intros E; rewrite E in Hx; discriminate Hx|].
  destruct (credentials cfg !! id) as [cred|]; [|discriminate H].
  exists cred.
  destruct (cred_Enabled cred); cbn [negb] in H; [|discriminate H].
  destruct (isCredentialOpen r id now); [discriminate H|].
  repeat split.
  intros Hl.
  destruct (Z.ltb_spec 0 (cred_ConcurrencyLimit cred)); [|lia].
  destruct (Z.leb_spec (cred_ConcurrencyLimit cred) (getInflight r id));
    [discriminate H|lia].
Qed.

Lemma pickUpstream_avail r cfg clientKey facade model exclude now r' up :
  pickUpstream r (Some cfg) clientKey facade model exclude now = (r', inr up) ->
  exclude !! CredentialID up <> Some true
  /\ exists cred,
       credentials cfg !! CredentialID up = Some cred
       /\ cred_Enabled cred = true
       /\ isCredentialOpen r (CredentialID up) now = false
       /\ (0 < cred_ConcurrencyLimit cred ->
           getInflight r (CredentialID up) < cred_ConcurrencyLimit cred).
Proof.
  intros H. destruct (pickUpstream_picked _ _ _ _ _ _ _ _ _ H) as (pool & r1 & _ & Hp & _).
  apply isAvailable_true.
  apply (pickCredentialFromPool_avail r cfg pool facade model exclude now).
  rewrite Hp. reflexivity.
Qed.

(** X2. The credential [pickUpstream] returns is never one the caller
    excluded; it is in the configuration and enabled, its circuit is not
    open at the time of the pick, and when it has a concurrency limit
    its inflight count before the pick is below it. *)
Theorem pickUpstream_available r cfg clientKey facade model exclude now r' up :
  pickUpstream r (Some cfg) clientKey facade model exclude now = (r', inr up) ->
  exclude !! CredentialID up <> Some true
  /\ exists cred,
       credentials cfg !! CredentialID up = Some cred
       /\ cred_Enabled cred = true
       /\ isCredentialOpen r (CredentialID up) now = false
       /\ (0 < cred_ConcurrencyLimit cred ->
           getInflight r (CredentialID up) < cred_ConcurrencyLimit cred).
Proof.
  intros H. destruct (pickUpstream_picked _ _ _ _ _ _ _ _ _ H) as (pool & r1 & _ & Hp & _).
  apply isAvailable_true.
  apply (pickCredentialFromPool_avail r cfg pool facade model exclude now).
  rewrite Hp. reflexivity.
Qed.

(** *** The pick and the health registry *)

Lemma pickFromTiers_credState r cfg pool model avail tiers :
  credState (fst (pickFromTiers r cfg pool model avail tiers)) = credState r.
Proof.
  induction tiers as [|tier rest IH]; [reflexivity|].
  cbn [pickFromTiers].
  destruct (negb (tierAppliesToModel tier model)); [exact IH|].
  destruct (tier_Items tier) as [|it its]; [exact IH|].
  destruct (String.eqb (tier_Strategy tier) "priority").
  - destruct (firstByPriority _ _); [reflexivity|exact IH].
  - destruct (weightedCandidates _ _) as [|c0 cs]; [exact IH|].
    destruct (F64.fleb _ _); [reflexivity|].
    cbn [bumpCounter].
    destruct (drawCandidate _ _ _); reflexivity.
Qed.

Lemma pickCredentialFromPool_credState r cfg pool facade model exclude now :
  credState (fst (pickCredentialFromPool r cfg pool facade model exclude now))
  = credState r.
Proof.
  apply (pickCredentialFromPool_elim r cfg pool facade model exclude now
           (fun res => credState (fst res) = credState r)).
  - reflexivity.
  - intros r1 t ts Hr1 _. rewrite pickFromTiers_credState.
    destruct Hr1 as [[-> _]|(ent & _ & _ & ->)]; reflexivity.
  - intros r1 Hr1 _ _. destruct Hr1 as [[-> _]|(ent & _ & _ & ->)]; reflexivity.
  - intros r1 x xs Hr1 _ _. destruct Hr1 as [[-> _]|(ent & _ & _ & ->)]; reflexivity.
Qed.

(** X3. A successful [pickUpstream] starts exactly one request: the
    inflight counter of the credential it returns goes up by one and no
    other credential's health state changes; a failed one leaves the
    health registry as it was. *)
Theorem pickUpstream_starts_one r cfg clientKey facade model exclude now :
  match pickUpstream r cfg clientKey facade model exclude now with
  | (r', inr up) =>
      getInflight r' (CredentialID up)
      = wrap64 (getInflight r (CredentialID up) + 1)
      /\ forall id, id <> CredentialID up -> credState r' !! id = credState r !! id
  | (r', inl _) => credState r' = credState r
  end.
Proof.
  destruct (pickUpstream r cfg clientKey facade model exclude now) as [r' [e|up]] eqn:E.
  - revert E. unfold pickUpstream.
    destruct cfg as [cfg|]; [|intros [= <- _]; reflexivity].
    destruct (_ || _); [intros [= <- _]; reflexivity|].
    destruct (poolByClientKey cfg !! clientKey) as [pool|];
      [|intros [= <- _]; reflexivity].
    assert (Hc := pickCredentialFromPool_credState r cfg pool facade model exclude now).
    destruct (pickCredentialFromPool r cfg pool facade model exclude now)
      as [r1 [credID|]]; cbn [fst] in Hc.
    + destruct (cipher r1 _); [discriminate|]. intros [= <- _]. exact Hc.
    + intros [= <- _]. exact Hc.
  - destruct cfg as [cfg|]; [|discriminate E].
    destruct (pickUpstream_picked _ _ _ _ _ _ _ _ _ E) as (pool & r1 & _ & Hp & ->).
    assert (Hc := pickCredentialFromPool_credState r cfg pool facade model exclude now).
    rewrite Hp in Hc. cbn [fst] in Hc.
    split.
    + rewrite getInflight_startRequest. unfold getInflight. rewrite Hc. reflexivity.
    + intros id Hid. unfold startRequest. cbn [credState set_credState].
      rewrite lookup_insert_ne by congruence. rewrite Hc. reflexivity.
Qed.

End Picking.

(** ** The circuit breaker *)

Section Circuit.

Import Router.

Lemma credState_EndRequest_success r now id ok status latency :
  id <> 0%N -> is_success ok status = true ->
  credState (EndRequest r now id ok status latency) !! id
  = Some {| inflight := wrap64 (inflight (loadOrStore r id) - 1);
            failures := 0;
            successes := wrap64 (successes (loadOrStore r id) + 1);
            total := wrap64 (total (loadOrStore r id) + 1);
            ewmaLatency := ewma_update (ewmaLatency (loadOrStore r id))
                             (F64.of_Z (Milliseconds latency));
            openUntil := 0; lastSeen := now;
            lastErrorAt := lastErrorAt (loadOrStore r id);
            lastLatency := latency; lastStatus := status |}.
Proof.
  intros Hid Hs. unfold EndRequest.
  destruct (N.eqb_spec id 0) as [->|_]; [congruence|].
  rewrite Hs. cbn [credState set_credState]. apply lookup_insert_eq.
Qed.

Lemma credState_EndRequest_failure r now id ok status latency :
  id <> 0%N -> is_success ok status = false ->
  credState (EndRequest r now id ok status latency) !! id
  = Some {| inflight := wrap64 (inflight (loadOrStore r id) - 1);
            failures := wrap64 (failures (loadOrStore r id) + 1);
            successes := successes (loadOrStore r id);
            total := wrap64 (total (loadOrStore r id) + 1);
            ewmaLatency := ewma_update (ewmaLatency (loadOrStore r id))
                             (F64.of_Z (Milliseconds latency));
            openUntil :=
              match open_duration status (wrap64 (failures (loadOrStore r id) + 1)) with
              | Some d => now + d
              | None => openUntil (loadOrStore r id)
              end;
            lastSeen := now; lastErrorAt := now;
            lastLatency := latency; lastStatus := status |}.
Proof.
  intros Hid Hs. unfold EndRequest.
  destruct (N.eqb_spec id 0) as [->|_]; [congruence|].
  rewrite Hs. cbn [credState set_credState]. apply lookup_insert_eq.
Qed.

Lemma is_success_spec ok status :
  is_success ok status = true
  <-> ok = true /\ 200 <= status < 500
      /\ status <> 429 /\ status <> 401 /\ status <> 403.
Proof.
  unfold is_success, StatusTooManyRequests, StatusUnauthorized, StatusForbidden.
  rewrite !andb_true_iff, !negb_true_iff, !Z.eqb_neq, Z.leb_le, Z.ltb_lt.
  destruct ok; intuition congruence.
Qed.

(** X4. A success closes the circuit: after an [EndRequest] that counts
    as one ([ok], a status in [200, 500) other than 401, 403 and 429)
    the credential is open at no time and its consecutive-failure count
    is 0. *)
Theorem EndRequest_success_closes r now id status latency t :
  id <> 0%N ->
  200 <= status < 500 -> status <> 429 -> status <> 401 -> status <> 403 ->
  isCredentialOpen (EndRequest r now id true status latency) id t = false
  /\ failures (loadOrStore (EndRequest r now id true status latency) id) = 0.
Proof.
  intros Hid H1 H2 H3 H4.
  assert (Hs : is_success true status = true) by (apply is_success_spec; auto).
  unfold isCredentialOpen, loadOrStore.
  rewrite credState_EndRequest_success by assumption.
  split; reflexivity.
Qed.

Lemma open_duration_auth status f :
  status = 401 \/ status = 403 -> open_duration status f = Some (15 * Minute).
Proof. intros [-> | ->]; reflexivity. Qed.

Lemma is_success_auth ok status :
  status = 401 \/ status = 403 -> is_success ok status = false.
Proof. intros [-> | ->]; destruct ok; reflexivity. Qed.

(** X5. A credential that answered 401 or 403 is not routed to for the
    next 15 minutes, as long as no later [EndRequest] on it moves its
    circuit: [r2] is any registry in which the credential's [openUntil]
    is still the one this [EndRequest] set, and no [pickUpstream] on
    [r2] at a time before [now + 15 min] returns the credential,
    whatever the configuration, the pool and the [ok] flag of the
    call.  (A later success on the credential resets [openUntil] and
    lifts the block.) *)
Theorem auth_failure_blocks_credential
    r now id ok status latency r2 cfg clientKey facade model exclude t r' up :
  id <> 0%N ->
  status = 401 \/ status = 403 ->
  0 <= now ->
  t < now + 15 * Minute ->
  openUntil (loadOrStore r2 id)
  = openUntil (loadOrStore (EndRequest r now id ok status latency) id) ->
  pickUpstream r2 (Some cfg) clientKey facade model exclude t = (r', inr up) ->
  CredentialID up <> id.
Proof.
  intros Hid Hst Hnow Ht Hsame Hpick E.
  destruct (pickUpstream_avail _ _ _ _ _ _ _ _ _ Hpick)
    as (_ & cred & _ & _ & Hopen & _).
  rewrite E in Hopen.
  rewrite (loadOrStore_lookup _ _ _
             (credState_EndRequest_failure r now id ok status latency Hid
                (is_success_auth ok status Hst))) in Hsame.
  cbn [openUntil] in Hsame. rewrite open_duration_auth in Hsame by exact Hst.
  assert (H0 : now + 15 * Minute <> 0) by (unfold Minute, Second, Millisecond; lia).
  unfold isCredentialOpen in Hopen.
  destruct (credState r2 !! id) as [st|] eqn:Ec.
  - rewrite (loadOrStore_lookup _ _ _ Ec) in Hsame. rewrite Hsame in Hopen.
    apply Z.eqb_neq in H0. rewrite H0 in Hopen. cbn [negb andb] in Hopen.
    apply Z.ltb_ge in Hopen. lia.
  - unfold loadOrStore in Hsame. rewrite Ec in Hsame.
    change (0 = now + 15 * Minute) in Hsame. congruence.
Qed.

Lemma open_duration_server status f :
  500 <= status \/ status = 0 -> 0 <= f ->
  open_duration status f
  = Some (Z.min (15 * 2 ^ Z.min f 6 * Second) (5 * Minute)).
Proof.
  intros Hst Hf. unfold open_duration, StatusUnauthorized, StatusForbidden,
    StatusTooManyRequests.
  destruct (Z.eqb_spec status 401); [lia|].
  destruct (Z.eqb_spec status 403); [lia|].
  destruct (Z.eqb_spec status 429); [lia|].
  cbn [orb].
  assert (Hb : (500 <=? status) || (status =? 0) = true).
  { destruct Hst as [H| ->]; [|apply orb_true_r].
    apply orb_true_iff. left. apply Z.leb_le, H. }
  rewrite Hb. rewrite minInt_min, shiftl_one by lia.
  f_equal.
  set (d := 15 * 2 ^ Z.min f 6 * Second).
  set (m := 5 * Minute).
  destruct (Z.ltb_spec m d); lia.
Qed.

Lemma is_success_server ok status :
  500 <= status \/ status = 0 -> is_success ok status = false.
Proof.
  intros H. destruct (is_success ok status) eqn:E; [|reflexivity].
  apply is_success_spec in E. lia.
Qed.

(** X6. After an [EndRequest] with a status of 500 or more, or 0 (no
    answer), the circuit is open exactly until
    [now + min(15 * 2^min(f,6) s, 5 min)], [f] being the consecutive
    failures counted so far plus this one. *)
Theorem EndRequest_server_error_backoff r now id ok status latency t :
  id <> 0%N ->
  500 <= status \/ status = 0 ->
  0 <= now ->
  0 <= failures (loadOrStore r id) < 2 ^ 62 ->
  isCredentialOpen (EndRequest r now id ok status latency) id t
  = (t <? now + Z.min (15 * 2 ^ Z.min (failures (loadOrStore r id) + 1) 6 * Second)
                  (5 * Minute)).
Proof.
  intros Hid Hst Hnow Hf. unfold isCredentialOpen.
  rewrite credState_EndRequest_failure
    by (try apply is_success_server; assumption).
  cbn [openUntil]. rewrite wrap64_small by lia.
  rewrite open_duration_server by (try assumption; lia).
  set (d := Z.min _ _).
  assert (Hd : 0 < d).
  { subst d. apply Z.min_glb_lt; [|reflexivity].
    assert (0 < 2 ^ Z.min (failures (loadOrStore r id) + 1) 6)
      by (apply Z.pow_pos_nonneg; lia).
    unfold Second, Millisecond. lia. }
  destruct (Z.eqb_spec (now + d) 0); [lia|]. reflexivity.
Qed.

(** X7. A failure with any other status (not 401, 403, 429, not 0 and
    below 500) opens the circuit only from the third consecutive failure
    on, and then for 30 seconds; before that the circuit stays as it
    was. *)
Theorem EndRequest_other_failure_threshold r now id ok status latency t :
  id <> 0%N ->
  ok = false \/ status < 200 ->
  status < 500 -> status <> 0 ->
  status <> 401 -> status <> 403 -> status <> 429 ->
  0 <= now ->
  0 <= failures (loadOrStore r id) < 2 ^ 62 ->
  isCredentialOpen (EndRequest r now id ok status latency) id t
  = if failures (loadOrStore r id) <? 2
    then isCredentialOpen r id t
    else t <? now + 30 * Second.
Proof.
  intros Hid Hok H1 H2 H3 H4 H5 Hnow Hf. unfold isCredentialOpen at 1.
  assert (Hs : is_success ok status = false).
  { destruct (is_success ok status) eqn:E; [|reflexivity].
    apply is_success_spec in E. destruct Hok; [intuition congruence|lia]. }
  rewrite credState_EndRequest_failure by assumption.
  cbn [openUntil]. rewrite wrap64_small by lia.
  unfold open_duration, StatusUnauthorized, StatusForbidden, StatusTooManyRequests.
  destruct (Z.eqb_spec status 401); [lia|].
  destruct (Z.eqb_spec status 403); [lia|].
  destruct (Z.eqb_spec status 429); [lia|].
  destruct (Z.leb_spec 500 status); [lia|].
  destruct (Z.eqb_spec status 0); [lia|].
  cbn [orb].
  destruct (Z.leb_spec 3 (failures (loadOrStore r id) + 1));
    destruct (Z.ltb_spec (failures (loadOrStore r id)) 2); try lia.
  - destruct (Z.eqb_spec (now + 30 * Second) 0);
      [unfold Second, Millisecond in *; lia|reflexivity].
  - unfold isCredentialOpen, loadOrStore.
    destruct (credState r !! id); reflexivity.
Qed.

(** *** What [EndRequest] keeps *)

Abbreviation fle x y := (F64.fleb x y = true).

Lemma fmul_nonneg x c :
  fle F64.zero x -> (0 < c)%Q -> fle F64.zero (F64.fmul x (F64.Fin c)).
Proof.
  intros Hx Hc. destruct (fle_zero_inv _ Hx) as [(a & -> & Ha)| ->].
  - cbn [F64.fmul]. apply (round_mono 0); [apply Qle_refl|].
    apply Qmult_le_0_compat; [exact Ha|apply Qlt_le_weak, Hc].
  - cbn [F64.fmul]. destruct c as [n d]. unfold Qlt in Hc. cbn in Hc.
    destruct n; try lia. reflexivity.
Qed.

Lemma fadd_nonneg x y :
  fle F64.zero x -> fle F64.zero y -> fle F64.zero (F64.fadd x y).
Proof.
  intros Hx Hy.
  destruct (fle_zero_inv _ Hx) as [(a & -> & Ha)| ->];
    destruct (fle_zero_inv _ Hy) as [(b & -> & Hb)| ->]; try reflexivity.
  cbn [F64.fadd]. apply (round_mono 0); [apply Qle_refl|].
  rewrite <- (Qplus_0_r 0). apply Qplus_le_compat; assumption.
Qed.

Lemma c08_pos : exists q, c08 = F64.Fin q /\ (0 < q)%Q.
Proof. eexists. split; [vm_compute; reflexivity|reflexivity]. Qed.

Lemma c02_pos : exists q, c02 = F64.Fin q /\ (0 < q)%Q.
Proof. eexists. split; [vm_compute; reflexivity|reflexivity]. Qed.

Lemma ewma_update_nonneg prev latMs :
  fle F64.zero prev -> fle F64.zero latMs -> fle F64.zero (ewma_update prev latMs).
Proof.
  intros Hp Hl. unfold ewma_update.
  destruct (F64.feqb prev F64.zero); [exact Hl|].
  destruct (F64.fltb F64.zero latMs); [|exact Hp].
  destruct c08_pos as (q8 & -> & H8). destruct c02_pos as (q2 & -> & H2).
  apply fadd_nonneg; apply fmul_nonneg; assumption.
Qed.

Lemma Milliseconds_nonneg d : 0 <= d -> 0 <= Milliseconds d.
Proof. intros H. unfold Milliseconds. apply Z.quot_pos; [exact H|reflexivity]. Qed.

(** X8. [EndRequest] keeps the health state well formed: with counts
    that are not negative, [successes] and [failures] at most [total]
    and a latency average that is not negative before the call, and a
    latency that is not negative, the same holds after it, [total]
    having grown by one. *)
Theorem EndRequest_keeps_counts r now id ok status latency :
  id <> 0%N ->
  let st := loadOrStore r id in
  let st' := loadOrStore (EndRequest r now id ok status latency) id in
  0 <= successes st <= total st ->
  0 <= failures st <= total st ->
  total st < 2 ^ 63 - 1 ->
  F64.fleb F64.zero (ewmaLatency st) = true ->
  0 <= latency ->
  total st' = total st + 1
  /\ 0 <= successes st' <= total st'
  /\ 0 <= failures st' <= total st'
  /\ F64.fleb F64.zero (ewmaLatency st') = true.
Proof.
  intros Hid st st' Hs Hf Ht He Hl. subst st'.
  assert (Hew : fle F64.zero (ewma_update (ewmaLatency st)
                                (F64.of_Z (Milliseconds latency)))).
  { apply ewma_update_nonneg; [exact He|].
    apply of_Z_nonneg, Milliseconds_nonneg, Hl. }
  destruct (is_success ok status) eqn:E.
  - rewrite (loadOrStore_lookup _ _ _
               (credState_EndRequest_success r now id ok status latency Hid E)).
    cbn [total successes failures ewmaLatency]. fold st.
    rewrite !wrap64_small by lia. repeat split; try lia. exact Hew.
  - rewrite (loadOrStore_lookup _ _ _
               (credState_EndRequest_failure r now id ok status latency Hid E)).
    cbn [total successes failures ewmaLatency]. fold st.
    rewrite !wrap64_small by lia. repeat split; try lia. exact Hew.
Qed.

(** X9. [EndRequest] on one credential changes nothing else: the health
    state of every other credential, the stickiness cache and the pool
    counters are as before. *)
Theorem EndRequest_frame r now id ok status latency :
  (forall id', id' <> id ->
      credState (EndRequest r now id ok status latency) !! id' = credState r !! id')
  /\ routeCache (EndRequest r now id ok status latency) = routeCache r
  /\ poolStates (EndRequest r now id ok status latency) = poolStates r.
Proof.
  unfold EndRequest.
  destruct (id =? 0)%N; [auto|].
  destruct (is_success ok status); cbn [credState routeCache poolStates set_credState];
    (split; [|split; reflexivity]); intros id' Hid';
    apply lookup_insert_ne; congruence.
Qed.

End Circuit.

(** ** The stickiness cache and the pick *)

Section Sticky.

Import Router.

Lemma isAvailable_credState r r1 cfg exclude now id :
  credState r1 = credState r ->
  isAvailable r1 cfg exclude now id = isAvailable r cfg exclude now id.
Proof.
  intros H. unfold isAvailable, isCredentialOpen, getInflight. rewrite H. reflexivity.
Qed.

Lemma RecordRouteResult_credState r now poolID facade model credID ok status :
  credState (RecordRouteResult r now poolID facade model credID ok status)
  = credState r.
Proof.
  unfold RecordRouteResult.
  destruct (_ || _); [reflexivity|].
  destruct ok; [reflexivity|].
  destruct (_ || _); [|reflexivity].
  destruct (routeCache r !! _) as [cur|]; [|reflexivity].
  destruct (_ =? _)%N; reflexivity.
Qed.

Lemma pickCredentialFromPool_hit r cfg pool facade model exclude now ent :
  routeCache r !! routeKey (pool_ID pool) facade model = Some ent ->
  now < expiresAt ent ->
  isAvailable r cfg exclude now (credentialID ent) = true ->
  pickCredentialFromPool r cfg pool facade model exclude now
  = (r, Some (credentialID ent)).
Proof.
  intros Hk He Ha. unfold pickCredentialFromPool. rewrite Hk.
  apply Z.ltb_lt in He. rewrite He, Ha. reflexivity.
Qed.


Lemma pickFromTiers_routeCache r cfg pool model avail tiers :
  routeCache (fst (pickFromTiers r cfg pool model avail tiers)) = routeCache r.
Proof.
  induction tiers as [|tier rest IH]; [reflexivity|].
  cbn [pickFromTiers].
  destruct (negb (tierAppliesToModel tier model)); [exact IH|].
  destruct (tier_Items tier) as [|it its]; [exact IH|].
  destruct (String.eqb (tier_Strategy tier) "priority").
  - destruct (firstByPriority _ _); [reflexivity|exact IH].
  - destruct (weightedCandidates _ _) as [|c0 cs]; [exact IH|].
    destruct (F64.fleb _ _); [reflexivity|].
    cbn [bumpCounter].
    destruct (drawCandidate _ _ _); reflexivity.
Qed.

(** X11. What a pick does to the stickiness cache: it removes the entry
    of its own pool, facade and model when that entry has expired, and
    nothing else; an entry that has not expired stays, whether its
    credential is available or not. *)
Theorem pickCredentialFromPool_routeCache r cfg pool facade model exclude now :
  routeCache (fst (pickCredentialFromPool r cfg pool facade model exclude now))
  = match routeCache r !! routeKey (pool_ID pool) facade model with
    | Some ent =>
        if now <? expiresAt ent then routeCache r
        else delete (routeKey (pool_ID pool) facade model) (routeCache r)
    | None => routeCache r
    end.
Proof.
  assert (Hafter : forall r1 : Router,
    ((r1 = r
      /\ (routeCache r !! routeKey (pool_ID pool) facade model = None
          \/ exists ent, routeCache r !! routeKey (pool_ID pool) facade model = Some ent
                         /\ (now <? expiresAt ent) = true))
     \/ exists ent, routeCache r !! routeKey (pool_ID pool) facade model = Some ent
                    /\ (now <? expiresAt ent) = false
                    /\ r1 = set_routeCache r
                              (delete (routeKey (pool_ID pool) facade model)
                                 (routeCache r))) ->
    routeCache r1
    = match routeCache r !! routeKey (pool_ID pool) facade model with
      | Some ent =>
          if now <? expiresAt ent then routeCache r
          else delete (routeKey (pool_ID pool) facade model) (routeCache r)
      | None => routeCache r
      end).
  { intros r1 [[-> [E|(ent & E & Ee)]]|(ent & E & Ee & ->)]; rewrite E;
      try rewrite Ee; reflexivity. }
  apply (pickCredentialFromPool_elim r cfg pool facade model exclude now
           (fun res => routeCache (fst res)
                       = match routeCache r !! routeKey (pool_ID pool) facade model with
                         | Some ent =>
                             if now <? expiresAt ent then routeCache r
                             else delete (routeKey (pool_ID pool) facade model)
                                    (routeCache r)
                         | None => routeCache r
                         end)).
  - intros ent -> -> _. reflexivity.
  - intros r1 t ts Hr1 _. rewrite pickFromTiers_routeCache. apply Hafter, Hr1.
  - intros r1 Hr1 _ _. apply Hafter, Hr1.
  - intros r1 x xs Hr1 _ _. cbn [fst bumpCounter routeCache set_poolStates].
    apply Hafter, Hr1.
Qed.

End Sticky.

(** *** The theorems above on sample registries *)

Section RegistrySamples.
Import Router.

Lemma pickUpstream_available_witness :
  (∅ : gmap N bool) !! CredentialID Sample.upstream1 <> Some true
  /\ exists cred,
       credentials Sample.config1 !! CredentialID Sample.upstream1 = Some cred
       /\ cred_Enabled cred = true
       /\ isCredentialOpen Sample.router0 (CredentialID Sample.upstream1) 1000 = false
       /\ (0 < cred_ConcurrencyLimit cred ->
           getInflight Sample.router0 (CredentialID Sample.upstream1)
           < cred_ConcurrencyLimit cred).
Proof.
  apply (pickUpstream_available Sample.router0 Sample.config1 "k" "anthropic"
           "claude" ∅ 1000
           (fst (pickUpstream Sample.router0 (Some Sample.config1) "k" "anthropic"
                   "claude" ∅ 1000))
           Sample.upstream1).
  vm_compute. reflexivity.
Defined.

Lemma EndRequest_success_closes_witness :
  let r := EndRequest (Sample8.holding Sample8.worse) 1000 1 true 200 5 in
  isCredentialOpen r 1 1000 = false /\ failures (loadOrStore r 1) = 0.
Proof.
  apply (EndRequest_success_closes (Sample8.holding Sample8.worse) 1000 1 200 5 1000);
    [discriminate | lia | discriminate | discriminate | discriminate].
Defined.

Lemma auth_failure_blocks_credential_witness :
  let r := EndRequest Sample.router0 1000 2 false 401 5 in
  let r2 := EndRequest r 1500 3 true 200 7 in
  let res := pickUpstream r2 (Some Sample3.config3) "k" "anthropic" "claude" ∅ 2000 in
  CredentialID (match snd res with inr up => up | inl _ => Sample.upstream1 end)
  <> 2%N.
Proof.
  apply (auth_failure_blocks_credential Sample.router0 1000 2 false 401 5
           (EndRequest (EndRequest Sample.router0 1000 2 false 401 5) 1500 3 true 200 7)
           Sample3.config3 "k" "anthropic" "claude" ∅ 2000
           (fst (pickUpstream
                   (EndRequest (EndRequest Sample.router0 1000 2 false 401 5)
                      1500 3 true 200 7)
                   (Some Sample3.config3) "k" "anthropic" "claude" ∅ 2000))).
  - discriminate.
  - left. reflexivity.
  - lia.
  - vm_compute. reflexivity.
  - vm_compute. reflexivity.
  - vm_compute. reflexivity.
Defined.

Lemma EndRequest_server_error_backoff_witness :
  isCredentialOpen (EndRequest (Sample8.holding Sample8.worse) 1000 1 false 503 5)
    1 2000
  = (2000 <? 1000 + Z.min
                      (15 * 2 ^ Z.min (failures (loadOrStore
                                                   (Sample8.holding Sample8.worse) 1)
                                       + 1) 6 * Second)
                      (5 * Minute)).
Proof.
  apply (EndRequest_server_error_backoff (Sample8.holding Sample8.worse)
           1000 1 false 503 5 2000).
  - discriminate.
  - left. lia.
  - lia.
  - vm_compute. split; [discriminate | reflexivity].
Defined.

Lemma EndRequest_other_failure_threshold_witness :
  isCredentialOpen (EndRequest (Sample8.holding Sample8.worse) 1000 1 false 404 5)
    1 2000
  = if failures (loadOrStore (Sample8.holding Sample8.worse) 1) <? 2
    then isCredentialOpen (Sample8.holding Sample8.worse) 1 2000
    else 2000 <? 1000 + 30 * Second.
Proof.
  apply (EndRequest_other_failure_threshold (Sample8.holding Sample8.worse)
           1000 1 false 404 5 2000).
  - discriminate.
  - left. reflexivity.
  - lia.
  - discriminate.
  - discriminate.
  - discriminate.
  - discriminate.
  - lia.
  - vm_compute. split; [discriminate | reflexivity].
Defined.

Lemma EndRequest_keeps_counts_witness :
  let st := loadOrStore (Sample8.holding Sample8.worse) 1 in
  let st' := loadOrStore
               (EndRequest (Sample8.holding Sample8.worse) 1000 1 false 503 5) 1 in
  total st' = total st + 1
  /\ 0 <= successes st' <= total st'
  /\ 0 <= failures st' <= total st'
  /\ F64.fleb F64.zero (ewmaLatency st') = true.
Proof.
  apply (EndRequest_keeps_counts (Sample8.holding Sample8.worse) 1000 1 false 503 5).
  - discriminate.
  - vm_compute. split; discriminate.
  - vm_compute. split; discriminate.
  - vm_compute. reflexivity.
  - vm_compute. reflexivity.
  - lia.
Defined.


End RegistrySamples.

(** ** Model alias fallback *)

Section AliasProofs.

Import Router Alias.

(** *** The order of strings *)

Lemma ascii_compare_lt_trans a b c :
  Ascii.compare a b = Lt -> Ascii.compare b c = Lt -> Ascii.compare a c = Lt.
Proof.
  unfold Ascii.compare. rewrite !N.compare_lt_iff. apply N.lt_trans.
Qed.

Lemma string_compare_lt_trans s : forall t u,
  String.compare s t = Lt -> String.compare t u = Lt -> String.compare s u = Lt.
Proof.
  induction s as [|a s IH]; intros [|b t] [|c u]; cbn; try congruence.
  destruct (Ascii.compare a b) eqn:Eab; try discriminate.
  - apply Ascii.compare_eq_iff in Eab. subst b.
    destruct (Ascii.compare a c); try congruence. apply IH.
  - destruct (Ascii.compare b c) eqn:Ebc; try discriminate.
    + apply Ascii.compare_eq_iff in Ebc. subst c. rewrite Eab. reflexivity.
    + rewrite (ascii_compare_lt_trans _ _ _ Eab Ebc). reflexivity.
Qed.

Lemma ltb_trans s t u :
  String.ltb s t = true -> String.ltb t u = true -> String.ltb s u = true.
Proof.
  unfold String.ltb. intros H1 H2.
  destruct (String.compare s t) eqn:E1; try discriminate.
  destruct (String.compare t u) eqn:E2; try discriminate.
  rewrite (string_compare_lt_trans _ _ _ E1 E2). reflexivity.
Qed.

Lemma ltb_total s t :
  String.ltb s t = false -> s = t \/ String.ltb t s = true.
Proof.
  unfold String.ltb. intros H.
  destruct (String.compare s t) eqn:E; try discriminate.
  - left. apply String.compare_eq_iff, E.
  - right. rewrite String.compare_antisym, E. reflexivity.
Qed.

(** *** The selection loop *)

Lemma beats_trans isSmall a b c :
  beats isSmall a b -> beats isSmall b c -> beats isSmall a c.
Proof.
  unfold beats.
  intros [H1|(E1 & [L1|(L1 & T1)])] [H2|(E2 & [L2|(L2 & T2)])];
    try (left; lia); right; (split; [lia|]); try (left; lia).
  right. split; [lia|]. eapply ltb_trans; eassumption.
Qed.

Lemma better_spec isSmall b id :
  better isSmall (Some (b, scoreOf isSmall b)) id
  = if bool_decide (beats isSmall id b)
    then Some (id, scoreOf isSmall id) else Some (b, scoreOf isSmall b).
Proof.
  unfold better, beats.
  destruct (Z.ltb_spec (scoreOf isSmall b) (scoreOf isSmall id)) as [H|H]; cbn [orb].
  { rewrite bool_decide_eq_true_2 by (left; exact H). reflexivity. }
  destruct (Z.eqb_spec (scoreOf isSmall id) (scoreOf isSmall b)) as [E|E]; cbn [andb].
  2:{ rewrite bool_decide_eq_false_2; [reflexivity|]. intros [?|[? _]]; lia. }
  destruct (Nat.ltb_spec (String.length id) (String.length b)) as [L|L]; cbn [orb].
  { rewrite bool_decide_eq_true_2 by (right; split; [exact E|left; exact L]).
    reflexivity. }
  destruct (Nat.eqb_spec (String.length id) (String.length b)) as [L'|L']; cbn [andb].
  2:{ rewrite bool_decide_eq_false_2; [reflexivity|].
      intros [?|[_ [?|[? _]]]]; lia. }
  destruct (String.ltb id b) eqn:T.
  - rewrite bool_decide_eq_true_2 by (right; split; [exact E|right; split; first [assumption|reflexivity]]).
    reflexivity.
  - rewrite bool_decide_eq_false_2; [reflexivity|].
    intros [?|[_ [?|[_ ?]]]]; [lia|lia|congruence].
Qed.

Lemma not_beats isSmall a b : ~ beats isSmall a b -> a = b \/ beats isSmall b a.
Proof.
  unfold beats. intros H.
  destruct (Z.lt_trichotomy (scoreOf isSmall a) (scoreOf isSmall b)) as [L|[E|G]];
    [right; left; exact L| |exfalso; apply H; left; exact G].
  destruct (Nat.lt_trichotomy (String.length a) (String.length b)) as [L|[E'|G]];
    [exfalso; apply H; right; split; [exact E|left; exact L]|
    |right; right; split; [lia|left; exact G]].
  destruct (String.ltb a b) eqn:T;
    [exfalso; apply H; right; split; [exact E|right; split; [exact E'|reflexivity]]|].
  destruct (ltb_total _ _ T) as [->|T']; [left; reflexivity|].
  right. right. split; [lia|]. right. split; [lia|exact T'].
Qed.

Lemma fold_better_Some isSmall l : forall b seen,
  In b seen ->
  (forall x, In x seen -> x = b \/ beats isSmall b x) ->
  exists b',
    fold_left (better isSmall) l (Some (b, scoreOf isSmall b))
    = Some (b', scoreOf isSmall b')
    /\ In b' (seen ++ l)
    /\ forall x, In x (seen ++ l) -> x = b' \/ beats isSmall b' x.
Proof.
  induction l as [|id rest IH]; intros b seen Hb Hbest.
  - exists b. rewrite app_nil_r. cbn [fold_left]. auto.
  - cbn [fold_left]. rewrite better_spec.
    replace (seen ++ id :: rest) with ((seen ++ [id]) ++ rest)
      by (rewrite <- app_assoc; reflexivity).
    destruct (bool_decide_reflect (beats isSmall id b)) as [Hw|Hw].
    + apply IH.
      * apply in_or_app. right. left. reflexivity.
      * intros x Hx. apply in_app_or in Hx. destruct Hx as [Hx|[<-|[]]]; [|auto].
        destruct (Hbest x Hx) as [->|Hbx]; [right; exact Hw|].
        right. eapply beats_trans; eassumption.
    + apply IH.
      * apply in_or_app. left. exact Hb.
      * intros x Hx. apply in_app_or in Hx. destruct Hx as [Hx|[<-|[]]]; [auto|].
        destruct (not_beats _ _ _ Hw) as [->|Hbi]; auto.
Qed.

Lemma fold_better isSmall l :
  l <> [] ->
  exists b,
    fold_left (better isSmall) l None = Some (b, scoreOf isSmall b)
    /\ In b l
    /\ forall x, In x l -> x = b \/ beats isSmall b x.
Proof.
  destruct l as [|id rest]; [congruence|]. intros _.
  cbn [fold_left better].
  apply (fold_better_Some isSmall rest id [id]).
  - left. reflexivity.
  - intros x [<-|[]]. left. reflexivity.
Qed.

Lemma pickModelForAlias_published models alias :
  pickModelForAlias models alias <> ""%string ->
  is_Some (models !! pickModelForAlias models alias).
Proof.
  unfold pickModelForAlias.
  destruct (String.eqb _ ""); [cbn; congruence|].
  destruct (bool_decide_reflect (models = ∅)) as [Em|Em]; [cbn; congruence|].
  cbn [orb]. intros _.
  set (isSmall := _ || _).
  destruct (fold_better isSmall (map fst (map_to_list models))) as (b & -> & Hin & _).
  { intros E. apply map_eq_nil in E. apply map_to_list_empty_iff in E. contradiction. }
  apply in_map_iff in Hin. destruct Hin as ([k v] & <- & Hkv). exists v.
  apply elem_of_map_to_list, list_elem_of_In, Hkv.
Qed.

(** X12. The alias fallback does not depend on the order in which the
    published models are visited: for an alias that is not blank and a
    set that is not empty, [pickModelForAlias] returns a published
    model that is preferred to every other one, by score, then by
    length, then by name. *)
Theorem pickModelForAlias_best models alias :
  GoStrings.ToLower (GoStrings.TrimSpace alias) <> ""%string ->
  models <> ∅ ->
  let a := GoStrings.ToLower (GoStrings.TrimSpace alias) in
  let isSmall := GoStrings.Contains a "small" || GoStrings.Contains a "haiku"
                 || GoStrings.Contains a "fast" in
  let id := pickModelForAlias models alias in
  is_Some (models !! id)
  /\ forall id', is_Some (models !! id') -> id' <> id -> beats isSmall id id'.
Proof.
  intros Ha Hm a isSmall id. subst id. unfold pickModelForAlias.
  fold a. fold isSmall.
  destruct (String.eqb_spec a "") as [E|_]; [contradiction|].
  rewrite bool_decide_eq_false_2 by exact Hm. cbn [orb].
  destruct (fold_better isSmall (map fst (map_to_list models))) as (b & -> & Hin & Hbest).
  { intros E. apply map_eq_nil in E. apply map_to_list_empty_iff in E. contradiction. }
  assert (Hmem : forall x, is_Some (models !! x) <-> In x (map fst (map_to_list models))).
  { intros x. rewrite in_map_iff. split.
    - intros [v Hv]. exists (x, v). split; [reflexivity|].
      apply list_elem_of_In, elem_of_map_to_list, Hv.
    - intros ([k v] & <- & Hkv). exists v.
      apply elem_of_map_to_list, list_elem_of_In, Hkv. }
  split; [apply Hmem, Hin|].
  intros id' Hid' Hne. apply Hmem in Hid'.
  destruct (Hbest id' Hid') as [->|H]; [contradiction|exact H].
Qed.

(** X13. When a provider publishes a model set and [resolveModel]
    accepts the request, the model it sends upstream is one the
    provider publishes. *)
Theorem resolveModel_published prov pool model m :
  prov_Models prov <> ∅ ->
  resolveModel prov pool model = (m, true) ->
  is_Some (prov_Models prov !! m).
Proof.
  intros Hne. unfold resolveModel.
  rewrite bool_decide_eq_false_2 by exact Hne.
  set (up := mapped _ _ _).
  destruct (prov_Models prov !! up) eqn:E.
  - intros H. injection H as <-. rewrite E. eauto.
  - destruct (String.eqb_spec (pickModelForAlias (prov_Models prov) model) "") as [E'|E'];
      [discriminate|].
    intros H. injection H as <-. apply pickModelForAlias_published, E'.
Qed.

End AliasProofs.

Lemma pickModelForAlias_best_witness :
  let id := Router.pickModelForAlias Alias.published "claude-sonnet-4" in
  is_Some (Alias.published !! id)
  /\ forall id', is_Some (Alias.published !! id') -> id' <> id ->
       Alias.beats false id id'.
Proof.
  apply (pickModelForAlias_best Alias.published "claude-sonnet-4").
  - vm_compute. discriminate.
  - intros E. apply (f_equal (fun m : gmap string bool => m !! "gpt-4o-mini"%string)) in E.
    vm_compute in E. discriminate.
Defined.

Lemma resolveModel_published_witness :
  is_Some (Alias.published
             !! fst (Router.resolveModel Alias.provider6 Sample.pool1 "claude-sonnet-4")).
Proof.
  apply (resolveModel_published Alias.provider6 Sample.pool1 "claude-sonnet-4").
  - intros E. apply (f_equal (fun m : gmap string bool => m !! "gpt-4o-mini"%string)) in E.
    vm_compute in E. discriminate.
  - vm_compute. reflexivity.
Defined.

(** ** Loading the configuration *)

Section Loading.

Import Router Loader.

Variable Unmarshal : string -> option any.
Variable UnmarshalString : string -> option string.
Variable decode_ids : string -> list N.
Variable decode_tiers : string -> list Tier.

Abbreviation pool_step := (pool_step Unmarshal decode_ids decode_tiers).
Abbreviation loadConfig := (loadConfig Unmarshal UnmarshalString decode_ids decode_tiers).

Abbreviation unexpanded byKey :=
  (forall key (pool : poolRow), byKey !! key = Some pool ->
     pool_ExpandedCredentialIDs pool = [] /\ pool_ClientKey pool = key
     /\ key <> ""%string).

Lemma pool_step_unexpanded out byKey s :
  unexpanded byKey -> unexpanded (snd (pool_step (out, byKey) s)).
Proof.
  intros H key pool. cbn [Loader.pool_step snd pool_ClientKey].
  destruct (String.eqb_spec (pl_ckey s) "") as [E|E]; [apply H|].
  destruct (decide (key = pl_ckey s)) as [->|Hne].
  - rewrite lookup_insert_eq. intros [= <-]. cbn. auto.
  - rewrite lookup_insert_ne by congruence. apply H.
Qed.

Lemma scan_all_unexpanded rows : forall out byKey st',
  unexpanded byKey ->
  scan_all pool_step (out, byKey) rows = Some st' ->
  unexpanded (snd st').
Proof.
  induction rows as [|[s|] rest IH]; intros out byKey st' H Hs; cbn [scan_all] in Hs.
  - injection Hs as <-. exact H.
  - destruct (pool_step (out, byKey) s) as [out1 byKey1] eqn:E.
    apply (IH out1 byKey1); [|exact Hs].
    change byKey1 with (snd (out1, byKey1)). rewrite <- E.
    apply pool_step_unexpanded, H.
  - discriminate.
Qed.

Lemma loadConfig_byKey now qprov qcred qpool cfg :
  loadConfig now qprov qcred qpool = Some cfg ->
  unexpanded (poolByClientKey cfg).
Proof.
  unfold Loader.loadConfig. intros H.
  destruct (run_query qprov _ _) as [provs|]; [|discriminate].
  destruct (run_query qcred _ _) as [[creds provCreds]|]; [|discriminate].
  destruct (run_query qpool _ _) as [[pools byKey]|] eqn:E; [|discriminate].
  injection H as <-. cbn [poolByClientKey].
  unfold run_query in E. destruct qpool as [c|]; [|discriminate].
  destruct (scan_all _ _ (scans c)) as [st'|] eqn:Es; [|discriminate].
  destruct (rows_err c); [discriminate|]. injection E as ->.
  apply (scan_all_unexpanded _ _ _ _ (fun _ _ H => ltac:(rewrite lookup_empty in H; discriminate)) Es).
Qed.

(** X14. In a configuration [loadConfig] builds, the pools found by
    client key carry no expanded credential list, whatever their
    strategy and the weights of their credentials: [expandPoolWeights]
    fills the list in the map of pools by id only.  The legacy rotation
    of [pickCredentialFromPool], which works on the pool found by
    client key, therefore runs over [CredentialIDs]. *)
Theorem loadConfig_client_pool_not_expanded
    now qprov qcred qpool cfg key pool :
  loadConfig now qprov qcred qpool = Some cfg ->
  poolByClientKey cfg !! key = Some pool ->
  pool_ExpandedCredentialIDs pool = []
  /\ (if String.eqb (pool_Strategy pool) "weighted_rr"
         && negb (Nat.eqb (length (pool_ExpandedCredentialIDs pool)) 0)
      then pool_ExpandedCredentialIDs pool
      else pool_CredentialIDs pool) = pool_CredentialIDs pool.
Proof.
  intros H Hp. destruct (loadConfig_byKey _ _ _ _ _ H key pool Hp) as (E & _).
  split; [exact E|]. rewrite E. cbn. rewrite andb_false_r. reflexivity.
Qed.

(** *** The expansion by weight *)

Lemma count_occ_repeat (x y : N) n :
  count_occ N.eq_dec (repeat x n) y = if N.eq_dec x y then n else 0%nat.
Proof.
  induction n as [|n IH]; cbn [repeat count_occ].
  - destruct (N.eq_dec x y); reflexivity.
  - rewrite IH. destruct (N.eq_dec x y); reflexivity.
Qed.

Lemma expand_count creds ids cid :
  count_occ N.eq_dec (expand creds ids) cid
  = match creds !! cid with
    | Some cred =>
        if cred_Enabled cred
        then (count_occ N.eq_dec ids cid * Z.to_nat (repeats cred))%nat
        else 0%nat
    | None => 0%nat
    end.
Proof.
  induction ids as [|x rest IH]; cbn [expand count_occ].
  - destruct (creds !! cid) as [cred|]; [destruct (cred_Enabled cred)|]; reflexivity.
  - destruct (N.eq_dec x cid) as [->|Hne].
    + destruct (creds !! cid) as [cred|] eqn:E; [|exact IH].
      destruct (cred_Enabled cred); cbn [negb]; [|exact IH].
      rewrite count_occ_app, count_occ_repeat, IH.
      destruct (N.eq_dec cid cid); [|contradiction]. lia.
    + destruct (creds !! x) as [cx|]; [|exact IH].
      destruct (cred_Enabled cx); cbn [negb]; [|exact IH].
      rewrite count_occ_app, count_occ_repeat, IH.
      destruct (N.eq_dec x cid); [contradiction|]. reflexivity.
Qed.

Lemma repeats_range cred : 1 <= repeats cred <= 50.
Proof.
  unfold repeats. destruct (Z.leb_spec (cred_Weight cred) 0).
  - cbn. lia.
  - destruct (Z.ltb_spec 50 (cred_Weight cred)); lia.
Qed.

(** X15. [expandPoolWeights] repeats every credential of an enabled
    [weighted_rr] pool by its weight, held between 1 and 50: in the
    expanded list of the pool a credential that is loaded and enabled
    occurs that many times for each of its occurrences in
    [CredentialIDs], and no other credential occurs. *)
Theorem expandPoolWeights_counts pools creds id p cid :
  pools !! id = Some p ->
  pool_Enabled p = true ->
  pool_Strategy p = "weighted_rr"%string ->
  exists p',
    expandPoolWeights pools creds !! id = Some p'
    /\ pool_CredentialIDs p' = pool_CredentialIDs p
    /\ count_occ N.eq_dec (pool_ExpandedCredentialIDs p') cid
       = match creds !! cid with
         | Some cred =>
             if cred_Enabled cred
             then (count_occ N.eq_dec (pool_CredentialIDs p) cid
                   * Z.to_nat (Z.max 1 (Z.min 50 (cred_Weight cred))))%nat
             else 0%nat
         | None => 0%nat
         end.
Proof.
  intros Hp He Hs. exists (expandPool creds p).
  split; [unfold expandPoolWeights; rewrite lookup_fmap, Hp; reflexivity|].
  unfold expandPool. rewrite He, Hs, String.eqb_refl.
  cbn [negb set_expanded pool_CredentialIDs pool_ExpandedCredentialIDs].
  split; [reflexivity|]. rewrite expand_count.
  destruct (creds !! cid) as [cred|]; [|reflexivity].
  destruct (cred_Enabled cred); [|reflexivity].
  f_equal. f_equal. unfold repeats.
  destruct (Z.leb_spec (cred_Weight cred) 0); [cbn; lia|].
  destruct (Z.ltb_spec 50 (cred_Weight cred)); lia.
Qed.

End Loading.

Lemma loadConfig_client_pool_not_expanded_witness :
  match Loader.loaded0 with
  | Some cfg =>
      match Router.poolByClientKey cfg !! "k"%string with
      | Some pool =>
          Router.pool_Strategy pool = "weighted_rr"%string
          /\ Router.pool_ExpandedCredentialIDs pool = []
          /\ (if String.eqb (Router.pool_Strategy pool) "weighted_rr"
                 && negb (Nat.eqb (length (Router.pool_ExpandedCredentialIDs pool)) 0)
              then Router.pool_ExpandedCredentialIDs pool
              else Router.pool_CredentialIDs pool) = Router.pool_CredentialIDs pool
      | None => False
      end
  | None => False
  end.
Proof.
  destruct Loader.loaded0 as [cfg|] eqn:H; [|vm_compute in H; discriminate H].
  destruct (Router.poolByClientKey cfg !! "k"%string) as [pool|] eqn:Hp.
  - split.
    + unfold Loader.loaded0 in H. vm_compute in H. injection H as <-.
      vm_compute in Hp. injection Hp as <-. reflexivity.
    + exact (loadConfig_client_pool_not_expanded Loader.no_json
               Loader.no_string Loader.ids0 Loader.tiers0 1000
               Loader.providers0 Loader.credentials0 Loader.pools0 cfg "k" pool H Hp).
  - unfold Loader.loaded0 in H. vm_compute in H. injection H as <-.
    vm_compute in Hp. discriminate Hp.
Defined.

Lemma expandPoolWeights_counts_witness :
  exists p',
    Loader.expandPoolWeights {[ 1%N := Loader.pool0 ]} Loader.creds0 !! 1%N = Some p'
    /\ Router.pool_CredentialIDs p' = Router.pool_CredentialIDs Loader.pool0
    /\ count_occ N.eq_dec (Router.pool_ExpandedCredentialIDs p') 1%N = 3%nat.
Proof.
  exact (expandPoolWeights_counts {[ 1%N := Loader.pool0 ]} Loader.creds0 1%N
           Loader.pool0 1%N eq_refl eq_refl eq_refl).
Defined.

(** ** The handler *)

Section HandlerProps.

Import Router Handler Trace.

Variable Marshal : any -> string.

Lemma started_app a b : started (a ++ b) = started a ++ started b.
Proof. apply flat_map_app. Qed.

Lemma ended_app a b : ended (a ++ b) = ended a ++ ended b.
Proof. apply flat_map_app. Qed.

Lemma responses_app a b : responses (a ++ b) = responses a ++ responses b.
Proof. apply flat_map_app. Qed.

Ltac split_turn :=
  repeat match goal with
         | |- context [if ?b then _ else _] => destruct b eqn:?
         | |- context [match upstream ?env with _ => _ end] =>
             destruct (upstream env) eqn:?
         end.

Ltac close_turn r1 up :=
  try discriminate;
  eexists; rewrite <- ?app_assoc;
  (split; [reflexivity|]);
  rewrite ?started_app, ?ended_app, ?responses_app; cbn;
  repeat split; try reflexivity; try assumption;
  try (right; exists r1, up; (split; [reflexivity|]); (split; [reflexivity|]);
       first [left; reflexivity | right; split; [reflexivity|assumption]]);
  try (exists r1, up; repeat split; reflexivity).

(** What one turn of the attempt loop adds to the calls: [Return] after
    one response, [Next] after none and only when the attempt is not
    the last; a turn that started a request on [id] ended it once, or,
    in the Anthropic branch, twice, and excluded it before going on. *)
Lemma attempt_turn h env first last clientKey origModel req :
  exists new,
    match attempt Marshal h env first last clientKey origModel req with
    | Return h' =>
        calls h' = calls h ++ new
        /\ length (responses new) = 1%nat
        /\ (started new = [] /\ ended new = []
            \/ exists r' up,
                 pickUpstream (rtr h) (getConfig env) clientKey FacadeAnthropic
                   (reqModel h) (if first then ∅ else exclude h) (now_pick env)
                 = (r', inr up)
                 /\ started new = [CredentialID up]
                 /\ (ended new = [CredentialID up]
                     \/ ended new = [CredentialID up; CredentialID up]
                        /\ ProviderType up = "anthropic"%string))
    | Next h' =>
        calls h' = calls h ++ new
        /\ last = false
        /\ responses new = []
        /\ exists r' up,
             pickUpstream (rtr h) (getConfig env) clientKey FacadeAnthropic
               (reqModel h) (if first then ∅ else exclude h) (now_pick env)
             = (r', inr up)
             /\ started new = [CredentialID up]
             /\ ended new = [CredentialID up]
             /\ exclude h' = <[CredentialID up := true]> (exclude h)
    end.
Proof.
  unfold attempt.
  destruct (pickUpstream _ _ _ _ _ _ _) as [r1 [e|up]] eqn:Ep.
  - destruct e; eexists; cbn [calls]; (split; [reflexivity|]); cbn; auto.
  - set (h0 := {| rtr := r1; reqModel := reqModel h; exclude := exclude h;
                  calls := calls h ++ [StartRequest (CredentialID up)] |}).
    destruct (String.eqb (ProviderType up) "anthropic") eqn:Ea.
    + apply String.eqb_eq in Ea.
      unfold anthropic_branch, or_retry, log, endRequest, recordRouteResult,
        excluding, set_reqModel.
      split_turn; cbn [calls rtr exclude reqModel h0]; close_turn r1 up.
    + destruct (String.eqb (ProviderType up) "openai").
      * destruct (Convert.AnthropicToOpenAIChatRequest Marshal req).
        -- unfold converted_branch, or_retry, log, endRequest, recordRouteResult,
             excluding, set_reqModel.
           destruct (upstream env) eqn:?; destruct last; cbn [negb];
             rewrite ?andb_false_r, ?andb_true_r;
           split_turn; cbn [calls rtr exclude reqModel h0]; close_turn r1 up.
        -- unfold log, endRequest. cbn [calls rtr exclude reqModel h0].
           close_turn r1 up.
      * destruct (String.eqb (ProviderType up) "gemini").
        -- destruct (Convert.ar_Stream req).
           ++ unfold log, endRequest. cbn [calls rtr exclude reqModel h0].
              close_turn r1 up.
           ++ unfold converted_branch, or_retry, log, endRequest, recordRouteResult,
                excluding, set_reqModel.
              destruct (upstream env) eqn:?; destruct last; cbn [negb];
             rewrite ?andb_false_r, ?andb_true_r;
              split_turn; cbn [calls rtr exclude reqModel h0]; close_turn r1 up.
        -- unfold log, endRequest. cbn [calls rtr exclude reqModel h0].
           close_turn r1 up.
Qed.

Lemma pickUpstream_None r clientKey facade model exclude now :
  pickUpstream r None clientKey facade model exclude now = (r, inl ErrConfig).
Proof. reflexivity. Qed.

(** The calls the attempt loop adds, [n] turns being left of
    [maxAttempts]. *)
Lemma attempts_trace envs clientKey origModel req maxAttempts n :
  forall h i,
    (1 <= n)%nat -> 0 <= i -> Z.of_nat n + i = maxAttempts ->
    exists new,
      calls (attempts Marshal h n i maxAttempts envs clientKey origModel req)
      = calls h ++ new
      /\ length (responses new) = 1%nat
      /\ NoDup (started new)
      /\ (i <> 0 -> forall id, In id (started new) -> exclude h !! id <> Some true)
      /\ (length (started new) <= n)%nat
      /\ (length (started new) <= length (ended new) <= length (started new) + 1)%nat
      /\ (ended new = started new
          \/ exists j r0 m ex r' up,
               pickUpstream r0 (getConfig (envs j)) clientKey FacadeAnthropic m ex
                 (now_pick (envs j)) = (r', inr up)
               /\ ProviderType up = "anthropic"%string).
Proof.
  induction n as [|n IH]; intros h i Hn Hi Hmax; [lia|].
  cbn [attempts].
  destruct (attempt_turn h (envs i) (i =? 0) (negb (i + 1 <? maxAttempts))
              clientKey origModel req) as (new & Hturn).
  assert (Hex : forall r' up,
    pickUpstream (rtr h) (getConfig (envs i)) clientKey FacadeAnthropic (reqModel h)
      (if i =? 0 then ∅ else exclude h) (now_pick (envs i)) = (r', inr up) ->
    i <> 0 -> exclude h !! CredentialID up <> Some true).
  { intros r' up Hp Hi0.
    destruct (getConfig (envs i)) as [cfg|]; [|discriminate Hp].
    destruct (Z.eqb_spec i 0); [congruence|].
    apply (pickUpstream_avail _ _ _ _ _ _ _ _ _ Hp). }
  destruct (attempt Marshal h (envs i) (i =? 0) (negb (i + 1 <? maxAttempts))
              clientKey origModel req) as [h'|h'].
  - destruct Hturn as (Hc & Hr & Hse). exists new.
    split; [exact Hc|]. split; [exact Hr|].
    destruct Hse as [[Hs He]|(r' & up & Hp & Hs & He)].
    + rewrite Hs, He. cbn.
      repeat split; try lia; auto; try constructor; try (intros _ id []).
    + rewrite Hs. split; [apply NoDup_singleton|].
      split; [intros Hi0 id [<-|[]]; eapply Hex; eauto|].
      split; [cbn; lia|].
      destruct He as [-> | [-> Ht]]; cbn; (split; [lia|]); eauto 10.
  - destruct Hturn as (Hc & Hl & Hr & r' & up & Hp & Hs & He & Hx).
    apply negb_false_iff, Z.ltb_lt in Hl.
    destruct (IH h' (i + 1)) as (new2 & Hc2 & Hr2 & Hnd & Hnx & Hlen & Hcnt & Hbal);
      [lia|lia|lia|].
    exists (new ++ new2).
    split; [rewrite Hc2, Hc, app_assoc; reflexivity|].
    rewrite started_app, ended_app, responses_app, Hs, He, Hr. cbn [app length].
    split; [exact Hr2|].
    assert (Hnot : forall id, In id (started new2) -> id <> CredentialID up).
    { intros id Hin E. apply (Hnx ltac:(lia) id Hin).
      rewrite Hx, E. apply lookup_insert_eq. }
    split.
    { constructor; [|exact Hnd]. intros Hin. apply list_elem_of_In in Hin.
      eapply Hnot; eauto. }
    split.
    { intros Hi0 id [<-|Hin]; [eapply Hex; eauto|].
      intros E. apply (Hnx ltac:(lia) id Hin).
      rewrite Hx. rewrite lookup_insert_ne; [exact E|].
      intros E'. eapply Hnot; eauto. }
    split; [lia|]. split; [lia|].
    destruct Hbal as [-> | Hbal]; [left; reflexivity|right; exact Hbal].
Qed.

Lemma createMessage_trace r body_err decoded clientKey envs :
  let cs := snd (createMessage Marshal r body_err decoded clientKey envs) in
  length (responses cs) = 1%nat
  /\ NoDup (started cs)
  /\ (length (started cs)
      <= match decoded with
         | Some req => if Convert.ar_Stream req then 1 else 2
         | None => 0
         end)%nat
  /\ (length (started cs) <= length (ended cs) <= length (started cs) + 1)%nat
  /\ (ended cs = started cs
      \/ exists j r0 m ex r' up,
           pickUpstream r0 (getConfig (envs j)) clientKey FacadeAnthropic m ex
             (now_pick (envs j)) = (r', inr up)
           /\ ProviderType up = "anthropic"%string).
Proof.
  unfold createMessage.
  assert (Htriv : forall s d,
    let cs := [WriteError s] in
    length (responses cs) = 1%nat /\ NoDup (started cs)
    /\ (length (started cs) <= d)%nat
    /\ (length (started cs) <= length (ended cs) <= length (started cs) + 1)%nat
    /\ (ended cs = started cs
        \/ exists j r0 m ex r' up,
             pickUpstream r0 (getConfig (envs j)) clientKey FacadeAnthropic m ex
               (now_pick (envs j)) = (r', inr up)
             /\ ProviderType up = "anthropic"%string)).
  { intros s d. cbn. repeat split; try lia; auto. constructor. }
  destruct body_err; [apply Htriv|].
  destruct decoded as [req|]; [|apply Htriv].
  destruct (_ || _); [apply Htriv|].
  cbn [snd].
  set (maxAttempts := if Convert.ar_Stream req then 1 else 2).
  destruct (attempts_trace envs clientKey (Convert.ar_Model req) req maxAttempts
              (Z.to_nat maxAttempts)
              {| rtr := r; reqModel := Convert.ar_Model req; exclude := ∅;
                 calls := [] |} 0)
    as (new & Hc & Hr & Hnd & _ & Hlen & Hcnt & Hbal);
    [subst maxAttempts; destruct (Convert.ar_Stream req); cbn; lia..|].
  cbn [calls app] in Hc. rewrite Hc.
  repeat split; try assumption; try lia.
  subst maxAttempts. destruct (Convert.ar_Stream req); cbn in Hlen; lia.
Qed.

(** X16. The handler answers every request exactly once: whatever the
    request, the configuration and the upstreams do, [createMessage]
    writes one response, an error or a header, and no second one. *)
Theorem createMessage_answers_once r body_err decoded clientKey envs :
  length (responses (snd (createMessage Marshal r body_err decoded clientKey envs)))
  = 1%nat.
Proof. apply createMessage_trace. Qed.

(** X17. The handler never leaves a request in flight: it ends at least
    as many requests as it starts, and at most one more. *)
Theorem createMessage_ends_what_it_starts r body_err decoded clientKey envs :
  let cs := snd (createMessage Marshal r body_err decoded clientKey envs) in
  (length (started cs) <= length (ended cs) <= length (started cs) + 1)%nat.
Proof. apply createMessage_trace. Qed.

(** X18. A retry goes to another credential: the handler starts at most
    two requests, one only for a streaming request, and never two on the
    same credential. *)
Theorem createMessage_retry_other_credential r body_err req clientKey envs :
  let cs := snd (createMessage Marshal r body_err (Some req) clientKey envs) in
  NoDup (started cs)
  /\ (length (started cs) <= if Convert.ar_Stream req then 1 else 2)%nat.
Proof.
  destruct (createMessage_trace r body_err (Some req) clientKey envs)
    as (_ & Hnd & Hlen & _).
  split; assumption.
Qed.

Lemma pickUpstream_ProviderType r cfg clientKey facade model exclude now r' up :
  pickUpstream r (Some cfg) clientKey facade model exclude now = (r', inr up) ->
  ProviderType up = ""%string
  \/ exists pid prov, providers cfg !! pid = Some prov
                      /\ ProviderType up = prov_Type prov.
Proof.
  unfold pickUpstream.
  destruct (_ || _); [discriminate|].
  destruct (poolByClientKey cfg !! clientKey) as [pool|]; [|discriminate].
  destruct (pickCredentialFromPool r cfg pool facade model exclude now)
    as [r1 [credID|]]; [|discriminate].
  destruct (cipher r1 _) as [apiKey|]; [|discriminate].
  intros H. injection H as _ <-. cbn [ProviderType].
  destruct (providers cfg !! _) as [prov|] eqn:E; cbn [default]; eauto.
Qed.

(** X19. With no provider of type [anthropic] in the configuration,
    every request the handler starts is ended exactly once: the
    credentials of its [EndRequest] calls are those of its
    [StartRequest] calls, in the same order. *)
Theorem createMessage_balanced_without_anthropic
    r body_err decoded clientKey envs :
  (forall j cfg pid prov,
      getConfig (envs j) = Some cfg -> providers cfg !! pid = Some prov ->
      prov_Type prov <> "anthropic"%string) ->
  ended (snd (createMessage Marshal r body_err decoded clientKey envs))
  = started (snd (createMessage Marshal r body_err decoded clientKey envs)).
Proof.
  intros Hno.
  destruct (createMessage_trace r body_err decoded clientKey envs)
    as (_ & _ & _ & _ & [H|(j & r0 & m & ex & r' & up & Hp & Ht)]); [exact H|].
  exfalso.
  destruct (getConfig (envs j)) as [cfg|] eqn:Ec; [|discriminate Hp].
  destruct (pickUpstream_ProviderType _ _ _ _ _ _ _ _ _ Hp)
    as [E|(pid & prov & Hprov & E)].
  - rewrite E in Ht. discriminate Ht.
  - eapply Hno; eauto. congruence.
Qed.

End HandlerProps.

Lemma createMessage_balanced_without_anthropic_witness :
  Trace.ended
    (snd (Handler.createMessage Sample.marshal0 Sample.router0 false
            (Some (Sample.request1 false)) "k2" (SampleOpenAI.answers2 500)))
  = [8%N; 7%N].
Proof.
  rewrite (createMessage_balanced_without_anthropic Sample.marshal0 Sample.router0
             false (Some (Sample.request1 false)) "k2" (SampleOpenAI.answers2 500)).
  - vm_compute. reflexivity.
  - intros j cfg pid prov [= <-] Hp.
    destruct (decide (pid = 2%N)) as [->|Hn].
    + cbn in Hp. injection Hp as <-. discriminate.
    + cbn in Hp. rewrite lookup_singleton_ne in Hp by congruence. discriminate Hp.
Defined.

(** ** The stream transcoders *)

Section Envelope.

Import StreamConv Protocol.

Variable Unmarshal : string -> option any.

Abbreviation role_chunk env := (delta_chunk env [("role", Str "assistant")]).


Lemma a2o_inv_append env (st st' : a2o_state) evs :
  sentRole st = true -> sentRole st' = true ->
  a2o_finishReason st' = a2o_finishReason st ->
  a2o_written st' = a2o_written st ++ evs ->
  a2o_inv env st -> a2o_inv env st'.
Proof.
  intros Hs Hs' Hf Hw (If & _ & Iw). unfold a2o_inv.
  rewrite Hf, Hw. split; [exact If|]. split; [congruence|].
  intros _. destruct (Iw Hs) as (rest & ->). eauto.
Qed.

Lemma a2o_content_block_start_inv env st ev :
  sentRole st = true -> a2o_inv env st ->
  a2o_inv env (a2o_content_block_start env st ev)
  /\ sentRole (a2o_content_block_start env st ev) = true.
Proof.
  intros Hs Hi. unfold a2o_content_block_start.
  destruct (lookup "content_block" ev); auto.
  set (st1 := if is_str _ "thinking" then _ else st).
  assert (H1 : a2o_inv env st1 /\ sentRole st1 = true).
  { subst st1. destruct (is_str _ "thinking"); [|auto].
    split; [|exact Hs].
    eapply (a2o_inv_append env st); eauto; reflexivity. }
  destruct H1 as [Hi1 Hs1].
  destruct (is_str _ "tool_use"); [|auto].
  destruct (_ || _); [auto|].
  split; [|exact Hs1].
  eapply (a2o_inv_append env st1); eauto; reflexivity.
Qed.

Lemma a2o_content_block_delta_inv env st ev :
  sentRole st = true -> a2o_inv env st ->
  a2o_inv env (a2o_content_block_delta env st ev)
  /\ sentRole (a2o_content_block_delta env st ev) = true.
Proof.
  intros Hs Hi. unfold a2o_content_block_delta.
  assert (He : forall evs, a2o_inv env (a2o_emit st evs)
                           /\ sentRole (a2o_emit st evs) = true).
  { intros evs. split; [|exact Hs].
    eapply (a2o_inv_append env st); eauto; reflexivity. }
  destruct (lookup "delta" ev); auto.
  destruct (is_str _ "thinking_delta").
  { destruct (lookup "thinking" _); auto. destruct (String.eqb _ _); auto. }
  destruct (is_str _ "text_delta").
  { destruct (lookup "text" _); auto. destruct (String.eqb _ _); auto. }
  destruct (is_str _ "input_json_delta"); auto.
  destruct (_ || _); auto.
Qed.

Lemma a2o_message_delta_inv env st ev :
  sentRole st = true -> a2o_inv env st ->
  a2o_inv env (a2o_message_delta st ev)
  /\ sentRole (a2o_message_delta st ev) = true.
Proof.
  intros Hs Hi. unfold a2o_message_delta.
  destruct (lookup "delta" ev); auto.
  destruct (lookup "stop_reason" _); auto.
  destruct (String.eqb _ ""); auto.
  destruct Hi as (_ & I0 & I1). unfold a2o_inv, finish_ok.
  cbn [a2o_finishReason a2o_written sentRole].
  repeat split; auto.
  destruct (_ || _); [auto|].
  destruct (String.eqb _ "max_tokens"); [auto|].
  destruct (String.eqb _ "tool_use"); auto.
Qed.

Lemma a2o_block_inv env st block :
  a2o_inv env st -> a2o_inv env (a2o_block Unmarshal env st block).
Proof.
  intros Hi. unfold a2o_block.
  destruct (String.eqb _ ""); [exact Hi|].
  destruct (unmarshal_map Unmarshal _) as [ev|]; [|exact Hi].
  set (st1 := if sentRole st then st else _).
  assert (H1 : a2o_inv env st1 /\ sentRole st1 = true).
  { subst st1.
    assert (Hd : sentRole st = true \/ sentRole st = false)
      by (destruct (sentRole st); auto).
    destruct Hd as [Es|Es]; rewrite Es; [auto|].
    destruct Hi as (If & I0 & _). unfold a2o_inv.
    cbn [a2o_finishReason a2o_written sentRole].
    rewrite (I0 Es). repeat split; auto; try discriminate. eauto. }
  destruct H1 as [Hi1 Hs1].
  destruct (is_str _ "content_block_start");
    [apply a2o_content_block_start_inv; assumption|].
  destruct (is_str _ "content_block_delta");
    [apply a2o_content_block_delta_inv; assumption|].
  destruct (is_str _ "message_delta");
    [apply a2o_message_delta_inv; assumption|].
  exact Hi1.
Qed.

Lemma a2o_loop_inv env st b lines final :
  a2o_inv env st ->
  snd (a2o_loop Unmarshal env st b lines final) = None ->
  exists st', a2o_inv env st'
              /\ a2o_loop Unmarshal env st b lines final = a2o_finish env st'.
Proof.
  revert st b. induction lines as [|line rest IH]; intros st b Hi; cbn [a2o_loop].
  - destruct final; [eauto|discriminate].
  - destruct (blank_line line); [|apply IH; exact Hi].
    apply IH. apply a2o_block_inv, Hi.
Qed.

(** X20. When the Anthropic stream ends without a read error, the
    OpenAI stream [AnthropicToOpenAI] writes ends with a chunk carrying
    an empty delta and a finish reason among [stop], [length] and
    [tool_calls], followed by [data: [DONE]]; whatever comes before
    starts with the chunk that announces the assistant role. *)
Theorem AnthropicToOpenAI_envelope uuid created r model out :
  AnthropicToOpenAI Unmarshal true uuid created r model = (out, None) ->
  let env := {| chunk_id := "chatcmpl_" +:+ uuid; chunk_created := created;
                chunk_model := model |} in
  exists body fr,
    out = body ++ [chunk env [("delta", Obj []); ("finish_reason", Str fr)];
                   Raw ("data: [DONE]" +:+ LF +:+ LF); Flush]
    /\ finish_ok fr
    /\ (body = [] \/ exists rest, body = role_chunk env :: Flush :: rest).
Proof.
  intros H env. unfold AnthropicToOpenAI in H. cbn [negb] in H. fold env in H.
  set (st0 := {| sentRole := false; a2o_finishReason := "stop";
                 toolIDsByIndex := ∅; a2o_written := [] |}) in H.
  assert (Hi0 : a2o_inv env st0).
  { unfold a2o_inv, finish_ok. cbn. repeat split; auto. discriminate. }
  destruct (a2o_loop_inv env st0 "" (rd_lines r) (rd_err r) Hi0) as (st' & Hi & E).
  { rewrite H. reflexivity. }
  rewrite E in H. unfold a2o_finish in H. injection H as <-.
  destruct Hi as (If & I0 & I1).
  exists (a2o_written st'), (a2o_finishReason st').
  split; [reflexivity|]. split; [exact If|].
  destruct (sentRole st'); [right|left]; auto.
Qed.

End Envelope.

Lemma AnthropicToOpenAI_envelope_witness :
  let env := {| StreamConv.chunk_id := "chatcmpl_u"; StreamConv.chunk_created := 1;
                StreamConv.chunk_model := "gpt-4" |} in
  exists body fr,
    fst (StreamConv.AnthropicToOpenAI SampleStream.unmarshal1 true "u" 1
           SampleStream.anthropic_stream "gpt-4")
    = body ++ [StreamConv.chunk env [("delta", Obj []); ("finish_reason", Str fr)];
               StreamConv.Raw ("data: [DONE]" +:+ StreamConv.LF +:+ StreamConv.LF);
               StreamConv.Flush]
    /\ Protocol.finish_ok fr
    /\ (body = []
        \/ exists rest,
             body = StreamConv.delta_chunk env [("role", Str "assistant")]
                    :: StreamConv.Flush :: rest).
Proof.
  apply (AnthropicToOpenAI_envelope SampleStream.unmarshal1 "u" 1
           SampleStream.anthropic_stream "gpt-4").
  vm_compute. reflexivity.
Defined.

Section Bracketing.

Import StreamConv Protocol.

Variable Unmarshal : string -> option any.

Lemma mem_In i l : mem i l = true <-> In i l.
Proof.
  unfold mem. rewrite existsb_exists. split.
  - intros (x & Hx & E). apply Z.eqb_eq in E. subst. exact Hx.
  - intros H. exists i. split; [exact H|apply Z.eqb_refl].
Qed.

Lemma mem_false i l : ~ In i l -> mem i l = false.
Proof.
  intros H. destruct (mem i l) eqn:E; [|reflexivity].
  apply mem_In in E. contradiction.
Qed.

Lemma int_of_JInt z : int_of (JInt z) = z.
Proof. cbn. apply Z.quot_1_r. Qed.

Lemma kind_of_block_start idx cb : kind_of (block_start idx cb) = BlockStart idx.
Proof. unfold kind_of, block_start, event_index. cbn. f_equal. apply Z.quot_1_r. Qed.

Lemma kind_of_block_delta idx d : kind_of (block_delta idx d) = BlockDelta idx.
Proof. unfold kind_of, block_delta, event_index. cbn. f_equal. apply Z.quot_1_r. Qed.

Lemma o2a_inv_delta st l idx d :
  o2a_inv st l -> openBlocks st !! idx = Some true ->
  o2a_inv (o2a_emit st [block_delta idx d; Flush]) l.
Proof.
  intros (Hf & Hnd & Hl & Hb & Ht & Hn & Hlen) Ho.
  unfold o2a_inv. cbn [o2a_emit written openBlocks nextIndex toolIndexByID].
  split_and!; try assumption.
  - rewrite fold_left_app, Hf. cbn [fold_left step].
    rewrite kind_of_block_delta.
    assert (Hm : mem idx l = true) by (apply mem_In, Hl, Ho).
    rewrite Hm. reflexivity.
  - lia.
  - lia.
  - rewrite length_app. cbn. lia.
Qed.

(** A state that differs from [st] by one more block, started at the
    fresh index [idx]. *)
Lemma o2a_inv_start st st' l idx cb tail id :
  o2a_inv st l ->
  openBlocks st !! idx = None ->
  0 <= idx ->
  written st' = written st ++ block_start idx cb :: tail ->
  Forall (fun o => kind_of o = Other) tail ->
  openBlocks st' = <[idx := true]> (openBlocks st) ->
  idx < nextIndex st' -> nextIndex st <= nextIndex st' ->
  nextIndex st' <= Z.of_nat (length l) + 1 ->
  (toolIndexByID st' = toolIndexByID st
   \/ toolIndexByID st' = <[id := idx]> (toolIndexByID st)) ->
  o2a_inv st' (idx :: l).
Proof.
  intros (Hf & Hnd & Hl & Hb & Ht & Hn & Hlen) Ho Hi Hw Htail Hob Hn1 Hn2 Hn3 Htool.
  assert (Hnot : ~ In idx l).
  { intros Hin. apply Hl in Hin. congruence. }
  unfold o2a_inv. rewrite Hw, Hob. split_and!.
  - rewrite fold_left_app, Hf. cbn [fold_left step].
    rewrite kind_of_block_start, (mem_false _ _ Hnot).
    clear Hw. induction Htail as [|o tail Ho' _ IH]; [reflexivity|].
    cbn [fold_left step]. rewrite Ho'. exact IH.
  - constructor; [|exact Hnd]. rewrite list_elem_of_In. exact Hnot.
  - intros i. destruct (Z.eq_dec i idx) as [->|Hne].
    + rewrite lookup_insert_eq. split; [reflexivity|]. intros _. left. reflexivity.
    + rewrite lookup_insert_ne by congruence. rewrite <- Hl. cbn [In].
      split; [intros [E|H]; [congruence|exact H]|auto].
  - intros i b. destruct (Z.eq_dec i idx) as [->|Hne].
    + rewrite lookup_insert_eq. intros [= <-]. split; [reflexivity|lia].
    + rewrite lookup_insert_ne by congruence. intros H.
      destruct (Hb i b H) as [-> Hr]. split; [reflexivity|lia].
  - intros id' i Hti.
    assert (Hcase : i = idx \/ toolIndexByID st !! id' = Some i).
    { destruct Htool as [E|E]; rewrite E in Hti; [auto|].
      destruct (decide (id' = id)) as [->|Hne].
      - rewrite lookup_insert_eq in Hti. left. congruence.
      - rewrite lookup_insert_ne in Hti by congruence. auto. }
    destruct Hcase as [->|H]; [apply lookup_insert_eq|].
    destruct (Z.eq_dec i idx) as [->|Hne]; [apply lookup_insert_eq|].
    rewrite lookup_insert_ne by congruence. eapply Ht, H.
  - lia.
  - cbn [length]. lia.
  - rewrite length_app. cbn [length]. lia.
Qed.

(** One part of the loop body: it only appends to the output, and it
    keeps the invariant as long as the output stays below 2^63
    events. *)
Abbreviation o2a_step st st' :=
  ((exists more, written st' = written st ++ more)
   /\ (Z.of_nat (length (written st')) < 2 ^ 63 ->
       forall l, o2a_inv st l -> exists l', o2a_inv st' l')).

Lemma o2a_step_refl st : o2a_step st st.
Proof. split; [exists []; symmetry; apply app_nil_r|eauto]. Qed.

Lemma o2a_step_trans st1 st2 st3 :
  o2a_step st1 st2 -> o2a_step st2 st3 -> o2a_step st1 st3.
Proof.
  intros [(m1 & H1) I1] [(m2 & H2) I2]. split.
  - exists (m1 ++ m2). rewrite H2, H1, app_assoc. reflexivity.
  - intros Hb l Hi.
    destruct (I1 ltac:(rewrite H2, length_app in Hb; lia) l Hi) as (l' & Hi').
    eapply I2; eauto.
Qed.

Lemma o2a_reasoning_step st delta : o2a_step st (o2a_reasoning st delta).
Proof.
  unfold o2a_reasoning.
  destruct (lookup "reasoning_content" delta); try apply o2a_step_refl.
  destruct (String.eqb s ""); [apply o2a_step_refl|].
  destruct (openBlocks st !! 0) as [b|] eqn:E.
  - split; [eexists; reflexivity|]. intros _ l Hi. exists l.
    apply o2a_inv_delta; [exact Hi|].
    destruct Hi as (_ & _ & _ & Hb & _). destruct (Hb 0 b E) as [-> _]. exact E.
  - split; [cbn [o2a_emit o2a_open written]; rewrite <- app_assoc; eexists;
            reflexivity|].
    intros _ l Hi. exists (0 :: l).
    apply o2a_inv_delta; [|cbn [o2a_open o2a_emit openBlocks]; apply lookup_insert_eq].
    assert (Hn := Hi). destruct Hn as (_ & _ & _ & _ & _ & Hn & _).
    eapply (o2a_inv_start st _ l 0 _ [] ""%string); eauto;
      cbn [o2a_open o2a_emit written openBlocks nextIndex toolIndexByID];
      try reflexivity; try lia; auto;
      destruct (Z.leb_spec (nextIndex st) 0); lia.
Qed.

Lemma o2a_content_step st delta : o2a_step st (o2a_content st delta).
Proof.
  unfold o2a_content.
  destruct (lookup "content" delta); try apply o2a_step_refl.
  destruct (String.eqb s ""); [apply o2a_step_refl|].
  set (idx := if default false (openBlocks st !! 0) then 1 else 0).
  destruct (openBlocks st !! idx) as [b|] eqn:E.
  - split; [eexists; reflexivity|]. intros _ l Hi. exists l.
    apply o2a_inv_delta; [exact Hi|].
    destruct Hi as (_ & _ & _ & Hb & _). destruct (Hb idx b E) as [-> _]. exact E.
  - split; [cbn [o2a_emit o2a_open written]; rewrite <- app_assoc; eexists;
            reflexivity|].
    intros _ l Hi. exists (idx :: l).
    apply o2a_inv_delta; [|cbn [o2a_open o2a_emit openBlocks]; apply lookup_insert_eq].
    assert (Hn := Hi). destruct Hn as (_ & _ & Hl & _ & _ & Hn & _).
    assert (Hidx : 0 <= idx <= Z.of_nat (length l)).
    { subst idx. destruct (openBlocks st !! 0) as [[|]|] eqn:E0; cbn; try lia.
      apply Hl in E0. destruct l; [destruct E0|cbn [length]; lia]. }
    eapply (o2a_inv_start st _ l idx _ [] ""%string); eauto;
      cbn [o2a_open o2a_emit written openBlocks nextIndex toolIndexByID];
      try reflexivity; try lia; auto;
      destruct (Z.leb_spec (nextIndex st) idx); lia.
Qed.

Lemma o2a_tool_call_step st tci : o2a_step st (o2a_tool_call st tci).
Proof.
  unfold o2a_tool_call.
  destruct tci as [| | | | |tc|]; try apply o2a_step_refl.
  destruct (String.eqb (GoStrings.TrimSpace _) ""); [apply o2a_step_refl|].
  set (id := as_string (lookup "id" tc)).
  set (fn := as_object (lookup "function" tc)).
  destruct (toolIndexByID st !! id) as [idx|] eqn:E.
  - destruct (String.eqb (as_string (lookup "arguments" fn)) "");
      [apply o2a_step_refl|].
    split; [eexists; reflexivity|]. intros _ l Hi. exists l.
    apply o2a_inv_delta; [exact Hi|].
    destruct Hi as (_ & _ & _ & _ & Ht & _). eapply Ht, E.
  - set (st1 := {| nextIndex := wrap64 (nextIndex st + 1);
                   openBlocks := <[nextIndex st := true]> (openBlocks st);
                   toolIndexByID := <[id := nextIndex st]> (toolIndexByID st);
                   finishReason := finishReason st;
                   written := written st ++ _ |}).
    assert (H1 : Z.of_nat (length (written st1)) < 2 ^ 63 ->
                 forall l, o2a_inv st l -> o2a_inv st1 (nextIndex st :: l)).
    { intros Hbound l Hi. assert (Hn := Hi).
      destruct Hn as (_ & _ & _ & Hb & _ & Hn & Hlen).
      assert (Hw : wrap64 (nextIndex st + 1) = nextIndex st + 1).
      { apply wrap64_small. subst st1. cbn [written] in Hbound.
        rewrite length_app in Hbound. cbn [length] in Hbound. lia. }
      eapply (o2a_inv_start st st1 l (nextIndex st) _ [Flush] id); eauto;
        cbn [st1 written openBlocks nextIndex toolIndexByID];
        try reflexivity; try lia; auto.
      - destruct (openBlocks st !! nextIndex st) as [b|] eqn:Eo; [|reflexivity].
        destruct (Hb _ _ Eo). lia. }
    destruct (String.eqb (as_string (lookup "arguments" fn)) "").
    + split; [eexists; reflexivity|]. intros Hbound l Hi. eauto.
    + split; [cbn [o2a_emit st1 written]; rewrite <- app_assoc; eexists;
              reflexivity|].
      intros Hbound l Hi. exists (nextIndex st :: l).
      apply o2a_inv_delta; [|cbn [st1 openBlocks]; apply lookup_insert_eq].
      apply H1; [|exact Hi].
      cbn [o2a_emit written] in Hbound. rewrite length_app in Hbound. lia.
Qed.

Lemma o2a_tool_calls_step tcRaw : forall st, o2a_step st (fold_left o2a_tool_call tcRaw st).
Proof.
  induction tcRaw as [|tci rest IH]; intros st; [apply o2a_step_refl|].
  cbn [fold_left]. eapply o2a_step_trans; [apply o2a_tool_call_step|apply IH].
Qed.

Lemma o2a_delta_step st c0 : o2a_step st (o2a_delta st c0).
Proof.
  unfold o2a_delta.
  destruct (lookup "delta" c0) as [| | | | |delta|]; try apply o2a_step_refl.
  assert (H1 : o2a_step st (o2a_content (o2a_reasoning st delta) delta))
    by (eapply o2a_step_trans; [apply o2a_reasoning_step|apply o2a_content_step]).
  destruct (lookup "tool_calls" delta); try exact H1.
  eapply o2a_step_trans; [exact H1|apply o2a_tool_calls_step].
Qed.

Lemma o2a_block_step st block :
  match o2a_block Unmarshal st block with
  | Continue st' | Break st' => o2a_step st st'
  end.
Proof.
  unfold o2a_block.
  destruct (String.eqb _ ""); [apply o2a_step_refl|].
  destruct (String.eqb _ "[DONE]"); [apply o2a_step_refl|].
  destruct (unmarshal_map Unmarshal _) as [chunk|]; [|apply o2a_step_refl].
  destruct (lookup "choices" chunk) as [| | | |[|choice0 more]| |];
    try apply o2a_step_refl.
  assert (H1 := o2a_delta_step st (as_object choice0)).
  destruct (lookup "finish_reason" _); try exact H1.
  destruct (String.eqb s ""); [exact H1|].
  destruct H1 as [Hw Hi]. split; [exact Hw|].
  intros Hb l Hl. destruct (Hi Hb l Hl) as (l' & Hl'). exists l'. exact Hl'.
Qed.

Lemma o2a_loop_final lines final out :
  forall st b,
    o2a_loop Unmarshal st b lines final = (out, None) ->
    exists st', o2a_step st st' /\ out = fst (o2a_finish st').
Proof.
  induction lines as [|line rest IH]; intros st b H; cbn [o2a_loop] in H.
  - destruct final; [|discriminate H].
    exists st. split; [apply o2a_step_refl|]. rewrite H. reflexivity.
  - destruct (blank_line line); [|eapply IH, H].
    assert (Hs := o2a_block_step st b).
    destruct (o2a_block Unmarshal st b) as [st1|st1].
    + destruct (IH _ _ H) as (st' & Hs' & ->).
      exists st'. split; [eapply o2a_step_trans; eauto|reflexivity].
    + exists st1. split; [exact Hs|]. rewrite H. reflexivity.
Qed.

(** The [content_block_stop] events close what is open, in index
    order. *)
Lemma o2a_stops_run opened seen n :
  forall from open,
    NoDup open ->
    (forall j, In j open <-> default false (opened !! j) = true /\ from <= j) ->
    exists open',
      fold_left step (o2a_stops opened from n) (Some (seen, open))
      = Some (seen, open')
      /\ NoDup open'
      /\ (forall j, In j open'
                    <-> default false (opened !! j) = true /\ from + Z.of_nat n <= j).
Proof.
  induction n as [|n IH]; intros from open Hnd Hopen.
  - exists open. split; [reflexivity|]. split; [exact Hnd|].
    intros j. rewrite Hopen. replace (from + Z.of_nat 0) with from by lia. tauto.
  - cbn [o2a_stops]. rewrite fold_left_app.
    destruct (default false (opened !! from)) eqn:E.
    + cbn [fold_left step kind_of String.eqb Ascii.eqb Bool.eqb].
      replace (event_index _) with from
        by (unfold event_index; cbn; symmetry; apply Z.quot_1_r).
      assert (Hm : mem from open = true) by (apply mem_In, Hopen; split; [exact E|lia]).
      rewrite Hm.
      destruct (IH (from + 1) (List.filter (fun j => negb (j =? from)) open))
        as (open' & Hf & Hnd' & Ho').
      * apply NoDup_ListNoDup, List.NoDup_filter, NoDup_ListNoDup, Hnd.
      * intros j. rewrite filter_In, Hopen, negb_true_iff, Z.eqb_neq.
        intuition lia.
      * exists open'. split; [exact Hf|]. split; [exact Hnd'|].
        intros j. rewrite Ho'. intuition lia.
    + cbn [fold_left].
      destruct (IH (from + 1) open Hnd) as (open' & Hf & Hnd' & Ho').
      * intros j. rewrite Hopen. split; [|intros [? ?]; split; [assumption|lia]].
        intros [Hj ?]. split; [exact Hj|].
        destruct (Z.eq_dec j from) as [->|]; [congruence|lia].
      * exists open'. split; [exact Hf|]. split; [exact Hnd'|].
        intros j. rewrite Ho'. intuition lia.
Qed.

Lemma o2a_finish_well_bracketed st l :
  o2a_inv st l -> well_bracketed (fst (o2a_finish st)) = true.
Proof.
  intros (Hf & Hnd & Hl & Hb & _ & Hn & _).
  unfold well_bracketed, o2a_finish. cbn [fst].
  rewrite !fold_left_app, Hf.
  destruct (o2a_stops_run (openBlocks st) l (Z.to_nat (nextIndex st)) 0 l)
    as (open' & Hrun & _ & Ho').
  - exact Hnd.
  - intros j. rewrite Hl. split.
    + intros E. rewrite E. split; [reflexivity|]. apply (Hb j true E).
    + intros [E _]. destruct (openBlocks st !! j) as [[|]|]; try discriminate E.
      reflexivity.
  - rewrite Hrun. cbn.
    destruct open' as [|j rest]; [reflexivity|].
    assert (Hj : In j (j :: rest)) by (left; reflexivity).
    apply Ho' in Hj. destruct Hj as [Hj Hge].
    destruct (openBlocks st !! j) as [b|] eqn:E; [|discriminate Hj].
    destruct (Hb j b E). lia.
Qed.

Lemma o2a_inv_init msgID model :
  o2a_inv {| nextIndex := 0; openBlocks := ∅; toolIndexByID := ∅;
             finishReason := "";
             written := [message_start msgID model; Flush] |} [].
Proof.
  unfold o2a_inv. cbn [written openBlocks nextIndex toolIndexByID length].
  split; [reflexivity|]. split; [constructor|].
  split; [intros i; rewrite lookup_empty; split; [intros []|discriminate]|].
  split; [intros i b H; rewrite lookup_empty in H; discriminate H|].
  split; [intros id i H; rewrite lookup_empty in H; discriminate H|].
  split; lia.
Qed.

(** X21. The Anthropic event stream [OpenAIToAnthropic] writes keeps
    the block discipline: no block index is started twice, every delta
    goes to a block that has been started and not stopped, and when the
    stream ends without a read error every block that was started has
    been stopped, once, before [message_delta]. *)
Theorem OpenAIToAnthropic_well_bracketed uuid r model out :
  OpenAIToAnthropic Unmarshal true uuid r model = (out, None) ->
  Z.of_nat (length out) < 2 ^ 63 ->
  well_bracketed out = true.
Proof.
  intros H Hbound. unfold OpenAIToAnthropic in H. cbn [negb] in H.
  destruct (o2a_loop_final _ _ _ _ _ H) as (st' & [(more & Hw) Hi] & ->).
  assert (Hb' : Z.of_nat (length (written st')) < 2 ^ 63).
  { unfold o2a_finish in Hbound. cbn [fst] in Hbound.
    rewrite length_app in Hbound. lia. }
  destruct (Hi Hb' [] (o2a_inv_init _ _)) as (l & Hl).
  eapply o2a_finish_well_bracketed, Hl.
Qed.

Abbreviation stop_ok sr :=
  (sr = "end_turn"%string \/ sr = "max_tokens"%string \/ sr = "tool_use"%string).

Lemma o2a_stop_reason_ok fr : stop_ok (o2a_stop_reason fr).
Proof.
  unfold o2a_stop_reason.
  destruct (String.eqb _ "tool_calls"); [auto|].
  destruct (String.eqb _ "length"); auto.
Qed.

(** X22. When the OpenAI stream ends without a read error, the event
    stream [OpenAIToAnthropic] writes starts with [message_start] and
    ends with [message_delta], carrying a stop reason among
    [end_turn], [max_tokens] and [tool_use], then [message_stop]. *)
Theorem OpenAIToAnthropic_envelope uuid r model out :
  OpenAIToAnthropic Unmarshal true uuid r model = (out, None) ->
  exists body sr,
    out = message_start ("msg_" +:+ uuid) model :: Flush :: body
          ++ [AnthropicEvent "message_delta"
                (Obj [("type", Str "message_delta");
                      ("delta", Obj [("stop_reason", Str sr)])]);
              AnthropicEvent "message_stop" (Obj [("type", Str "message_stop")]);
              Flush]
    /\ stop_ok sr.
Proof.
  intros H. unfold OpenAIToAnthropic in H. cbn [negb] in H.
  destruct (o2a_loop_final _ _ _ _ _ H) as (st' & [(more & Hw) _] & ->).
  cbn [written] in Hw.
  exists (more ++ o2a_stops (openBlocks st') 0 (Z.to_nat (nextIndex st'))),
         (o2a_stop_reason (finishReason st')).
  split; [|apply o2a_stop_reason_ok].
  unfold o2a_finish. cbn [fst]. rewrite Hw. cbn [app].
  rewrite <- app_assoc. reflexivity.
Qed.

(** *** Data after the last blank line *)

Lemma o2a_loop_tail st tail :
  Forall (fun line => blank_line line = false) tail ->
  forall b, o2a_loop Unmarshal st b tail EOF = o2a_finish st.
Proof.
  induction 1 as [|line tail Hl _ IH]; intros b; cbn [o2a_loop]; [reflexivity|].
  rewrite Hl. apply IH.
Qed.

Lemma a2o_loop_tail env st tail :
  Forall (fun line => blank_line line = false) tail ->
  forall b, a2o_loop Unmarshal env st b tail EOF = a2o_finish env st.
Proof.
  induction 1 as [|line tail Hl _ IH]; intros b; cbn [a2o_loop]; [reflexivity|].
  rewrite Hl. apply IH.
Qed.

Lemma o2a_loop_app_tail lines tail :
  Forall (fun line => blank_line line = false) tail ->
  forall st b,
    o2a_loop Unmarshal st b (lines ++ tail) EOF = o2a_loop Unmarshal st b lines EOF.
Proof.
  intros Ht. induction lines as [|line rest IH]; intros st b.
  - cbn [app]. rewrite o2a_loop_tail by exact Ht. reflexivity.
  - cbn [app o2a_loop]. destruct (blank_line line); [|apply IH].
    destruct (o2a_block Unmarshal st b); [apply IH|reflexivity].
Qed.

Lemma a2o_loop_app_tail env lines tail :
  Forall (fun line => blank_line line = false) tail ->
  forall st b,
    a2o_loop Unmarshal env st b (lines ++ tail) EOF
    = a2o_loop Unmarshal env st b lines EOF.
Proof.
  intros Ht. induction lines as [|line rest IH]; intros st b.
  - cbn [app]. rewrite a2o_loop_tail by exact Ht. reflexivity.
  - cbn [app a2o_loop]. destruct (blank_line line); apply IH.
Qed.

(** X23. A block the upstream does not terminate is dropped: when the
    stream ends, the lines after the last blank line, and whatever
    follows the last newline, have no effect on what either transcoder
    writes. *)
Theorem unterminated_block_is_dropped uuid created lines tail partial model :
  Forall (fun line => blank_line line = false) tail ->
  OpenAIToAnthropic Unmarshal true uuid
    {| rd_lines := lines ++ tail; rd_partial := partial; rd_err := EOF |} model
  = OpenAIToAnthropic Unmarshal true uuid
      {| rd_lines := lines; rd_partial := ""; rd_err := EOF |} model
  /\ AnthropicToOpenAI Unmarshal true uuid created
       {| rd_lines := lines ++ tail; rd_partial := partial; rd_err := EOF |} model
     = AnthropicToOpenAI Unmarshal true uuid created
         {| rd_lines := lines; rd_partial := ""; rd_err := EOF |} model.
Proof.
  intros Ht. unfold OpenAIToAnthropic, AnthropicToOpenAI.
  cbn [negb rd_lines rd_err]. split.
  - apply o2a_loop_app_tail, Ht.
  - apply a2o_loop_app_tail, Ht.
Qed.

End Bracketing.

Lemma OpenAIToAnthropic_well_bracketed_witness :
  Protocol.well_bracketed
    (fst (StreamConv.OpenAIToAnthropic SampleStream.unmarshal1 true "u"
            SampleStream.openai_stream "claude"))
  = true.
Proof.
  apply (OpenAIToAnthropic_well_bracketed SampleStream.unmarshal1 "u"
           SampleStream.openai_stream "claude").
  - vm_compute. reflexivity.
  - vm_compute. reflexivity.
Defined.

Lemma OpenAIToAnthropic_envelope_witness :
  exists body sr,
    fst (StreamConv.OpenAIToAnthropic SampleStream.unmarshal1 true "u"
           SampleStream.openai_stream "claude")
    = StreamConv.message_start "msg_u" "claude" :: StreamConv.Flush :: body
      ++ [StreamConv.AnthropicEvent "message_delta"
            (Obj [("type", Str "message_delta");
                  ("delta", Obj [("stop_reason", Str sr)])]);
          StreamConv.AnthropicEvent "message_stop"
            (Obj [("type", Str "message_stop")]);
          StreamConv.Flush]
    /\ (sr = "end_turn"%string \/ sr = "max_tokens"%string \/ sr = "tool_use"%string).
Proof.
  apply (OpenAIToAnthropic_envelope SampleStream.unmarshal1 "u"
           SampleStream.openai_stream "claude").
  vm_compute. reflexivity.
Defined.

Lemma unterminated_block_is_dropped_witness :
  StreamConv.OpenAIToAnthropic SampleStream.unmarshal1 true "u"
    {| StreamConv.rd_lines :=
         StreamConv.rd_lines SampleStream.openai_stream
         ++ ["data: c2" +:+ StreamConv.LF];
       StreamConv.rd_partial := "data: c1"; StreamConv.rd_err := StreamConv.EOF |}
    "claude"
  = StreamConv.OpenAIToAnthropic SampleStream.unmarshal1 true "u"
      {| StreamConv.rd_lines := StreamConv.rd_lines SampleStream.openai_stream;
         StreamConv.rd_partial := ""; StreamConv.rd_err := StreamConv.EOF |}
      "claude".
Proof.
  apply (unterminated_block_is_dropped SampleStream.unmarshal1 "u" 1
           (StreamConv.rd_lines SampleStream.openai_stream)
           ["data: c2" +:+ StreamConv.LF] "data: c1" "claude").
  repeat constructor.
Defined.

(** ** The converters: what else a round trip keeps *)

Section MoreRoundTrips.

Import Convert RoundTrip.

Variable Marshal : any -> string.
Variable Unmarshal : string -> option any.

Lemma bind_inv {A B} (c : result A) (k : A -> result B) b :
  bind c k = Ok b -> exists a, c = Ok a /\ k a = Ok b.
Proof. destruct c as [a|e]; [eauto|discriminate]. Qed.

Ltac inv_bind' H :=
  let a := fresh "a" in
  let Ha := fresh "Ha" in
  apply bind_inv in H; destruct H as (a & Ha & H).

(** *** The choice of a tool *)

(** The choice a document stands for: its type, and the tool it names
    when the type is [tool]. *)
Abbreviation same_choice doc doc' :=
  (lookup "type" doc' = Str (as_string (lookup "type" doc))
   /\ (as_string (lookup "type" doc) = "tool"%string ->
       lookup "name" doc' = Str (as_string (lookup "name" doc)))).

(** X24. The choice of a tool survives the round trip: when
    [anthropicToolChoiceToOpenAIToolChoiceRaw] accepts a choice,
    [openAIToolChoiceToAnthropicToolChoice] accepts what it made of it
    and gives back a choice of the same type ([auto], [none], [any] or
    [tool]) and, for [tool], of the same tool; no choice stays no
    choice. *)
Theorem tool_choice_round_trip raw raw1 :
  anthropicToolChoiceToOpenAIToolChoiceRaw raw = Ok raw1 ->
  match raw with
  | None => openAIToolChoiceToAnthropicToolChoice raw1 = Ok None
  | Some doc =>
      exists m doc',
        unmarshal_object doc = Some m
        /\ openAIToolChoiceToAnthropicToolChoice raw1 = Ok (Some (Obj doc'))
        /\ same_choice m doc'
  end.
Proof.
  unfold anthropicToolChoiceToOpenAIToolChoiceRaw.
  destruct raw as [doc|]; [|intros [= <-]; reflexivity].
  destruct (unmarshal_object doc) as [m|]; [|discriminate].
  destruct (String.eqb_spec (as_string (lookup "type" m)) "auto") as [E|_].
  { intros [= <-]. exists m, [("type", Str "auto")]. rewrite E.
    repeat split. discriminate. }
  destruct (String.eqb_spec (as_string (lookup "type" m)) "none") as [E|_].
  { intros [= <-]. exists m, [("type", Str "none")]. rewrite E.
    repeat split. discriminate. }
  destruct (String.eqb_spec (as_string (lookup "type" m)) "any") as [E|_].
  { intros [= <-]. exists m, [("type", Str "any")]. rewrite E.
    repeat split. discriminate. }
  destruct (String.eqb_spec (as_string (lookup "type" m)) "tool") as [E|_];
    [|discriminate].
  destruct (String.eqb (GoStrings.TrimSpace (as_string (lookup "name" m))) "") eqn:En;
    [discriminate|].
  intros [= <-].
  exists m, [("type", Str "tool"); ("name", Str (as_string (lookup "name" m)))].
  rewrite E. split; [reflexivity|]. split; [|split; reflexivity].
  unfold marshal_raw. cbn. rewrite En. reflexivity.
Qed.

(** *** Scalars, and what is lost *)

(** X25. What the round trip over the wire does to the rest of a
    request: the model, the temperature, [top_p] and the [stream] flag
    come back as they were; [max_tokens] comes back when it is
    positive and as 1024 otherwise; the stop sequences and the
    metadata are lost. *)
Theorem round_trip_scalars ar ar' :
  round_trip Marshal Unmarshal wire_request ar = Ok ar' ->
  ar_Model ar' = ar_Model ar
  /\ ar_MaxTokens ar' = (if 0 <? ar_MaxTokens ar then ar_MaxTokens ar else 1024)
  /\ ar_Temperature ar' = ar_Temperature ar
  /\ ar_TopP ar' = ar_TopP ar
  /\ ar_Stream ar' = ar_Stream ar
  /\ ar_StopSeqs ar' = []
  /\ ar_Metadata ar' = None.
Proof.
  unfold round_trip. intros H. inv_bind' H.
  unfold AnthropicToOpenAIChatRequest in Ha.
  inv_bind' Ha. inv_bind' Ha. inv_bind' Ha. injection Ha as <-.
  unfold OpenAIToAnthropicMessageRequest in H.
  cbn [wire_request or_Messages or_MaxTokens or_Model or_Temperature or_TopP
       or_Stream or_Tools or_ToolChoice] in H.
  destruct (wire (ObjArr _)) as [| | | |typed| |]; try discriminate.
  inv_bind' H. inv_bind' H. inv_bind' H. injection H as <-.
  cbn. repeat split.
Qed.

(** *** Responses *)

Lemma concat_nils {A} (f : A -> string) l :
  (forall x, In x l -> f x = ""%string) -> String.concat "" (map f l) = ""%string.
Proof.
  induction l as [|x [|y r] IH]; intros H; cbn.
  - reflexivity.
  - apply H. left. reflexivity.
  - rewrite (H x) by (left; reflexivity). cbn.
    apply IH. intros z Hz. apply H. right. exact Hz.
Qed.

Lemma string_app_nil_r (t : string) : (t ++ "")%string = t.
Proof.
  induction t as [|c t IH]; [reflexivity|].
  change (String c (t ++ "")%string = String c t). f_equal. exact IH.
Qed.

Lemma concat_cons (t : string) l :
  String.concat "" (t :: l) = (t ++ String.concat "" l)%string.
Proof.
  destruct l as [|x r]; cbn [String.concat].
  - symmetry. apply string_app_nil_r.
  - reflexivity.
Qed.

Lemma concat_cons_nils {A} (f : A -> string) t l :
  (forall x, In x l -> f x = ""%string) ->
  String.concat "" (t :: map f l) = t.
Proof.
  intros H. rewrite concat_cons, concat_nils by exact H. apply string_app_nil_r.
Qed.

(** The tool calls a response makes, as [AnthropicResponseToOpenAI]
    reads them: the [tool_use] blocks with an id and a name. *)
Abbreviation calls_made content :=
  (flat_map (fun blk =>
               if is_str (lookup "type" blk) "tool_use"
                  && negb (String.eqb (GoStrings.TrimSpace (as_string (lookup "id" blk))) "")
                  && negb (String.eqb (GoStrings.TrimSpace (as_string (lookup "name" blk))) "")
               then [ToolUse (as_string (lookup "id" blk)) (as_string (lookup "name" blk))]
               else []) content).

Lemma use_links_tool_blocks content :
  use_links (map (response_tool_block Unmarshal)
               (flat_map (response_tool_call Marshal) content))
  = calls_made content.
Proof.
  induction content as [|blk rest IH]; [reflexivity|].
  cbn [flat_map]. rewrite map_app. unfold use_links in *.
  rewrite flat_map_app, IH. f_equal.
  unfold response_tool_call.
  destruct (is_str (lookup "type" blk) "tool_use"); [|reflexivity].
  cbn [andb].
  destruct (negb (String.eqb (GoStrings.TrimSpace (as_string (lookup "id" blk))) ""));
    [|reflexivity].
  destruct (negb (String.eqb (GoStrings.TrimSpace (as_string (lookup "name" blk))) ""));
    reflexivity.
Qed.

Lemma text_of_tool_block tc : text_of_block (response_tool_block Unmarshal tc) = ""%string.
Proof. reflexivity. Qed.

(** X26. An Anthropic response turned into an OpenAI completion and
    back keeps its token usage, its text (unless the text is blank,
    which is dropped) and its tool calls with their ids and names, in
    order; its stop reason comes back as [tool_use] when it makes a
    tool call, and otherwise as [max_tokens] or [tool_use] when it was
    that, and as [end_turn] in every other case. *)
Theorem response_round_trip ar uuid now uuid' model :
  let ar' := OpenAIResponseToAnthropic Marshal Unmarshal uuid'
               (AnthropicResponseToOpenAI Marshal uuid now ar) model in
  let text := response_text (amr_Content ar) in
  amr_Usage ar' = amr_Usage ar
  /\ response_text (amr_Content ar')
     = (if String.eqb (GoStrings.TrimSpace text) "" then ""%string else text)
  /\ use_links (amr_Content ar') = calls_made (amr_Content ar)
  /\ amr_StopReason ar'
     = (if bool_decide (calls_made (amr_Content ar) = []) then
          if String.eqb (GoStrings.TrimSpace (amr_StopReason ar)) "max_tokens"
          then "max_tokens"
          else if String.eqb (GoStrings.TrimSpace (amr_StopReason ar)) "tool_use"
          then "tool_use" else "end_turn"
        else "tool_use")%string.
Proof.
  intros ar' text. subst ar'.
  unfold OpenAIResponseToAnthropic, AnthropicResponseToOpenAI.
  cbn [ocr_Choices occ_Message ocm_Content ocm_ToolCalls occ_FinishReason ocr_Usage
       amr_Usage amr_Content amr_StopReason ocu_PromptTokens ocu_CompletionTokens].
  fold text.
  split; [destruct (amr_Usage ar); reflexivity|].
  split.
  { unfold response_text at 1.
    destruct (String.eqb (GoStrings.TrimSpace text) "").
    - cbn [app]. apply concat_nils. intros x Hx.
      apply in_map_iff in Hx. destruct Hx as (tc & <- & _). reflexivity.
    - cbn [app map].
      change (text_of_block (text_block text)) with text.
      rewrite <- (concat_cons_nils (fun tc => text_of_block (response_tool_block Unmarshal tc))
                    text (flat_map (response_tool_call Marshal) (amr_Content ar)))
        at 2 by reflexivity.
      rewrite map_map. reflexivity. }
  split.
  { unfold use_links at 1. rewrite flat_map_app.
    replace (flat_map _ (if String.eqb (GoStrings.TrimSpace text) "" then []
                         else [text_block text])) with (@nil link)
      by (destruct (String.eqb (GoStrings.TrimSpace text) ""); reflexivity).
    cbn [app]. apply use_links_tool_blocks. }
  rewrite length_map.
  rewrite <- use_links_tool_blocks.
  destruct (flat_map (response_tool_call Marshal) (amr_Content ar)) as [|tc tcs] eqn:E.
  - cbn [map length Nat.eqb negb]. 
    rewrite bool_decide_eq_true_2 by reflexivity.
    unfold mapOpenAIFinishReasonToAnthropicStopReason,
      mapAnthropicStopReasonToOpenAIFinishReason.
    generalize (GoStrings.TrimSpace (amr_StopReason ar)). intros t.
    destruct (String.eqb_spec t "") as [->|_]; [reflexivity|].
    destruct (String.eqb_spec t "end_turn") as [->|_]; [reflexivity|].
    destruct (String.eqb_spec t "max_tokens") as [->|_]; [reflexivity|].
    destruct (String.eqb_spec t "stop_sequence") as [->|_]; [reflexivity|].
    destruct (String.eqb_spec t "tool_use") as [->|_]; reflexivity.
  - cbn [length Nat.eqb negb mapOpenAIFinishReasonToAnthropicStopReason].
    rewrite bool_decide_eq_false_2; [reflexivity|].
    cbn. discriminate.
Qed.

End MoreRoundTrips.

Lemma tool_choice_round_trip_witness :
  let doc := Obj [("type", Str "tool"); ("name", Str "get_weather")] in
  let raw1 := Some (Obj [("type", Str "function");
                         ("function", Obj [("name", Str "get_weather")])]) in
  exists m doc',
    Convert.unmarshal_object doc = Some m
    /\ Convert.openAIToolChoiceToAnthropicToolChoice raw1 = Convert.Ok (Some (Obj doc'))
    /\ lookup "type" doc' = Str (as_string (lookup "type" m))
    /\ (as_string (lookup "type" m) = "tool"%string ->
        lookup "name" doc' = Str (as_string (lookup "name" m))).
Proof.
  apply (tool_choice_round_trip
           (Some (Obj [("type", Str "tool"); ("name", Str "get_weather")]))
           (Some (Obj [("type", Str "function");
                       ("function", Obj [("name", Str "get_weather")])]))).
  vm_compute. reflexivity.
Defined.

Lemma round_trip_scalars_witness :
  match RoundTrip.round_trip Sample.marshal0 Sample7.unmarshal0 Convert.wire_request
          RoundTrip.conversation with
  | Convert.Ok ar' =>
      Convert.ar_Model ar' = "claude-3"%string
      /\ Convert.ar_MaxTokens ar' = 100
      /\ Convert.ar_Temperature ar' = None
      /\ Convert.ar_TopP ar' = None
      /\ Convert.ar_Stream ar' = false
      /\ Convert.ar_StopSeqs ar' = []
      /\ Convert.ar_Metadata ar' = None
  | Convert.Err _ => False
  end.
Proof.
  destruct (RoundTrip.round_trip Sample.marshal0 Sample7.unmarshal0 Convert.wire_request
              RoundTrip.conversation) as [ar'|e] eqn:R;
    [|vm_compute in R; discriminate R].
  exact (round_trip_scalars Sample.marshal0 Sample7.unmarshal0
           RoundTrip.conversation ar' R).
Defined.

(** ** Copying an event stream through *)

Section PassthroughProofs.

Import StreamConv Passthrough.

Variable Unmarshal : string -> option any.
Variable ParseInt : string -> Z.
Variable write : nat -> string -> Z * bool.
Variable io_copy : reader -> Z * option copy_error.

Abbreviation read_usage := (read_usage Unmarshal ParseInt).
Abbreviation forward := (forward Unmarshal ParseInt write).
Abbreviation copy_loop := (copy_loop Unmarshal ParseInt write).

Hypothesis write_all_taken :
  forall k b, write k b = (Z.of_nat (String.length b), false).

Lemma read_usage_sent st block :
  sent (read_usage st block) = sent st
  /\ respBytes (read_usage st block) = respBytes st
  /\ calls (read_usage st block) = calls st.
Proof.
  unfold Passthrough.read_usage.
  destruct (String.eqb _ ""); [auto|].
  destruct (unmarshal_map _ _) as [ev|]; [|auto].
  destruct (lookup "usage" ev); auto;
    destruct (lookup "message" ev) as [| | | | |msg|]; auto;
    destruct (lookup "usage" msg); auto.
Qed.

Lemma forward_taken st block :
  exists st',
    forward st block = inl st'
    /\ sent st' = sent st ++ [Raw block; Raw LF; Flush]
    /\ respBytes st'
       = wrap64 (wrap64 (respBytes st + Z.of_nat (String.length block)) + 1).
Proof.
  unfold Passthrough.forward, do_write. rewrite !write_all_taken.
  cbn [calls sent respBytes inTok outTok].
  eexists. split; [reflexivity|].
  destruct (read_usage_sent
              {| calls := S (S (calls st));
                 sent := ((sent st ++ [Raw block]) ++ [Raw LF]) ++ [Flush];
                 respBytes := wrap64 (wrap64 (respBytes st + Z.of_nat (String.length block))
                                      + Z.of_nat (String.length LF));
                 inTok := inTok st; outTok := outTok st |} block) as (-> & -> & _).
  cbn [sent respBytes]. rewrite <- !app_assoc. split; reflexivity.
Qed.

Lemma string_app_assoc (a b c : string) : ((a ++ b) ++ c = a ++ (b ++ c))%string.
Proof.
  induction a as [|x a IH]; [reflexivity|].
  change (String x ((a ++ b) ++ c)%string = String x (a ++ (b ++ c))%string).
  f_equal. exact IH.
Qed.

Lemma string_app_length (a b : string) :
  String.length (a ++ b)%string = (String.length a + String.length b)%nat.
Proof.
  induction a as [|x a IH]; [reflexivity|].
  change (S (String.length (a ++ b)%string) = S (String.length a + String.length b)).
  f_equal. exact IH.
Qed.

Lemma string_app_nil (a : string) : (a ++ "")%string = a.
Proof.
  induction a as [|x a IH]; [reflexivity|].
  change (String x (a ++ "")%string = String x a). f_equal. exact IH.
Qed.

Lemma concat_app_strings l1 l2 :
  String.concat "" (l1 ++ l2) = (String.concat "" l1 ++ String.concat "" l2)%string.
Proof.
  induction l1 as [|x [|y r] IH].
  - reflexivity.
  - cbn [app]. destruct l2 as [|z r2]; cbn [String.concat].
    + symmetry. apply string_app_nil.
    + reflexivity.
  - change ((x :: y :: r) ++ l2) with (x :: (y :: r) ++ l2).
    change (String.concat "" (x :: (y :: r) ++ l2))
      with (x ++ String.concat "" ((y :: r) ++ l2))%string.
    rewrite IH.
    change (String.concat "" (x :: y :: r)) with (x ++ String.concat "" (y :: r))%string.
    symmetry. apply string_app_assoc.
Qed.

Lemma bytes_sent_app o1 o2 :
  bytes_sent (o1 ++ o2) = (bytes_sent o1 ++ bytes_sent o2)%string.
Proof. unfold bytes_sent. rewrite flat_map_app. apply concat_app_strings. Qed.

(** The builder collects the lines of an event. *)
Lemma copy_loop_event st blk : forall b rest final,
  Forall (fun line => blank_line line = false /\ line <> ""%string) blk ->
  copy_loop st b (blk ++ rest) final
  = copy_loop st (b ++ String.concat "" blk)%string rest final.
Proof.
  induction blk as [|line blk IH]; intros b rest final H.
  - cbn [app String.concat]. rewrite string_app_nil. reflexivity.
  - inversion H as [|? ? [Hl _] Hr]; subst.
    cbn [app Passthrough.copy_loop]. rewrite Hl. rewrite IH by exact Hr.
    f_equal. rewrite string_app_assoc. f_equal.
    destruct blk; [cbn; rewrite string_app_nil|]; reflexivity.
Qed.

Lemma event_not_empty blk :
  is_event blk -> String.concat "" blk <> ""%string.
Proof.
  intros [Hne H]. destruct blk as [|line blk]; [contradiction|].
  inversion H as [|? ? [_ Hl] _]; subst.
  destruct line as [|c line]; [contradiction|].
  destruct blk; cbn; discriminate.
Qed.

Lemma copy_loop_events blocks : forall st,
  Forall is_event blocks ->
  respBytes st + Z.of_nat (String.length (String.concat "" (event_lines blocks)))
  < 2 ^ 63 ->
  0 <= respBytes st ->
  exists st',
    copy_loop st "" (event_lines blocks) EOF = (st', None)
    /\ bytes_sent (sent st')
       = (bytes_sent (sent st) ++ String.concat "" (event_lines blocks))%string
    /\ respBytes st'
       = respBytes st
         + Z.of_nat (String.length (String.concat "" (event_lines blocks))).
Proof.
  induction blocks as [|blk blocks IH]; intros st H Hb H0.
  - exists st. cbn. rewrite string_app_nil. split; [reflexivity|]. split; [reflexivity|lia].
  - inversion H as [|? ? Hblk Hrest]; subst.
    change (event_lines (blk :: blocks)) with ((blk ++ [LF]) ++ event_lines blocks) in *.
    rewrite <- app_assoc. rewrite copy_loop_event by apply Hblk.
    cbn [app Passthrough.copy_loop].
    change (blank_line LF) with true. cbn match.
    change ("" ++ String.concat "" blk)%string with (String.concat "" blk).
    destruct (String.eqb_spec (String.concat "" blk) "") as [E|_];
      [exfalso; exact (event_not_empty _ Hblk E)|].
    destruct (forward_taken st (String.concat "" blk)) as (st1 & -> & Hs & Hr).
    rewrite !concat_app_strings, !string_app_length in Hb.
    change (String.length (String.concat "" [LF])) with 1%nat in Hb.
    assert (Hr1 : respBytes st1
                  = respBytes st + Z.of_nat (String.length (String.concat "" blk)) + 1).
    { rewrite Hr.
      rewrite (wrap64_small (respBytes st + Z.of_nat (String.length (String.concat "" blk))))
        by lia.
      rewrite wrap64_small by lia. reflexivity. }
    destruct (IH st1 Hrest) as (st' & Hl & Hbs & Hrb); [lia|lia|].
    exists st'. split; [exact Hl|].
    rewrite Hbs, Hrb, Hs, bytes_sent_app, Hr1.
    change (LF :: event_lines blocks) with ([LF] ++ event_lines blocks).
    rewrite !concat_app_strings, !string_app_length.
    change (String.length (String.concat "" [LF])) with 1%nat.
    split; [|lia].
    change (bytes_sent [Raw (String.concat "" blk); Raw LF; Flush])
      with (String.concat "" blk ++ LF)%string.
    change (String.concat "" [LF]) with LF.
    rewrite !string_app_assoc. reflexivity.
Qed.

(** X27. The copy is transparent on a well-formed stream: when the
    upstream sends events of lines that are not blank, each closed by
    one blank line, and ends there, and the writer takes every write,
    [copyAnthropicSSEWithUsage] hands the writer exactly the bytes of
    the upstream and reports their number, with no error. *)
Theorem copyAnthropicSSEWithUsage_transparent blocks :
  Forall is_event blocks ->
  Z.of_nat (String.length (String.concat "" (event_lines blocks))) < 2 ^ 63 ->
  exists st,
    copyAnthropicSSEWithUsage Unmarshal ParseInt write io_copy true
      {| rd_lines := event_lines blocks; rd_partial := ""; rd_err := EOF |}
    = (st, None)
    /\ bytes_sent (sent st) = String.concat "" (event_lines blocks)
    /\ respBytes st
       = Z.of_nat (String.length (String.concat "" (event_lines blocks))).
Proof.
  intros H Hb. unfold copyAnthropicSSEWithUsage. cbn [negb rd_lines rd_err].
  destruct (copy_loop_events blocks copy_state0 H) as (st & Hl & Hs & Hr);
    [cbn [respBytes copy_state0]; lia|cbn; lia|].
  exists st. split; [exact Hl|]. split; [exact Hs|]. rewrite Hr. reflexivity.
Qed.

End PassthroughProofs.

Lemma copyAnthropicSSEWithUsage_transparent_witness :
  exists st,
    Passthrough.copyAnthropicSSEWithUsage Sample7.unmarshal0 (fun _ => 0)
      Passthrough.write_all Passthrough.no_copy true
      {| StreamConv.rd_lines := Passthrough.event_lines Passthrough.two_events;
         StreamConv.rd_partial := ""; StreamConv.rd_err := StreamConv.EOF |}
    = (st, None)
    /\ Passthrough.bytes_sent (Passthrough.sent st)
       = String.concat "" (Passthrough.event_lines Passthrough.two_events)
    /\ Passthrough.respBytes st
       = Z.of_nat (String.length
                     (String.concat "" (Passthrough.event_lines Passthrough.two_events))).
Proof.
  apply (copyAnthropicSSEWithUsage_transparent Sample7.unmarshal0 (fun _ => 0)
           Passthrough.write_all Passthrough.no_copy
           (fun k b => eq_refl) Passthrough.two_events).
  - repeat constructor; discriminate.
  - vm_compute. reflexivity.
Defined.

(** ** What a loaded configuration guarantees *)

Section Loaded.

Import Router Loader.

Variable Unmarshal : string -> option any.
Variable UnmarshalString : string -> option string.
Variable decode_ids : string -> list N.
Variable decode_tiers : string -> list Tier.

Abbreviation parseStringSetJSON' :=
  (Loader.parseStringSetJSON Unmarshal UnmarshalString).
Abbreviation provider_step' := (Loader.provider_step Unmarshal UnmarshalString).

(** *** Credentials and their providers *)

Abbreviation creds_ok st :=
  ((forall cid c, fst st !! cid = Some c ->
      cred_ID c = cid /\ 1 <= cred_Weight c
      /\ exists ids, snd st !! cred_ProviderID c = Some ids /\ In cid ids)
   /\ (forall pid ids cid, snd st !! pid = Some ids -> In cid ids ->
         is_Some (fst st !! cid))).

Lemma credential_step_ok (st : gmap N credentialRow * gmap N (list N)) s :
  creds_ok st -> creds_ok (credential_step st s).
Proof.
  destruct st as [out provOut]. intros [H1 H2]. cbn [fst snd] in H1, H2.
  unfold credential_step. cbn beta iota zeta delta [fst snd]. split.
  - intros cid c. destruct (decide (cid = cs_id s)) as [->|Hne].
    + rewrite lookup_insert_eq. intros [= <-]. cbn [cred_ID cred_Weight cred_ProviderID].
      split; [reflexivity|]. split; [destruct (Z.leb_spec (cs_weight s) 0); lia|].
      rewrite lookup_insert_eq. eexists. split; [reflexivity|].
      apply in_or_app. right. left. reflexivity.
    + rewrite lookup_insert_ne by congruence. intros Hc.
      destruct (H1 cid c Hc) as (E & W & ids & Hids & Hin).
      split; [exact E|]. split; [exact W|].
      destruct (decide (cred_ProviderID c = cs_providerID s)) as [Ep|Ep].
      * rewrite Ep, lookup_insert_eq. eexists. split; [reflexivity|].
        rewrite Ep in Hids. rewrite Hids. cbn [default].
        apply in_or_app. left. exact Hin.
      * rewrite lookup_insert_ne by congruence. eauto.
  - intros pid ids cid. destruct (decide (pid = cs_providerID s)) as [->|Hne].
    + rewrite lookup_insert_eq. intros [= <-] Hin.
      apply in_app_or in Hin. destruct Hin as [Hin|[<-|[]]].
      * destruct (provOut !! cs_providerID s) as [ids0|] eqn:E; [|destruct Hin].
        cbn [default] in Hin.
        destruct (decide (cid = cs_id s)) as [->|Hc];
          [rewrite lookup_insert_eq; eauto|].
        rewrite lookup_insert_ne by congruence. exact (H2 _ _ _ E Hin).
      * rewrite lookup_insert_eq. eauto.
    + rewrite lookup_insert_ne by congruence. intros Hids Hin.
      destruct (decide (cid = cs_id s)) as [->|Hc];
        [rewrite lookup_insert_eq; eauto|].
      rewrite lookup_insert_ne by congruence. exact (H2 _ _ _ Hids Hin).
Qed.

Lemma scan_all_inv {A S} (step : S -> A -> S) (P : S -> Prop) :
  (forall st a, P st -> P (step st a)) ->
  forall rows st st', P st -> scan_all step st rows = Some st' -> P st'.
Proof.
  intros Hstep. induction rows as [|[a|] rest IH]; intros st st' H Hs; cbn [scan_all] in Hs.
  - injection Hs as <-. exact H.
  - apply (IH (step st a)); [apply Hstep, H|exact Hs].
  - discriminate.
Qed.

Lemma run_query_inv {A S} (step : S -> A -> S) (P : S -> Prop) q st st' :
  (forall st a, P st -> P (step st a)) ->
  P st -> run_query q step st = Some st' -> P st'.
Proof.
  intros Hstep H. unfold run_query. destruct q as [c|]; [|discriminate].
  destruct (scan_all step st (scans c)) as [st1|] eqn:E; [|discriminate].
  destruct (rows_err c); [discriminate|]. intros [= <-].
  exact (scan_all_inv step P Hstep _ _ _ H E).
Qed.

(** X28. In a configuration [loadConfig] builds, the credentials and
    the lists of credentials by provider agree: a credential is stored
    under its own id with a weight of at least 1 and is listed under
    its provider, and every credential listed under a provider is
    stored. *)
Theorem loadConfig_credentials now qprov qcred qpool cfg :
  Loader.loadConfig Unmarshal UnmarshalString decode_ids decode_tiers
    now qprov qcred qpool = Some cfg ->
  (forall cid c, credentials cfg !! cid = Some c ->
     cred_ID c = cid /\ 1 <= cred_Weight c
     /\ exists ids, providerCreds cfg !! cred_ProviderID c = Some ids /\ In cid ids)
  /\ (forall pid ids cid, providerCreds cfg !! pid = Some ids -> In cid ids ->
        is_Some (credentials cfg !! cid)).
Proof.
  unfold Loader.loadConfig. intros H.
  destruct (run_query qprov _ _) as [provs|]; [|discriminate].
  destruct (run_query qcred _ _) as [[creds provCreds]|] eqn:E; [|discriminate].
  destruct (run_query qpool _ _) as [[pools byKey]|]; [|discriminate].
  injection H as <-. cbn [credentials providerCreds].
  apply (run_query_inv credential_step (fun st => creds_ok st) qcred (∅, ∅) (creds, provCreds));
    [apply credential_step_ok| |exact E].
  cbn [fst snd]. split.
  - intros cid c Hc. rewrite lookup_empty in Hc. discriminate.
  - intros pid ids cid Hc. rewrite lookup_empty in Hc. discriminate.
Qed.

(** *** Published models *)

Lemma add_ids_keys pick l : forall out : gmap string bool,
  (forall it s, pick it = Some s -> s <> ""%string) ->
  (forall k, is_Some (out !! k) -> k <> ""%string) ->
  forall k, is_Some (add_ids pick l out !! k) -> k <> ""%string.
Proof.
  unfold add_ids. induction l as [|it l IH]; intros out Hp Ho k; cbn [fold_left].
  - apply Ho.
  - apply IH; [exact Hp|]. intros k'.
    destruct (pick it) as [s|] eqn:E; [|apply Ho].
    destruct (decide (k' = s)) as [->|Hne].
    + intros _. exact (Hp _ _ E).
    + rewrite lookup_insert_ne by congruence. apply Ho.
Qed.

Lemma listed_id_nonempty it s : listed_id it = Some s -> s <> ""%string.
Proof.
  destruct it as [|x| | | |x|]; cbn; try discriminate.
  - destruct (String.eqb_spec (GoStrings.TrimSpace x) ""); [discriminate|].
    intros [= <-]. assumption.
  - destruct (String.eqb_spec (GoStrings.TrimSpace (as_string (lookup "id" x))) "");
      [discriminate|].
    intros [= <-]. assumption.
Qed.

Lemma data_id_nonempty it s : data_id it = Some s -> s <> ""%string.
Proof.
  destruct it as [| | | | |x|]; cbn; try discriminate.
  destruct (String.eqb_spec (GoStrings.TrimSpace (as_string (lookup "id" x))) "");
    [discriminate|].
  intros [= <-]. assumption.
Qed.

Lemma empty_keys (k : string) : is_Some ((∅ : gmap string bool) !! k) -> k <> ""%string.
Proof. rewrite lookup_empty. intros [? ?]. discriminate. Qed.

Lemma parseStringSetJSON_keys raw k :
  is_Some (parseStringSetJSON' raw !! k) -> k <> ""%string.
Proof.
  unfold Loader.parseStringSetJSON.
  destruct (Nat.eqb _ 0); [apply empty_keys|].
  destruct (unmarshalMaybeJSONString _ _ raw) as [[| | | |v|v|]|]; try apply empty_keys.
  - apply add_ids_keys; [apply listed_id_nonempty|apply empty_keys].
  - destruct (lookup "data" v) as [| | | |data| |]; try apply empty_keys.
    apply add_ids_keys; [apply data_id_nonempty|apply empty_keys].
Qed.

Abbreviation models_ok provs :=
  (forall pid (prov : providerRow), provs !! pid = Some prov ->
     forall k, is_Some (prov_Models prov !! k) -> k <> ""%string).

Lemma provider_step_ok provs s : models_ok provs -> models_ok (provider_step' provs s).
Proof.
  intros H pid prov. unfold Loader.provider_step.
  destruct (decide (pid = ps_id s)) as [->|Hne].
  - rewrite lookup_insert_eq. intros [= <-]. cbn [prov_Models].
    apply parseStringSetJSON_keys.
  - rewrite lookup_insert_ne by congruence. apply H.
Qed.

Lemma pickModelForAlias_member models alias :
  GoStrings.ToLower (GoStrings.TrimSpace alias) <> ""%string ->
  models <> ∅ ->
  is_Some (models !! pickModelForAlias models alias).
Proof.
  intros Ha Hm. unfold pickModelForAlias.
  destruct (String.eqb_spec (GoStrings.ToLower (GoStrings.TrimSpace alias)) "");
    [contradiction|].
  rewrite bool_decide_eq_false_2 by exact Hm. cbn [orb].
  set (isSmall := _ || _).
  destruct (fold_better isSmall (map fst (map_to_list models))) as (b & -> & Hin & _).
  { intros E. apply map_eq_nil in E. apply map_to_list_empty_iff in E. contradiction. }
  apply in_map_iff in Hin. destruct Hin as ([k v] & <- & Hkv). exists v.
  apply elem_of_map_to_list, list_elem_of_In, Hkv.
Qed.

(** X29. A provider of a loaded configuration never publishes the
    empty model id, so the alias fallback always finds a model: for a
    provider that publishes models and a requested model that is not
    blank, the model resolution never rejects the provider, and the
    model it yields is one the provider publishes. *)
Theorem loaded_provider_resolves now qprov qcred qpool cfg pid prov pool model :
  Loader.loadConfig Unmarshal UnmarshalString decode_ids decode_tiers
    now qprov qcred qpool = Some cfg ->
  providers cfg !! pid = Some prov ->
  prov_Models prov <> ∅ ->
  GoStrings.ToLower (GoStrings.TrimSpace model) <> ""%string ->
  snd (resolveModel prov pool model) = true
  /\ is_Some (prov_Models prov !! fst (resolveModel prov pool model)).
Proof.
  intros H Hp Hne Hm.
  assert (Hk : forall k, is_Some (prov_Models prov !! k) -> k <> ""%string).
  { revert H. unfold Loader.loadConfig.
    destruct (run_query qprov _ _) as [provs|] eqn:E; [|discriminate].
    destruct (run_query qcred _ _) as [[creds provCreds]|]; [|discriminate].
    destruct (run_query qpool _ _) as [[pools byKey]|]; [|discriminate].
    intros [= <-]. cbn [providers] in Hp.
    refine (run_query_inv provider_step' (fun provs => models_ok provs) qprov ∅ provs
              provider_step_ok _ E pid prov Hp).
    intros ? ? Hc. rewrite lookup_empty in Hc. discriminate. }
  unfold resolveModel. rewrite bool_decide_eq_false_2 by exact Hne.
  set (up := mapped _ _ _).
  destruct (prov_Models prov !! up) eqn:E; cbn [fst snd].
  - split; [reflexivity|]. rewrite E. eauto.
  - assert (Hin := pickModelForAlias_member (prov_Models prov) model Hm Hne).
    destruct (String.eqb_spec (pickModelForAlias (prov_Models prov) model) "") as [E'|E'].
    + exfalso. rewrite E' in Hin. exact (Hk _ Hin eq_refl).
    + cbn [fst snd]. split; [reflexivity|exact Hin].
Qed.

End Loaded.

Lemma loadConfig_credentials_witness :
  match Loader.loaded0 with
  | Some cfg =>
      (forall cid c, Router.credentials cfg !! cid = Some c ->
         Router.cred_ID c = cid /\ 1 <= Router.cred_Weight c
         /\ exists ids, Router.providerCreds cfg !! Router.cred_ProviderID c = Some ids
                        /\ In cid ids)
      /\ (forall pid ids cid, Router.providerCreds cfg !! pid = Some ids -> In cid ids ->
            is_Some (Router.credentials cfg !! cid))
  | None => False
  end.
Proof.
  destruct Loader.loaded0 as [cfg|] eqn:H; [|vm_compute in H; discriminate H].
  exact (loadConfig_credentials Loader.no_json Loader.no_string Loader.ids0 Loader.tiers0
           1000 Loader.providers0 Loader.credentials0 Loader.pools0 cfg H).
Defined.

Lemma loaded_provider_resolves_witness :
  match Loader.loaded1 with
  | Some cfg =>
      match Router.providers cfg !! 1%N with
      | Some prov =>
          snd (Router.resolveModel prov Loader.pool0 "gpt-5") = true
          /\ is_Some (Router.prov_Models prov
                        !! fst (Router.resolveModel prov Loader.pool0 "gpt-5"))
      | None => False
      end
  | None => False
  end.
Proof.
  destruct Loader.loaded1 as [cfg|] eqn:H; [|vm_compute in H; discriminate H].
  destruct (Router.providers cfg !! 1%N) as [prov|] eqn:Hp.
  - apply (loaded_provider_resolves Loader.models_json Loader.no_string Loader.ids0
             Loader.tiers0 1000 Loader.providers1 Loader.credentials0 Loader.pools0
             cfg 1%N prov Loader.pool0 "gpt-5" H Hp).
    + unfold Loader.loaded1 in H. vm_compute in H. injection H as <-.
      vm_compute in Hp. injection Hp as <-.
      intros E.
      apply (f_equal (fun m : gmap string bool => m !! "gpt-4o-mini"%string)) in E.
      vm_compute in E. discriminate E.
    + vm_compute. discriminate.
  - unfold Loader.loaded1 in H. vm_compute in H. injection H as <-.
    vm_compute in Hp. discriminate Hp.
Defined.

(** ** Tiers *)

Section Tiers.

Import Router.

Variables (r : Router) (cfg : loadedConfig) (pool : poolRow) (model : string)
  (avail : N -> bool).

(** Credential [c] is one of provider [p], which is configured and can
    serve the model, and [c] is available. *)
Abbreviation serves p c :=
  (exists prov,
     providers cfg !! p = Some prov
     /\ snd (resolveModel prov pool model) = true
     /\ In (c : N) (default [] (providerCreds cfg !! p))
     /\ avail c = true).

Lemma bestOf_In creds : forall best cid sc,
  bestOf r cfg avail creds best = Some (cid, sc) ->
  (In cid creds /\ avail cid = true) \/ best = Some (cid, sc).
Proof.
  induction creds as [|c rest IH]; intros best cid sc H; cbn [bestOf] in H.
  - right. exact H.
  - destruct (avail c) eqn:Ec; cbn [negb] in H.
    2:{ destruct (IH _ _ _ H) as [[Hin Ha]|Hb]; [left; split; [right|]; assumption|].
        right. exact Hb. }
    assert (Hnew : forall s,
      bestOf r cfg avail rest (Some (c, s)) = Some (cid, sc) ->
      In cid (c :: rest) /\ avail cid = true).
    { intros s Hs. destruct (IH _ _ _ Hs) as [[Hin Ha]|Hb].
      - split; [right|]; assumption.
      - injection Hb as <- _. split; [left; reflexivity|exact Ec]. }
    destruct best as [[b bs]|].
    + destruct (F64.fltb _ _); [left; eapply Hnew, H|].
      destruct (IH _ _ _ H) as [[Hin Ha]|Hb]; [left; split; [right|]; assumption|].
      right. exact Hb.
    + left. eapply Hnew, H.
Qed.

Lemma pickBestKey_serves provID cid sc :
  pickBestKey r cfg pool model avail provID = Some (cid, sc) -> serves provID cid.
Proof.
  unfold pickBestKey. destruct (providers cfg !! provID) as [prov|]; [|discriminate].
  destruct (snd (resolveModel prov pool model)) eqn:E; cbn [negb]; [|discriminate].
  intros H. apply bestOf_In in H. destruct H as [[Hin Ha]|H]; [|discriminate].
  exists prov. auto.
Qed.

Abbreviation pick := (pickBestKey r cfg pool model avail).

Lemma firstByPriority_serves items cid :
  firstByPriority pick items = Some cid ->
  exists it, In it items /\ serves (item_ProviderID it) cid.
Proof.
  induction items as [|it rest IH]; cbn [firstByPriority]; [discriminate|].
  destruct (pick (item_ProviderID it)) as [[c s]|] eqn:E.
  - intros [= <-]. exists it. split; [left; reflexivity|].
    eapply pickBestKey_serves, E.
  - intros H. destruct (IH H) as (it' & Hin & Hs). exists it'. split; [right|]; assumption.
Qed.

Lemma weightedCandidates_serves items c :
  In c (weightedCandidates pick items) ->
  exists it, In it items /\ serves (item_ProviderID it) (fst c).
Proof.
  induction items as [|it rest IH]; cbn [weightedCandidates]; [intros []|].
  destruct (pick (item_ProviderID it)) as [[cid s]|] eqn:E.
  - intros [<-|H].
    + exists it. split; [left; reflexivity|]. eapply pickBestKey_serves, E.
    + destruct (IH H) as (it' & Hin & Hs). exists it'. split; [right|]; assumption.
  - intros H. destruct (IH H) as (it' & Hin & Hs). exists it'. split; [right|]; assumption.
Qed.

End Tiers.

Section TierPick.

Import Router.

(** X30. A pool's tiers bound what is routed to: the credential picked
    from the tiers is an available credential of a provider that is an
    item of a tier applying to the model, and that provider is
    configured and serves the model, under its own name, a mapped one
    or an alias. *)
Theorem pickFromTiers_within_tiers r cfg pool model avail tiers cid :
  snd (pickFromTiers r cfg pool model avail tiers) = Some cid ->
  exists tier it prov,
    In tier tiers
    /\ tierAppliesToModel tier model = true
    /\ In it (tier_Items tier)
    /\ providers cfg !! item_ProviderID it = Some prov
    /\ snd (resolveModel prov pool model) = true
    /\ In cid (default [] (providerCreds cfg !! item_ProviderID it))
    /\ avail cid = true.
Proof.
  induction tiers as [|tier rest IH]; cbn [pickFromTiers]; [discriminate|].
  assert (Hrest : snd (pickFromTiers r cfg pool model avail rest) = Some cid ->
    exists tier0 it prov,
      In tier0 (tier :: rest) /\ tierAppliesToModel tier0 model = true
      /\ In it (tier_Items tier0)
      /\ providers cfg !! item_ProviderID it = Some prov
      /\ snd (resolveModel prov pool model) = true
      /\ In cid (default [] (providerCreds cfg !! item_ProviderID it))
      /\ avail cid = true).
  { intros H. destruct (IH H) as (t & it & prov & Hin & Hrest).
    exists t, it, prov. split; [right; exact Hin|exact Hrest]. }
  destruct (tierAppliesToModel tier model) eqn:Ea; cbn [negb]; [|exact Hrest].
  assert (Hhere : forall c,
    (exists it, In it (tier_Items tier)
                /\ exists prov,
                     providers cfg !! item_ProviderID it = Some prov
                     /\ snd (resolveModel prov pool model) = true
                     /\ In c (default [] (providerCreds cfg !! item_ProviderID it))
                     /\ avail c = true) ->
    exists tier0 it prov,
      In tier0 (tier :: rest) /\ tierAppliesToModel tier0 model = true
      /\ In it (tier_Items tier0)
      /\ providers cfg !! item_ProviderID it = Some prov
      /\ snd (resolveModel prov pool model) = true
      /\ In c (default [] (providerCreds cfg !! item_ProviderID it))
      /\ avail c = true).
  { intros c (it & Hin & prov & H1 & H2 & H3 & H4).
    exists tier, it, prov. split; [left; reflexivity|]. auto 10. }
  destruct (tier_Items tier) as [|it0 its] eqn:Ei; [exact Hrest|].
  destruct (String.eqb (tier_Strategy tier) "priority").
  - destruct (firstByPriority _ (it0 :: its)) as [c|] eqn:E; [|exact Hrest].
    intros [= <-]. apply Hhere. eapply firstByPriority_serves, E.
  - destruct (weightedCandidates _ (it0 :: its)) as [|c0 cs] eqn:E; [exact Hrest|].
    assert (Hc : forall c, In c (c0 :: cs) ->
      exists it, In it (it0 :: its)
                 /\ exists prov,
                      providers cfg !! item_ProviderID it = Some prov
                      /\ snd (resolveModel prov pool model) = true
                      /\ In (fst c) (default [] (providerCreds cfg !! item_ProviderID it))
                      /\ avail (fst c) = true).
    { intros c Hin. rewrite <- E in Hin.
      exact (weightedCandidates_serves r cfg pool model avail _ _ Hin). }
    destruct (F64.fleb _ _).
    + intros [= <-]. apply Hhere, Hc. left. reflexivity.
    + cbn [bumpCounter].
      destruct (drawCandidate _ _ _) as [c|] eqn:Ed; intros [= <-].
      * apply drawCandidate_In in Ed. apply in_map_iff in Ed.
        destruct Ed as (x & <- & Hx). apply Hhere, Hc, Hx.
      * apply Hhere, Hc, last_In.
Qed.

End TierPick.

Lemma pickFromTiers_within_tiers_witness :
  exists tier it prov,
    In tier (Router.pool_Tiers SampleTiers.pool4)
    /\ Router.tierAppliesToModel tier "claude-3-opus" = true
    /\ In it (Router.tier_Items tier)
    /\ Router.providers Sample.config1 !! Router.item_ProviderID it = Some prov
    /\ snd (Router.resolveModel prov SampleTiers.pool4 "claude-3-opus") = true
    /\ In 1%N (default [] (Router.providerCreds Sample.config1
                             !! Router.item_ProviderID it))
    /\ Router.isAvailable Sample.router0 Sample.config1 ∅ 1000 1%N = true.
Proof.
  apply (pickFromTiers_within_tiers Sample.router0 Sample.config1 SampleTiers.pool4
           "claude-3-opus" (Router.isAvailable Sample.router0 Sample.config1 ∅ 1000)
           (Router.pool_Tiers SampleTiers.pool4) 1%N).
  vm_compute. reflexivity.
Defined.
